(** * BridgedClient: a per-user IRC session of the Matrix-IRC bridge

    A shallow embedding of [lib/irc/BridgedClient.js].  The client is a
    JavaScript object driven by an event loop: public methods return
    promises, the upstream IRC library calls back through listeners and
    callbacks, and timers fire later.  The embedding keeps that shape:

    - the session is a record [State]; every method is a function on it;
    - closures handed to the event loop (listeners, upstream callbacks,
      timer bodies, promise continuations) are defunctionalised into
      constructors carrying the variables they capture;
    - deferreds live in a store indexed by allocation order, callbacks
      registered with [then]/[done] wait on a deferred and are scheduled
      as jobs when it settles;
    - everything that leaves the session (commands on the wire, events
      emitted to the bridge, metadata for the event broker) is appended to
      an effect log. *)

From Stdlib Require Import Bool Arith ZArith List String Ascii Lia.
From Stdlib Require Import DecimalString.
Import ListNotations.

Local Open Scope string_scope.
Local Open Scope Z_scope.

(* ================================================================= *)
(** ** JavaScript values used by the client *)

(** [new Error(msg)] and the [TypeError] raised when a property of
    [null]/[undefined] is read; a bluebird [TimeoutError] for
    [.timeout(ms)]. *)
Inductive error :=
| Error (msg : string)
| TypeError (msg : string)
| TimeoutError.

(** Outcome of a call that may throw. *)
Inductive res (A : Type) :=
| Ok (a : A)
| Throw (e : error).
Arguments Ok {A} a.
Arguments Throw {A} e.

(** [String(n)] for an integer [n]. *)
Definition string_of_Z (z : Z) : string :=
  NilZero.string_of_int (Z.to_int z).

(** Truthiness of an optional string ([undefined], [null] and the empty
    string are falsy). *)
Definition truthy (s : option string) : bool :=
  match s with
  | Some EmptyString => false
  | Some _ => true
  | None => false
  end.

(** [a || b] on optional strings. *)
Definition or_default (s : option string) (d : string) : string :=
  match s with
  | Some EmptyString => d
  | Some v => v
  | None => d
  end.

(** [str.indexOf(c) === 0] for a one-character needle. *)
Definition starts_with (c : ascii) (s : string) : bool :=
  match s with
  | String c' _ => Ascii.eqb c c'
  | EmptyString => false
  end.

(** [list.indexOf(x) !== -1] / [list.includes(x)] on strings. *)
Fixpoint includes (x : string) (l : list string) : bool :=
  match l with
  | [] => false
  | y :: l' => String.eqb x y || includes x l'
  end.

(* ================================================================= *)
(** ** Nick validation: [_getValidNick] *)

Definition in_range (lo hi c : ascii) : bool :=
  Ascii.leb lo c && Ascii.leb c hi.

(** [/[A-Za-z]/] on one character. *)
Definition is_letter (c : ascii) : bool :=
  in_range "A" "Z" c || in_range "a" "z" c.

(** The character class of [illegalCharactersRegex] before negation:
    [A-Za-z0-9\]\[\^\\\{\}\-`_\|]. *)
Definition is_legal (c : ascii) : bool :=
  in_range "A" "Z" c || in_range "a" "z" c || in_range "0" "9" c
  || Ascii.eqb c "]" || Ascii.eqb c "[" || Ascii.eqb c "^"
  || Ascii.eqb c "\" || Ascii.eqb c "{" || Ascii.eqb c "}"
  || Ascii.eqb c "-" || Ascii.eqb c "`" || Ascii.eqb c "_"
  || Ascii.eqb c "|".

Arguments is_letter : simpl never.
Arguments is_legal : simpl never.

(** [nick.replace(illegalCharactersRegex, "")]: the regex is global, so
    every illegal character is dropped. *)
Fixpoint strip_illegal (s : string) : string :=
  match s with
  | EmptyString => EmptyString
  | String c r =>
      if is_legal c then String c (strip_illegal r) else strip_illegal r
  end.

(** [/^[A-Za-z]/.test(n)]. *)
Definition starts_with_letter (s : string) : bool :=
  match s with
  | String c _ => is_letter c
  | EmptyString => false
  end.

(** [n.substr(0, len)]: a negative length yields the empty string. *)
Definition substr0 (n : string) (len : Z) : string :=
  substring 0 (Z.to_nat len) n.

(** [_getValidNick(nick, throwOnInvalid)].  The only part of the session it
    reads is the raw client handle: [client = None] when [unsafeClient] is
    unset, otherwise [Some nicklen] where [nicklen] is
    [unsafeClient.supported.nicklength] when that is a number
    (an integer, as the upstream interface declares it). *)
Definition getValidNick (client : option (option Z))
           (nick : string) (throwOnInvalid : bool) : res string :=
  let n := strip_illegal nick in
  if throwOnInvalid && negb (String.eqb n nick) then
    Throw (Error ("Nick '" ++ nick ++ "' contains illegal characters."))
  else
    let step2 :=
      if negb (starts_with_letter n) then
        if throwOnInvalid then
          Throw (Error ("Nick '" ++ nick ++ "' must start with a letter."))
        else Ok ("M" ++ n)
      else Ok n in
    match step2 with
    | Throw e => Throw e
    | Ok n =>
        match client with
        | Some supported =>
            let maxNickLen :=
              match supported with
              | Some nicklength => nicklength
              | None => 9 (* RFC 1459 default *)
              end in
            if Z.of_nat (String.length n) >? maxNickLen then
              if throwOnInvalid then
                Throw (Error ("Nick '" ++ nick ++ "' is too long. (Max: "
                              ++ string_of_Z maxNickLen ++ ")"))
              else Ok (substr0 n maxNickLen)
            else Ok n
        | None => Ok n
        end
    end.


(* ================================================================= *)
(** ** The server descriptor and the upstream IRC client *)

(** The parts of [IrcServer] the client consults.  The descriptor is
    injected and never changes, so its methods are fields. *)
Record IrcServer := {
  domain : string;
  getIdleTimeout : Z;
  getExpiryTimeSeconds : Z;
  getUserModes : string;
  shouldSyncMembershipToIrc : string -> bool;
  isExcludedChannel : string -> bool
}.

(** An [err] object passed to "error" listeners; the event argument
    itself may be missing ([option irc_error]). *)
Record irc_error := {
  command : option string;
  args : option (list string)
}.

(** The reply handed to the [whois] callback. *)
Record whois_reply := {
  w_user : option string;
  w_host : string;
  w_realname : string;
  w_channels : list string;
  w_idle : option string
}.

(** What [getNicks] resolves to, extended by [getOperators] with
    [operatorNicks].  [names] maps a nick to its prefix string;
    [nicks] is [Object.keys(names)]. *)
Record NicksInfo := {
  ni_channel : string;
  ni_names : list (string * string);
  ni_operatorNicks : option (list string)
}.

Definition ni_nicks (i : NicksInfo) : list string := map fst (ni_names i).

(** Values promises resolve to.  [VInherited proto key] is what the
    operator cache, a plain object, finds for [key] on its prototype
    chain: a member of [Object.prototype], [Object.prototype] itself, or
    a property of the info object [proto] installed as its prototype. *)
Inductive value :=
| VUndefined
| VString (s : string)
| VRoom (channel : string)        (* new IrcRoom(this.server, channel) *)
| VWhois (nick msg : string)      (* {server, nick, msg} *)
| VNicks (info : NicksInfo)
| VInherited (proto : option NicksInfo) (key : string).

(** [_cachedOperatorNicksInfo]: a plain object.  Its own properties are
    the cached entries; its prototype is [Object.prototype] until an
    assignment to the key [__proto__] replaces it by the info assigned. *)
Record Cache := {
  own_entries : list (string * NicksInfo);
  prototype : option NicksInfo
}.

Inductive outcome :=
| Resolved (v : value)
| Rejected (e : error).

(** A promise as seen by the holder: already settled when created
    ([Promise.resolve], [Promise.reject]) or a deferred of the store. *)
Inductive promise :=
| Settled (o : outcome)
| Deferred (d : nat).

(** What a method call produces: a promise, or a synchronous exception. *)
Inductive result :=
| Ret (p : promise)
| Thrown (e : error).

(** Commands the upstream client writes to the socket. *)
Inductive irc_cmd :=
| JOIN (arg : string)
| PART (channel reason : string)
| NICK (newNick : string)
| KICK (channel nick reason : string)
| TOPIC (channel topic : string)
| WHOIS (nick : string)
| NAMES (channel : string)
| PRIVMSG (target text : string)
| NOTICE (target text : string)
| ACTION (target text : string)
| MODE (modes : string)
| QUIT (reason : string).

(** Events the client emits to the bridge. *)
Inductive bridge_event :=
| ClientConnected
| ClientDisconnected
| NickChange (old new : string)
| JoinError (channel cmd : string).

(** Everything observable from outside the session. *)
Inductive effect :=
| Wire (c : irc_cmd)
| Emit (e : bridge_event)
| Metadata (text : string) (force : bool)
| Uncaught (e : error).

(** Listeners the client attaches to the upstream emitter.  A listener
    closure is identified by the deferred of the call that created it. *)
Inductive listener :=
| LNickTrack                               (* connect: permanent "nick" listener *)
| LErrorReport                             (* connect: permanent "error" listener *)
| LNickChanged (d : nat)                   (* changeNick: nickListener *)
| LNickFailed (d : nat)                    (* changeNick: nickErrListener *)
| LJoinFailed (d : nat) (channel : string) (* _joinChannel: failFn *).

(** Callbacks passed to upstream commands. *)
Inductive callback :=
| CbJoin (d : nat) (channel : string)
| CbPart (d : nat)
| CbWhois (d : nat) (nick : string)
| CbNames (d : nat).

(** Bodies of [setTimeout] callbacks (the idle timer is a field of its
    own, see [idleTimeout_]). *)
Inductive timer :=
| TJoin (d : nat) (channel : string) (key : option string) (attemptCount : Z)
| TNick (d : nat) (validNick : string)
| TNames (d : nat)
| TCache (channel : string).

(** Promise continuations ([then]/[done] callbacks). *)
Inductive frame :=
| KJoin (channel : string) (key : option string) (attemptCount : option Z)
| KSetTopic (channel topic : string)
| KSendDispatch (msgType channel text : string) (expiryTs : Z)
| KGetNicks (channel : string)
| KLeave (channel : string)
| KConst (v : value)
| KOperators (channel : string) (cacheDurationMs : option Z).

(** A callback chain waiting on a promise: the frames still to run and
    the deferred that receives the final outcome. *)
Definition waiter : Type := list frame * option nat.

(** A chain whose promise has settled, scheduled to run. *)
Definition job : Type := list frame * option nat * outcome.

Record deferred := {
  d_state : option outcome;         (* None while pending *)
  d_waiters : list waiter
}.

(** The upstream client object ([connInst.client]). *)
Record RawClient := {
  c_nick : string;
  c_nicklength : option Z;                 (* supported.nicklength *)
  c_chans : list string;                   (* Object.keys(chans) *)
  c_morePowerfulThanAt : string -> bool;   (* isUserPrefixMorePowerfulThan(p, "@") *)
  c_nickListeners : list listener;
  c_errorListeners : list listener;
  c_callbacks : list callback
}.

(** The connection instance: its liveness flag and the client it owns. *)
Record ConnectionInstance := {
  dead : bool;
  client : RawClient
}.

(** The [unsafeClient] field: never assigned by the constructor
    ([undefined]), cleared by [kill] ([null]), or set by [connect] to the
    client of the connection instance. *)
Inductive handle :=
| HUndefined
| HNull
| HClient.

(** The session.  [unsafeClient] is a handle to [inst.client]: the two
    alias one object, so the handle is a tag and the object is stored once.
    [idleTimeout_] is the armed idle timer with the timeout its closure
    captured.  [timers] pairs each armed timer with its delay in ms. *)
Record State := {
  server : IrcServer;
  isBot : bool;
  nick : string;
  inst : option ConnectionInstance;
  unsafeClient : handle;
  chanList : list string;
  lastActionTs : Z;
  explicitDisconnect : bool;
  instCreationFailed : bool;
  disconnectReason : option string;
  idleTimeout_ : option Z;
  timers : list (Z * timer);
  defers : list deferred;
  jobs : list job;
  cachedOperatorNicksInfo : Cache;
  now : Z;
  log : list effect
}.

Definition JOIN_TIMEOUT_MS : Z := 15 * 1000.
Definition NICK_DELAY_TIMER_MS : Z := 10 * 1000.

(** The deferred allocated by the constructor ([_connectDefer]). *)
Definition connectDefer : nat := 0%nat.

(* ================================================================= *)
(** ** Field updates *)

Definition set_nick (v : string) (st : State) : State :=
  {| server := server st;
     isBot := isBot st;
     nick := v;
     inst := inst st;
     unsafeClient := unsafeClient st;
     chanList := chanList st;
     lastActionTs := lastActionTs st;
     explicitDisconnect := explicitDisconnect st;
     instCreationFailed := instCreationFailed st;
     disconnectReason := disconnectReason st;
     idleTimeout_ := idleTimeout_ st;
     timers := timers st;
     defers := defers st;
     jobs := jobs st;
     cachedOperatorNicksInfo := cachedOperatorNicksInfo st;
     now := now st;
     log := log st |}.

Definition set_inst (v : option ConnectionInstance) (st : State) : State :=
  {| server := server st;
     isBot := isBot st;
     nick := nick st;
     inst := v;
     unsafeClient := unsafeClient st;
     chanList := chanList st;
     lastActionTs := lastActionTs st;
     explicitDisconnect := explicitDisconnect st;
     instCreationFailed := instCreationFailed st;
     disconnectReason := disconnectReason st;
     idleTimeout_ := idleTimeout_ st;
     timers := timers st;
     defers := defers st;
     jobs := jobs st;
     cachedOperatorNicksInfo := cachedOperatorNicksInfo st;
     now := now st;
     log := log st |}.

Definition set_unsafeClient (v : handle) (st : State) : State :=
  {| server := server st;
     isBot := isBot st;
     nick := nick st;
     inst := inst st;
     unsafeClient := v;
     chanList := chanList st;
     lastActionTs := lastActionTs st;
     explicitDisconnect := explicitDisconnect st;
     instCreationFailed := instCreationFailed st;
     disconnectReason := disconnectReason st;
     idleTimeout_ := idleTimeout_ st;
     timers := timers st;
     defers := defers st;
     jobs := jobs st;
     cachedOperatorNicksInfo := cachedOperatorNicksInfo st;
     now := now st;
     log := log st |}.

Definition set_chanList (v : list string) (st : State) : State :=
  {| server := server st;
     isBot := isBot st;
     nick := nick st;
     inst := inst st;
     unsafeClient := unsafeClient st;
     chanList := v;
     lastActionTs := lastActionTs st;
     explicitDisconnect := explicitDisconnect st;
     instCreationFailed := instCreationFailed st;
     disconnectReason := disconnectReason st;
     idleTimeout_ := idleTimeout_ st;
     timers := timers st;
     defers := defers st;
     jobs := jobs st;
     cachedOperatorNicksInfo := cachedOperatorNicksInfo st;
     now := now st;
     log := log st |}.

Definition set_lastActionTs (v : Z) (st : State) : State :=
  {| server := server st;
     isBot := isBot st;
     nick := nick st;
     inst := inst st;
     unsafeClient := unsafeClient st;
     chanList := chanList st;
     lastActionTs := v;
     explicitDisconnect := explicitDisconnect st;
     instCreationFailed := instCreationFailed st;
     disconnectReason := disconnectReason st;
     idleTimeout_ := idleTimeout_ st;
     timers := timers st;
     defers := defers st;
     jobs := jobs st;
     cachedOperatorNicksInfo := cachedOperatorNicksInfo st;
     now := now st;
     log := log st |}.

Definition set_explicitDisconnect (v : bool) (st : State) : State :=
  {| server := server st;
     isBot := isBot st;
     nick := nick st;
     inst := inst st;
     unsafeClient := unsafeClient st;
     chanList := chanList st;
     lastActionTs := lastActionTs st;
     explicitDisconnect := v;
     instCreationFailed := instCreationFailed st;
     disconnectReason := disconnectReason st;
     idleTimeout_ := idleTimeout_ st;
     timers := timers st;
     defers := defers st;
     jobs := jobs st;
     cachedOperatorNicksInfo := cachedOperatorNicksInfo st;
     now := now st;
     log := log st |}.

Definition set_instCreationFailed (v : bool) (st : State) : State :=
  {| server := server st;
     isBot := isBot st;
     nick := nick st;
     inst := inst st;
     unsafeClient := unsafeClient st;
     chanList := chanList st;
     lastActionTs := lastActionTs st;
     explicitDisconnect := explicitDisconnect st;
     instCreationFailed := v;
     disconnectReason := disconnectReason st;
     idleTimeout_ := idleTimeout_ st;
     timers := timers st;
     defers := defers st;
     jobs := jobs st;
     cachedOperatorNicksInfo := cachedOperatorNicksInfo st;
     now := now st;
     log := log st |}.

Definition set_disconnectReason (v : option string) (st : State) : State :=
  {| server := server st;
     isBot := isBot st;
     nick := nick st;
     inst := inst st;
     unsafeClient := unsafeClient st;
     chanList := chanList st;
     lastActionTs := lastActionTs st;
     explicitDisconnect := explicitDisconnect st;
     instCreationFailed := instCreationFailed st;
     disconnectReason := v;
     idleTimeout_ := idleTimeout_ st;
     timers := timers st;
     defers := defers st;
     jobs := jobs st;
     cachedOperatorNicksInfo := cachedOperatorNicksInfo st;
     now := now st;
     log := log st |}.

Definition set_idleTimeout (v : option Z) (st : State) : State :=
  {| server := server st;
     isBot := isBot st;
     nick := nick st;
     inst := inst st;
     unsafeClient := unsafeClient st;
     chanList := chanList st;
     lastActionTs := lastActionTs st;
     explicitDisconnect := explicitDisconnect st;
     instCreationFailed := instCreationFailed st;
     disconnectReason := disconnectReason st;
     idleTimeout_ := v;
     timers := timers st;
     defers := defers st;
     jobs := jobs st;
     cachedOperatorNicksInfo := cachedOperatorNicksInfo st;
     now := now st;
     log := log st |}.

Definition set_timers (v : list (Z * timer)) (st : State) : State :=
  {| server := server st;
     isBot := isBot st;
     nick := nick st;
     inst := inst st;
     unsafeClient := unsafeClient st;
     chanList := chanList st;
     lastActionTs := lastActionTs st;
     explicitDisconnect := explicitDisconnect st;
     instCreationFailed := instCreationFailed st;
     disconnectReason := disconnectReason st;
     idleTimeout_ := idleTimeout_ st;
     timers := v;
     defers := defers st;
     jobs := jobs st;
     cachedOperatorNicksInfo := cachedOperatorNicksInfo st;
     now := now st;
     log := log st |}.

Definition set_defers (v : list deferred) (st : State) : State :=
  {| server := server st;
     isBot := isBot st;
     nick := nick st;
     inst := inst st;
     unsafeClient := unsafeClient st;
     chanList := chanList st;
     lastActionTs := lastActionTs st;
     explicitDisconnect := explicitDisconnect st;
     instCreationFailed := instCreationFailed st;
     disconnectReason := disconnectReason st;
     idleTimeout_ := idleTimeout_ st;
     timers := timers st;
     defers := v;
     jobs := jobs st;
     cachedOperatorNicksInfo := cachedOperatorNicksInfo st;
     now := now st;
     log := log st |}.

Definition set_jobs (v : list job) (st : State) : State :=
  {| server := server st;
     isBot := isBot st;
     nick := nick st;
     inst := inst st;
     unsafeClient := unsafeClient st;
     chanList := chanList st;
     lastActionTs := lastActionTs st;
     explicitDisconnect := explicitDisconnect st;
     instCreationFailed := instCreationFailed st;
     disconnectReason := disconnectReason st;
     idleTimeout_ := idleTimeout_ st;
     timers := timers st;
     defers := defers st;
     jobs := v;
     cachedOperatorNicksInfo := cachedOperatorNicksInfo st;
     now := now st;
     log := log st |}.

Definition set_cachedOperatorNicksInfo (v : Cache) (st : State) : State :=
  {| server := server st;
     isBot := isBot st;
     nick := nick st;
     inst := inst st;
     unsafeClient := unsafeClient st;
     chanList := chanList st;
     lastActionTs := lastActionTs st;
     explicitDisconnect := explicitDisconnect st;
     instCreationFailed := instCreationFailed st;
     disconnectReason := disconnectReason st;
     idleTimeout_ := idleTimeout_ st;
     timers := timers st;
     defers := defers st;
     jobs := jobs st;
     cachedOperatorNicksInfo := v;
     now := now st;
     log := log st |}.

Definition set_now (v : Z) (st : State) : State :=
  {| server := server st;
     isBot := isBot st;
     nick := nick st;
     inst := inst st;
     unsafeClient := unsafeClient st;
     chanList := chanList st;
     lastActionTs := lastActionTs st;
     explicitDisconnect := explicitDisconnect st;
     instCreationFailed := instCreationFailed st;
     disconnectReason := disconnectReason st;
     idleTimeout_ := idleTimeout_ st;
     timers := timers st;
     defers := defers st;
     jobs := jobs st;
     cachedOperatorNicksInfo := cachedOperatorNicksInfo st;
     now := v;
     log := log st |}.

Definition set_log (v : list effect) (st : State) : State :=
  {| server := server st;
     isBot := isBot st;
     nick := nick st;
     inst := inst st;
     unsafeClient := unsafeClient st;
     chanList := chanList st;
     lastActionTs := lastActionTs st;
     explicitDisconnect := explicitDisconnect st;
     instCreationFailed := instCreationFailed st;
     disconnectReason := disconnectReason st;
     idleTimeout_ := idleTimeout_ st;
     timers := timers st;
     defers := defers st;
     jobs := jobs st;
     cachedOperatorNicksInfo := cachedOperatorNicksInfo st;
     now := now st;
     log := v |}.

Definition set_c_chans (v : list string) (c : RawClient) : RawClient :=
  {| c_nick := c_nick c;
     c_nicklength := c_nicklength c;
     c_chans := v;
     c_morePowerfulThanAt := c_morePowerfulThanAt c;
     c_nickListeners := c_nickListeners c;
     c_errorListeners := c_errorListeners c;
     c_callbacks := c_callbacks c |}.

Definition set_c_nickListeners (v : list listener) (c : RawClient) : RawClient :=
  {| c_nick := c_nick c;
     c_nicklength := c_nicklength c;
     c_chans := c_chans c;
     c_morePowerfulThanAt := c_morePowerfulThanAt c;
     c_nickListeners := v;
     c_errorListeners := c_errorListeners c;
     c_callbacks := c_callbacks c |}.

Definition set_c_errorListeners (v : list listener) (c : RawClient) : RawClient :=
  {| c_nick := c_nick c;
     c_nicklength := c_nicklength c;
     c_chans := c_chans c;
     c_morePowerfulThanAt := c_morePowerfulThanAt c;
     c_nickListeners := c_nickListeners c;
     c_errorListeners := v;
     c_callbacks := c_callbacks c |}.

Definition set_c_callbacks (v : list callback) (c : RawClient) : RawClient :=
  {| c_nick := c_nick c;
     c_nicklength := c_nicklength c;
     c_chans := c_chans c;
     c_morePowerfulThanAt := c_morePowerfulThanAt c;
     c_nickListeners := c_nickListeners c;
     c_errorListeners := c_errorListeners c;
     c_callbacks := v |}.

(* ================================================================= *)
(** ** Event-loop primitives: effects, deferreds, timers *)

(** [array.push(x)]. *)
Definition push {A : Type} (l : list A) (x : A) : list A := (l ++ [x])%list.

Definition emit (e : effect) (st : State) : State :=
  set_log (push (log st) e) st.

(** [promiseutil.defer()] / [new Promise(...)]: a fresh pending deferred. *)
Definition new_defer (st : State) : nat * State :=
  (List.length (defers st),
   set_defers (push (defers st) {| d_state := None; d_waiters := [] |}) st).

Definition get_defer (d : nat) (st : State) : option deferred :=
  nth_error (defers st) d.

(** [promise.isPending()]. *)
Definition isPending (d : nat) (st : State) : bool :=
  match get_defer d st with
  | Some {| d_state := None |} => true
  | _ => false
  end.

Fixpoint update_nth {A : Type} (n : nat) (f : A -> A) (l : list A) : list A :=
  match l, n with
  | [], _ => []
  | x :: r, O => f x :: r
  | x :: r, S n' => x :: update_nth n' f r
  end.

Definition job_of (o : outcome) (w : waiter) : job := (fst w, snd w, o).

(** [defer.resolve(v)] / [defer.reject(e)]: only the first settlement
    counts; the callbacks waiting on the promise are scheduled. *)
Definition settle (d : nat) (o : outcome) (st : State) : State :=
  match get_defer d st with
  | Some {| d_state := None; d_waiters := ws |} =>
      set_jobs (jobs st ++ map (job_of o) ws)%list
        (set_defers
           (update_nth d (fun _ => {| d_state := Some o; d_waiters := [] |})
                       (defers st)) st)
  | _ => st
  end.

(** [p.then(k1).then(k2)...] ending in resolution of [target]: the chain
    waits while [p] is pending and is scheduled once [p] is settled. *)
Definition then_ (p : promise) (k : list frame) (target : option nat)
           (st : State) : State :=
  match p with
  | Settled o => set_jobs (push (jobs st) (k, target, o)) st
  | Deferred d =>
      match get_defer d st with
      | Some {| d_state := Some o |} => set_jobs (push (jobs st) (k, target, o)) st
      | Some {| d_state := None; d_waiters := ws |} =>
          set_defers
            (update_nth d (fun _ => {| d_state := None;
                                       d_waiters := push ws (k, target) |})
                        (defers st)) st
      | None => st
      end
  end.

Definition setTimeout (t : timer) (delay : Z) (st : State) : State :=
  set_timers (push (timers st) (delay, t)) st.

(** [clearTimeout(id)] for the timer owned by the call with deferred [d]. *)
Definition owned_by (d : nat) (t : Z * timer) : bool :=
  match snd t with
  | TNick d' _ => Nat.eqb d d'
  | TNames d' => Nat.eqb d d'
  | TJoin _ _ _ _ => false
  | TCache _ => false
  end.

Definition clearTimeout (d : nat) (st : State) : State :=
  set_timers (filter (fun t => negb (owned_by d t)) (timers st)) st.

(* ================================================================= *)
(** ** The upstream client object *)

(** The object behind the [unsafeClient] handle, if the handle is set. *)
Definition getClient (st : State) : option RawClient :=
  match unsafeClient st with
  | HClient => option_map client (inst st)
  | HUndefined | HNull => None
  end.

(** Mutation of the client object owned by the connection instance. *)
Definition map_client (f : RawClient -> RawClient) (st : State) : State :=
  set_inst
    (option_map (fun i => {| dead := dead i; client := f (client i) |})
                (inst st)) st.

Definition listener_eqb (a b : listener) : bool :=
  match a, b with
  | LNickTrack, LNickTrack => true
  | LErrorReport, LErrorReport => true
  | LNickChanged d, LNickChanged d' => Nat.eqb d d'
  | LNickFailed d, LNickFailed d' => Nat.eqb d d'
  | LJoinFailed d c, LJoinFailed d' c' => Nat.eqb d d' && String.eqb c c'
  | _, _ => false
  end.

(** [emitter.removeListener(type, l)] removes the most recently added
    registration of [l], if any. *)
Fixpoint remove_listener (l0 : listener) (ls : list listener) : list listener :=
  match ls with
  | [] => []
  | l :: r =>
      if listener_eqb l0 l && negb (existsb (listener_eqb l0) r) then r
      else l :: remove_listener l0 r
  end.

(** Listeners registered with [once] are unregistered before they run. *)
Definition is_once (l : listener) : bool :=
  match l with
  | LNickTrack | LErrorReport => false
  | LNickChanged _ | LNickFailed _ | LJoinFailed _ _ => true
  end.

Definition add_nick_listener (l : listener) : RawClient -> RawClient :=
  fun c => set_c_nickListeners (push (c_nickListeners c) l) c.

Definition add_error_listener (l : listener) : RawClient -> RawClient :=
  fun c => set_c_errorListeners (push (c_errorListeners c) l) c.

Definition remove_nick_listener (l : listener) : RawClient -> RawClient :=
  fun c => set_c_nickListeners (remove_listener l (c_nickListeners c)) c.

Definition remove_error_listener (l : listener) : RawClient -> RawClient :=
  fun c => set_c_errorListeners (remove_listener l (c_errorListeners c)) c.

Definition add_callback (cb : callback) : RawClient -> RawClient :=
  fun c => set_c_callbacks (push (c_callbacks c) cb) c.

(** A command method of the upstream client: the command goes out on the
    socket. *)
Definition send (c : irc_cmd) (st : State) : State := emit (Wire c) st.

(** The [TypeError] of a method call through an unset handle; its text
    names what the handle holds.  (A set handle comes with its client, so
    the third case does not arise.) *)
Definition null_client (prop : string) (st : State) : error :=
  TypeError ("Cannot read property '" ++ prop ++ "' of "
             ++ match unsafeClient st with
                | HUndefined => "undefined"
                | HNull | HClient => "null"
                end).

Definition resolved : promise := Settled (Resolved VUndefined).

(* ================================================================= *)
(** ** Channel tracking, liveness and disconnection *)

(** [inChannel(channel)]. *)
Definition inChannel (channel : string) (st : State) : bool :=
  includes channel (chanList st).

(** [chanList.splice(chanList.indexOf(channel), 1)]. *)
Fixpoint remove_first (x : string) (l : list string) : list string :=
  match l with
  | [] => []
  | y :: r => if String.eqb x y then r else y :: remove_first x r
  end.

Definition removeChannel (channel : string) (st : State) : State :=
  if includes channel (chanList st)
  then set_chanList (remove_first channel (chanList st)) st
  else st.

Definition addChannel (channel : string) (st : State) : State :=
  if includes channel (chanList st) then st (* already added *)
  else set_chanList (push (chanList st) channel) st.

(** [isDead()]. *)
Definition isDead (st : State) : bool :=
  instCreationFailed st
  || match inst st with Some i => dead i | None => false end.

(** The [onDisconnect] slot installed by [_onConnectionCreated]. *)
Definition onDisconnect (reason : string) (st : State) : State :=
  let st := set_disconnectReason (Some reason) st in
  let st := if String.eqb reason "banned"
            then set_explicitDisconnect true st else st in
  let st := emit (Emit ClientDisconnected) st in
  let st := emit (Metadata ("Your connection to the IRC network '"
                            ++ domain (server st) ++ "' has been lost. ")
                           false) st in
  set_idleTimeout None st.

(** Modelled from the spec: [ConnectionInstance.disconnect(reason)], whose
    source is not part of this development.  The spec gives it as
    idempotent and moving the instance to [dead = true], its
    [onDisconnect] slot as invoked at most once, and [Disconnect] and
    [Kill] as cancelling the idle timer, which only that slot does: so a
    live instance becomes dead, the QUIT it sends is recorded on the wire,
    the slot runs with the reason, and the returned promise is taken as
    fulfilled. *)
Definition inst_disconnect (reason : string) (st : State) : State * promise :=
  match inst st with
  | Some i =>
      if dead i then (st, resolved)
      else (onDisconnect reason
              (send (QUIT reason)
                 (set_inst (Some {| dead := true; client := client i |}) st)),
            resolved)
  | None => (st, resolved)
  end.

(** [disconnect(reason)]. *)
Definition disconnect (reason : string) (st : State) : State * promise :=
  let st := set_explicitDisconnect true st in
  match inst st with
  | None => (st, resolved)
  | Some i => if dead i then (st, resolved) else inst_disconnect reason st
  end.

(** [kill(reason)]. *)
Definition kill (reason : option string) (st : State) : State * promise :=
  let st := set_unsafeClient HNull st in
  disconnect (or_default reason "Bridged client killed") st.

(** The body of the idle timer armed by [_keepAlive]; [idleTimeout] is the
    value its closure captured. *)
Definition onIdleTimeout (idleTimeout : Z) (st : State) : State :=
  if shouldSyncMembershipToIrc (server st) "initial" then st
  else if isBot st then st
  else fst (disconnect
              ("Idle timeout reached: " ++ string_of_Z idleTimeout ++ "s") st).

(** [_keepAlive()]: an armed timer is cleared and a new one armed for
    [1000 * idleTimeout] ms. *)
Definition keepAlive (st : State) : State :=
  let st := set_lastActionTs (now st) st in
  let idleTimeout := getIdleTimeout (server st) in
  if idleTimeout >? 0 then set_idleTimeout (Some idleTimeout) st else st.

(* ================================================================= *)
(** ** Joining: [_joinChannel] and its closures *)

Definition is_channel_prefix (c : ascii) : bool :=
  Ascii.eqb c "#" || Ascii.eqb c "!" || Ascii.eqb c "&" || Ascii.eqb c "+".

(** [/[#!&+]/.test(channel)]: the pattern has no anchor, so it searches
    the whole string. *)
Fixpoint test_channel_regex (s : string) : bool :=
  match s with
  | EmptyString => false
  | String c r => is_channel_prefix c || test_channel_regex r
  end.

Definition join_failCodes : list string :=
  ["err_nosuchchannel"; "err_toomanychannels"; "err_channelisfull";
   "err_inviteonlychan"; "err_bannedfromchan"; "err_badchannelkey";
   "err_needreggednick"].

(** [_joinChannel(channel, key, attemptCount)]. *)
Definition joinChannel_ (channel : string) (key : option string)
           (attemptCount : option Z) (st : State) : State * promise :=
  let attemptCount :=
    match attemptCount with
    | Some 0 | None => 1
    | Some a => a
    end in
  match getClient st with
  | None =>
      (* we may be trying to join before we've connected, so check and wait *)
      if isPending connectDefer st then
        let (t, st) := new_defer st in
        (then_ (Deferred connectDefer)
               [KJoin channel key (Some attemptCount)] (Some t) st,
         Deferred t)
      else (st, Settled (Rejected (Error "No client")))
  | Some c =>
      if includes channel (c_chans c) then
        (st, Settled (Resolved (VRoom channel)))
      else if negb (test_channel_regex channel) then
        (* Private room instead of channel *)
        (st, Settled (Resolved (VRoom channel)))
      else if isExcludedChannel (server st) channel then
        (st, Settled (Rejected
                        (Error (channel ++ " is a do-not-track channel."))))
      else
        let (d, st) := new_defer st in
        let st := addChannel channel st in
        let st := map_client (add_error_listener (LJoinFailed d channel)) st in
        let st := setTimeout (TJoin d channel key attemptCount)
                             JOIN_TIMEOUT_MS st in
        let st := send (JOIN (channel ++ (if truthy key
                                          then " " ++ or_default key ""
                                          else ""))) st in
        let st := map_client (add_callback (CbJoin d channel)) st in
        (st, Deferred d)
  end.

(** The join callback: [() => { client.removeListener("error", failFn);
    defer.resolve(new IrcRoom(server, channel)) }]. *)
Definition onJoined (d : nat) (channel : string) (st : State) : State :=
  let st := map_client (remove_error_listener (LJoinFailed d channel)) st in
  settle d (Resolved (VRoom channel)) st.

(** [failFn]. *)
Definition failFn (d : nat) (channel : string) (err : option irc_error)
           (st : State) : State :=
  match err with
  | None => st
  | Some {| args := None |} => st
  | Some {| command := cmd; args := Some a |} =>
      match cmd with
      | Some cmd =>
          if includes cmd join_failCodes && includes channel a then
            let st := map_client
                        (remove_error_listener (LJoinFailed d channel)) st in
            let st := settle d (Rejected (Error cmd)) st in
            let st := emit (Emit (JoinError channel cmd)) st in
            emit (Metadata ("Could not join " ++ channel ++ " on '"
                            ++ domain (server st) ++ "': " ++ cmd) true) st
          else st
      | None => st
      end
  end.

(** The body of the 15 s timer armed by [_joinChannel]. *)
Definition onJoinTimeout (d : nat) (channel : string) (key : option string)
           (attemptCount : Z) (st : State) : State :=
  match getClient st with
  | None => st (* Could not try to join: no client *)
  | Some c =>
      (* promise isn't resolved yet and we still want to join this channel *)
      if isPending d st && includes channel (chanList st) then
        if includes channel (c_chans c) then
          (* we're joined *)
          settle d (Resolved (VRoom channel)) st
        else if attemptCount >=? 5 then
          settle d (Rejected (Error ("Failed to join " ++ channel
                                     ++ " after multiple tries"))) st
        else
          (* try joining again. *)
          let (st, p) := joinChannel_ channel key (Some (attemptCount + 1)) st in
          then_ p [] (Some d) st
      else st
  end.

(* ================================================================= *)
(** ** Leaving, kicking, changing nick *)

(** [_leaveChannel(channel, reason)]. *)
Definition leaveChannel_ (channel : string) (reason : option string)
           (st : State) : State * result :=
  let reason := or_default reason "User left" in
  match inst st with
  | None => (st, Ret resolved) (* we were never connected to the network. *)
  | Some i =>
      if dead i then (st, Ret resolved)
      else if negb (starts_with "#" channel) then (st, Ret resolved) (* PM room *)
      else if negb (inChannel channel st) then
        (st, Ret resolved) (* we were never joined to it. *)
      else
        let (d, st) := new_defer st in
        let st := removeChannel channel st in
        match getClient st with
        | None => (st, Thrown (null_client "part" st))
        | Some _ =>
            let st := send (PART channel reason) st in
            let st := map_client (add_callback (CbPart d)) st in
            (st, Ret (Deferred d))
        end
  end.

(** [kick(nick, channel, reason)]. *)
Definition kick (knick channel : string) (reason : option string)
           (st : State) : State * result :=
  let reason := or_default reason "User kicked" in
  match inst st with
  | None => (st, Ret resolved)
  | Some i =>
      if dead i then (st, Ret resolved)
      else
        match getClient st with
        | None => (st, Thrown (null_client "chans" st))
        | Some c =>
            if negb (includes channel (c_chans c)) then (st, Ret resolved)
            else if negb (starts_with "#" channel) then (st, Ret resolved)
            else (send (KICK channel knick reason) st, Ret resolved)
        end
  end.

Definition nick_failCodes : list string :=
  ["err_banonchan"; "err_nickcollision"; "err_nicknameinuse";
   "err_erroneusnickname"; "err_nonicknamegiven"; "err_eventnickchange";
   "err_nicktoofast"; "err_unavailresource"].

(** [changeNick(newNick, throwOnInvalid)]. *)
Definition changeNick (newNick : string) (throwOnInvalid : bool)
           (st : State) : State * promise :=
  match getValidNick (option_map c_nicklength (getClient st))
                     newNick throwOnInvalid with
  | Throw err => (st, Settled (Rejected err))
  | Ok validNick =>
      if String.eqb validNick (nick st) then
        (st, Settled (Resolved
                        (VString ("Your nick is already '" ++ validNick ++ "'."))))
      else
        match getClient st with
        | None =>
            (st, Settled (Rejected
                            (Error "You are not connected to the network.")))
        | Some _ =>
            let (d, st) := new_defer st in
            let st := setTimeout (TNick d validNick) NICK_DELAY_TIMER_MS st in
            let st := map_client (add_nick_listener (LNickChanged d)) st in
            let st := map_client (add_error_listener (LNickFailed d)) st in
            let st := send (NICK validNick) st in
            (st, Deferred d)
        end
  end.

(** A listener or callback either returns or throws; a throw leaves the
    state as the statements before it made it. *)
Definition handled : Type := State * option error.

(** [nickListener]. *)
Definition nickListener (d : nat) (old n : string) (st : State) : handled :=
  let st := clearTimeout d st in
  match getClient st with
  | None => (st, Some (null_client "removeListener" st))
  | Some _ =>
      let st := map_client (remove_error_listener (LNickFailed d)) st in
      (settle d (Resolved (VString ("Nick changed from '" ++ old ++ "' to '"
                                    ++ n ++ "'."))) st, None)
  end.

(** [nickErrListener]. *)
Definition nickErrListener (d : nat) (err : option irc_error)
           (st : State) : handled :=
  match err with
  | None => (st, None)
  | Some e =>
      if negb (truthy (command e)) then (st, None)
      else
        let cmd := or_default (command e) "" in
        if includes cmd nick_failCodes then
          let st := clearTimeout d st in
          match getClient st with
          | None => (st, Some (null_client "removeListener" st))
          | Some _ =>
              let st := map_client (remove_nick_listener (LNickChanged d)) st in
              (settle d (Rejected (Error ("Failed to change nick: " ++ cmd))) st,
               None)
          end
        else (st, None)
  end.

(** The body of the 10 s timer armed by [changeNick]. *)
Definition onNickTimeout (d : nat) (st : State) : State :=
  (* may have d/ced between sending nick change and now so recheck *)
  let st := match getClient st with
            | Some _ =>
                map_client (remove_error_listener (LNickFailed d))
                  (map_client (remove_nick_listener (LNickChanged d)) st)
            | None => st
            end in
  settle d (Rejected (Error "Timed out waiting for a response to change nick."))
         st.

(* ================================================================= *)
(** ** whois and names *)

Definition dquote : string := String "034" EmptyString.
Definition newline : string := String "010" EmptyString.

Definition hex_digit (n : N) : string :=
  String (ascii_of_N (if (n <? 10)%N then 48 + n else 87 + n)) EmptyString.

(** [JSON.stringify] on a string. *)
Fixpoint json_escape (s : string) : string :=
  match s with
  | EmptyString => EmptyString
  | String c r =>
      let n := N_of_ascii c in
      (if Ascii.eqb c "034" then "\" ++ dquote
       else if Ascii.eqb c "\" then "\\"
       else if Ascii.eqb c "008" then "\b"
       else if Ascii.eqb c "009" then "\t"
       else if Ascii.eqb c "010" then "\n"
       else if Ascii.eqb c "012" then "\f"
       else if Ascii.eqb c "013" then "\r"
       else if (n <? 32)%N then "\u00" ++ hex_digit (n / 16) ++ hex_digit (n mod 16)
       else String c EmptyString) ++ json_escape r
  end.

(** [JSON.stringify] on an array of strings. *)
Definition json_strings (l : list string) : string :=
  "[" ++ String.concat ","
           (map (fun s => dquote ++ json_escape s ++ dquote) l) ++ "]".

(** [whois(nick)]. *)
Definition whois (wnick : string) (st : State) : State * promise :=
  match getClient st with
  | None => (st, Settled (Rejected (null_client "whois" st)))
  | Some _ =>
      let (d, st) := new_defer st in
      let st := send (WHOIS wnick) st in
      (map_client (add_callback (CbWhois d wnick)) st, Deferred d)
  end.

Definition indent12 : string := "            ".

(** The whois callback. *)
Definition onWhois (d : nat) (wnick : string) (w : whois_reply)
           (st : State) : State :=
  if negb (truthy (w_user w)) then
    settle d (Rejected (Error "Cannot find nick on whois.")) st
  else
    let idle := if truthy (w_idle w)
                then or_default (w_idle w) "" ++ " seconds idle" else "" in
    let chans := match w_channels w with
                 | [] => ""
                 | _ => "On channels: " ++ json_strings (w_channels w)
                 end in
    let info := or_default (w_user w) "" ++ "@" ++ w_host w ++ newline
                ++ indent12 ++ "Real name: " ++ w_realname w ++ newline
                ++ indent12 ++ chans ++ newline
                ++ indent12 ++ idle ++ newline
                ++ indent12 in
    settle d (Resolved (VWhois wnick ("Whois info for '" ++ wnick ++ "': "
                                      ++ info))) st.

(** [getNicks(channel)]: the promise carries a 5 s [timeout]. *)
Definition getNicks (channel : string) (st : State) : State * promise :=
  match getClient st with
  | None => (st, Settled (Rejected (null_client "names" st)))
  | Some _ =>
      let (d, st) := new_defer st in
      let st := send (NAMES channel) st in
      let st := map_client (add_callback (CbNames d)) st in
      (setTimeout (TNames d) 5000 st, Deferred d)
  end.

(** The names callback. *)
Definition onNames (d : nat) (channelName : string)
           (names : list (string * string)) (st : State) : State :=
  let st := settle d (Resolved (VNicks {| ni_channel := channelName;
                                          ni_names := names;
                                          ni_operatorNicks := None |})) st in
  clearTimeout d st.

Definition onNamesTimeout (d : nat) (st : State) : State :=
  settle d (Rejected TimeoutError) st.

(* ================================================================= *)
(** ** Sending and operator queries *)

Record Action := {
  a_type : string;
  a_text : string;
  a_ts : option Z
}.

(** [_setTopic(room, topic)]; [channel] is [room.channel]. *)
Definition setTopic (channel topic : string) (st : State) : State * promise :=
  let (st, p) := joinChannel_ channel None None st in
  let (t, st) := new_defer st in
  (then_ p [KSetTopic channel topic] (Some t) st, Deferred t).

(** [_sendMessage(room, msgType, text, expiryTs)]. *)
Definition sendMessage (channel msgType text : string) (expiryTs : Z)
           (st : State) : State * promise :=
  let (d, st) := new_defer st in
  (then_ (Deferred connectDefer)
         [KJoin channel None None; KSendDispatch msgType channel text expiryTs]
         (Some d) st,
   Deferred d).

(** [sendAction(room, action)]. *)
Definition sendAction (channel : string) (action : Action)
           (st : State) : State * promise :=
  let st := keepAlive st in
  let expiryTs :=
    match a_ts action with
    | Some ts =>
        if negb (ts =? 0) && negb (getExpiryTimeSeconds (server st) =? 0)
        then ts + getExpiryTimeSeconds (server st) * 1000
        else 0
    | None => 0
    end in
  if String.eqb (a_type action) "message" then
    sendMessage channel "message" (a_text action) expiryTs st
  else if String.eqb (a_type action) "notice" then
    sendMessage channel "notice" (a_text action) expiryTs st
  else if String.eqb (a_type action) "emote" then
    sendMessage channel "action" (a_text action) expiryTs st
  else if String.eqb (a_type action) "topic" then
    setTopic channel (a_text action) st
  else
    (st, Settled (Rejected (Error ("Unknown action type: " ++ a_type action)))).

(** A property value of the [opts] argument of [getOperators]. *)
Inductive jsval :=
| JUndefined
| JNull
| JString (s : string)
| JInteger (z : Z)
| JOther.           (* non-integer numbers, booleans, objects *)

(** The [opts] argument itself. *)
Inductive opts_arg :=
| OUndefined
| ONull
| OObject (key cacheDurationMs : jsval).

(** The string-keyed members of [Object.prototype] besides the
    [__proto__] accessor. *)
Definition object_prototype_keys : list string :=
  ["constructor"; "__defineGetter__"; "__defineSetter__"; "hasOwnProperty";
   "__lookupGetter__"; "__lookupSetter__"; "isPrototypeOf";
   "propertyIsEnumerable"; "toString"; "valueOf"; "toLocaleString"].

(** The properties of the info object [getOperators] caches: those
    [getNicks] resolves with, and [operatorNicks]. *)
Definition nicks_info_keys : list string :=
  ["server"; "channel"; "nicks"; "names"; "operatorNicks"].

Fixpoint own_get (channel : string) (m : list (string * NicksInfo))
  : option NicksInfo :=
  match m with
  | [] => None
  | (k, v) :: r => if String.eqb channel k then Some v else own_get channel r
  end.

Fixpoint own_delete (channel : string) (m : list (string * NicksInfo))
  : list (string * NicksInfo) :=
  match m with
  | [] => []
  | (k, v) :: r =>
      if String.eqb channel k then own_delete channel r
      else (k, v) :: own_delete channel r
  end.

(** What [cache[channel]] finds on the prototype chain when the cache has
    no own property [channel] ([channel] is not [__proto__]). *)
Definition cache_inherited (channel : string) (c : Cache) : option value :=
  if match prototype c with
     | Some _ => includes channel nicks_info_keys
     | None => false
     end
     || includes channel object_prototype_keys
  then Some (VInherited (prototype c) channel)
  else None.

(** [cache[channel]]; [None] is [undefined].  The key [__proto__] reads
    the prototype of the cache. *)
Definition cache_get (channel : string) (c : Cache) : option value :=
  if String.eqb channel "__proto__" then
    Some match prototype c with
         | Some info => VNicks info
         | None => VInherited None channel
         end
  else
    match own_get channel (own_entries c) with
    | Some info => Some (VNicks info)
    | None => cache_inherited channel c
    end.

(** [delete cache[channel]]: only an own property is removed, and
    [__proto__] is never one. *)
Definition cache_delete (channel : string) (c : Cache) : Cache :=
  if String.eqb channel "__proto__" then c
  else {| own_entries := own_delete channel (own_entries c);
          prototype := prototype c |}.

(** [cache[channel] = info]: an own property, except that the key
    [__proto__] sets the prototype of the cache. *)
Definition cache_set (channel : string) (info : NicksInfo) (c : Cache) : Cache :=
  if String.eqb channel "__proto__" then
    {| own_entries := own_entries c; prototype := Some info |}
  else
    {| own_entries := (channel, info) :: own_delete channel (own_entries c);
       prototype := prototype c |}.

(** [getOperators(channel, opts)]. *)
Definition getOperators (channel : string) (opts : opts_arg)
           (st : State) : State * result :=
  match opts with
  | OUndefined => (st, Thrown (TypeError "Cannot read property 'key' of undefined"))
  | ONull => (st, Thrown (TypeError "Cannot read property 'key' of null"))
  | OObject key cacheDurationMs =>
      let key_ok := match key with
                    | JUndefined => Some None
                    | JString s => Some (Some s)
                    | _ => None
                    end in
      match key_ok with
      | None => (st, Thrown (Error "key must be a string"))
      | Some key =>
          let cache_ok :=
            match cacheDurationMs with
            | JUndefined => Some None
            | JInteger z => if z >? 0 then Some (Some z) else None
            | _ => None
            end in
          match cache_ok with
          | None => (st, Thrown (Error "cacheDurationMs must be a positive integer"))
          | Some cacheMs =>
              let cached :=
                match cacheMs with
                | Some _ => cache_get channel (cachedOperatorNicksInfo st)
                | None => None
                end in
              match cached with
              | Some v => (st, Ret (Settled (Resolved v)))
              | None =>
                  let (st, p) := joinChannel_ channel key None st in
                  let (t, st) := new_defer st in
                  (then_ p [KGetNicks channel; KLeave channel;
                            KOperators channel cacheMs] (Some t) st,
                   Ret (Deferred t))
              end
          end
      end
  end.

(** The loop over one nick's prefix string in the operator filter. *)
Fixpoint is_operator (cli : option RawClient) (prefixes : string) : res bool :=
  match prefixes with
  | EmptyString => Ok false
  | String c r =>
      if Ascii.eqb c "@" then Ok true
      else match cli with
           | None => Throw (Error "Missing client")
           | Some c' =>
               if c_morePowerfulThanAt c' (String c EmptyString) then Ok true
               else is_operator cli r
           end
  end.

(** [names[nick]]. *)
Fixpoint names_get (n : string) (names : list (string * string)) : string :=
  match names with
  | [] => EmptyString
  | (k, v) :: r => if String.eqb n k then v else names_get n r
  end.

(** [nicks.filter(...)] with the predicate above. *)
Fixpoint filter_operators (cli : option RawClient)
         (names : list (string * string)) (nicks : list string)
  : res (list string) :=
  match nicks with
  | [] => Ok []
  | n :: r =>
      match is_operator cli (names_get n names) with
      | Throw e => Throw e
      | Ok b =>
          match filter_operators cli names r with
          | Throw e => Throw e
          | Ok l => Ok (if b then n :: l else l)
          end
      end
  end.

(* ================================================================= *)
(** ** Promise continuations *)

(** What a [then] callback hands to the rest of its chain: a promise (with
    callbacks attached to it inside the frame, if any), or an exception
    that escapes a [done] handler. *)
Inductive frame_result :=
| FrThen (p : promise) (pre : list frame)
| FrUncaught (e : error).

Definition rejected (e : error) : frame_result := FrThen (Settled (Rejected e)) [].

Definition with_operators (info : NicksInfo) (ops : list string) : NicksInfo :=
  {| ni_channel := ni_channel info;
     ni_names := ni_names info;
     ni_operatorNicks := Some ops |}.

(** The [done] handler of [_sendMessage] after a successful join. *)
Definition sendDispatch (msgType channel text : string) (expiryTs : Z)
           (st : State) : State * frame_result :=
  (* re-check timestamp to see if we should send it now *)
  if negb (expiryTs =? 0) && (now st >? expiryTs) then (st, FrThen resolved [])
  else
    let via (prop : string) (c : irc_cmd) :=
      match getClient st with
      | None => (st, FrUncaught (null_client prop st))
      | Some _ => (send c st, FrThen resolved [])
      end in
    if String.eqb msgType "action" then via "action" (ACTION channel text)
    else if String.eqb msgType "notice" then via "notice" (NOTICE channel text)
    else if String.eqb msgType "message" then via "say" (PRIVMSG channel text)
    else (st, FrThen resolved []).

(** The last [then] of [getOperators]. *)
Definition computeOperators (channel : string) (cacheDurationMs : option Z)
           (v : value) (st : State) : State * frame_result :=
  match v with
  | VNicks info =>
      match filter_operators (getClient st) (ni_names info) (ni_nicks info) with
      | Throw e => (st, rejected e)
      | Ok ops =>
          let info := with_operators info ops in
          let st :=
            match cacheDurationMs with
            | Some ms =>
                setTimeout (TCache channel) ms
                  (set_cachedOperatorNicksInfo
                     (cache_set channel info (cachedOperatorNicksInfo st)) st)
            | None => st
            end in
          (st, FrThen (Settled (Resolved (VNicks info))) [])
      end
  | _ => (st, rejected (TypeError "Cannot read property 'filter' of undefined"))
  end.

(** One callback of a chain, applied to the outcome of the promise it was
    attached to.  Only [_sendMessage] installs a rejection handler (it
    rejects its deferred with the same error); every other callback lets
    a rejection pass. *)
Definition exec_frame (f : frame) (o : outcome) (st : State)
  : State * frame_result :=
  match o with
  | Rejected e => (st, rejected e)
  | Resolved v =>
      match f with
      | KJoin channel key attemptCount =>
          let (st, p) := joinChannel_ channel key attemptCount st in
          (st, FrThen p [])
      | KSetTopic channel topic =>
          match getClient st with
          | None => (st, rejected (null_client "send" st))
          | Some _ => (send (TOPIC channel topic) st, FrThen resolved [])
          end
      | KSendDispatch msgType channel text expiryTs =>
          sendDispatch msgType channel text expiryTs st
      | KGetNicks channel =>
          let (st, p) := getNicks channel st in (st, FrThen p [])
      | KLeave channel =>
          match leaveChannel_ channel None st with
          | (st, Ret p) => (st, FrThen p [KConst v])
          | (st, Thrown e) => (st, rejected e)
          end
      | KConst v' => (st, FrThen (Settled (Resolved v')) [])
      | KOperators channel cacheDurationMs =>
          computeOperators channel cacheDurationMs v st
      end
  end.

(** Running one scheduled chain: its first callback runs and the rest of
    the chain is attached to what it returned; an empty chain settles the
    target. *)
Definition run_job (j : job) (st : State) : State :=
  let '(k, target, o) := j in
  match k with
  | [] =>
      match target with
      | Some t => settle t o st
      | None => st
      end
  | f :: k' =>
      match exec_frame f o st with
      | (st, FrThen p pre) => then_ p (pre ++ k')%list target st
      | (st, FrUncaught e) => emit (Uncaught e) st
      end
  end.

(* ================================================================= *)
(** ** Listeners and event emission *)

(** The permanent "error" listener installed by [connect]. *)
Definition errorReport (err : option irc_error) (st : State) : State :=
  match err, inst st with
  | Some e, Some i =>
      if negb (truthy (command e)) || dead i then st
      else
        let cmd := or_default (command e) "" in
        emit (Metadata ("Received an error on " ++ domain (server st) ++ ": "
                        ++ cmd ++ newline
                        ++ match args e with
                           | Some a => json_strings a
                           | None => "undefined"
                           end)
                       (includes cmd ["err_nononreg"])) st
  | _, _ => st
  end.

(** The permanent "nick" listener installed by [connect]. *)
Definition nickTrack (old newNick : string) (st : State) : State :=
  if String.eqb old (nick st)
  then emit (Emit (NickChange old newNick)) (set_nick newNick st)
  else st.

Definition run_nick_listener (old n : string) (l : listener) (st : State)
  : handled :=
  match l with
  | LNickTrack => (nickTrack old n st, None)
  | LNickChanged d => nickListener d old n st
  | _ => (st, None)
  end.

Definition run_error_listener (err : option irc_error) (l : listener)
           (st : State) : handled :=
  match l with
  | LErrorReport => (errorReport err st, None)
  | LNickFailed d => nickErrListener d err st
  | LJoinFailed d channel => (failFn d channel err st, None)
  | _ => (st, None)
  end.

(** [emitter.emit(type, ...)]: the listeners registered when the event is
    emitted run in registration order; an exception in one of them ends
    the emission. *)
Fixpoint dispatch (run : listener -> State -> handled)
         (unregister : listener -> RawClient -> RawClient)
         (ls : list listener) (st : State) : State :=
  match ls with
  | [] => st
  | l :: r =>
      let st := if is_once l then map_client (unregister l) st else st in
      match run l st with
      | (st, None) => dispatch run unregister r st
      | (st, Some e) => emit (Uncaught e) st
      end
  end.

Definition emit_nick (old n : string) (st : State) : State :=
  match inst st with
  | Some i => dispatch (run_nick_listener old n) remove_nick_listener
                       (c_nickListeners (client i)) st
  | None => st
  end.

Definition emit_error (err : option irc_error) (st : State) : State :=
  match inst st with
  | Some i => dispatch (run_error_listener err) remove_error_listener
                       (c_errorListeners (client i)) st
  | None => st
  end.

(* ================================================================= *)
(** ** Construction and connection *)

(** [new BridgedClient(...)]; [desiredNick] is
    [clientConfig.getDesiredNick() || server.getNick(userId, displayName)]
    and [t] the time of construction. *)
Definition BridgedClient (srv : IrcServer) (desiredNick : string)
           (bot : bool) (t : Z) : State :=
  {| server := srv;
     isBot := bot;
     nick := match getValidNick None desiredNick false with
             | Ok n => n
             | Throw _ => desiredNick
             end;
     inst := None;
     unsafeClient := HUndefined;
     chanList := [];
     lastActionTs := t;
     explicitDisconnect := false;
     instCreationFailed := false;
     disconnectReason := None;
     idleTimeout_ := None;
     timers := [];
     defers := [{| d_state := None; d_waiters := [] |}];
     jobs := [];
     cachedOperatorNicksInfo := {| own_entries := []; prototype := None |};
     now := t;
     log := [] |}.

(** [connect()] up to the creation of the connection instance: identity
    and address generation are left to the collaborators; the status text
    goes to the event broker. *)
Definition connect_start (st : State) : State :=
  emit (Metadata ("Connecting to the IRC network '" ++ domain (server st)
                  ++ "' as " ++ nick st ++ "...") false) st.

(** [connect()] after [ConnectionInstance.create] resolved with an
    instance whose client is [c]. *)
Definition connect_created (c : RawClient) (st : State) : State :=
  let st := set_inst (Some {| dead := false; client := c |}) st in
  let st := set_unsafeClient HClient st in
  let st := emit (Emit ClientConnected) st in
  (* we may have been assigned a different nick, so update it from source *)
  let st := set_nick (c_nick c) st in
  let st := settle connectDefer (Resolved VUndefined) st in
  let st := keepAlive st in
  let connectText := "You've been connected to the IRC network '"
                     ++ domain (server st) ++ "' as " ++ nick st ++ "." in
  let userModes := getUserModes (server st) in
  let set_modes := negb (String.eqb userModes "") && negb (isBot st) in
  let st := if set_modes then send (MODE ("+" ++ userModes)) st else st in
  let connectText :=
    if set_modes
    then connectText ++ " User modes +" ++ userModes ++ " have been set."
    else connectText in
  let st := emit (Metadata connectText false) st in
  let st := map_client (add_nick_listener LNickTrack) st in
  map_client (add_error_listener LErrorReport) st.

(** [connect()] when any step before that threw. *)
Definition connect_failed (st : State) : State :=
  set_instCreationFailed true st.

(** Modelled from the spec: an upstream disconnect.  A live connection
    instance (not part of this development) becomes dead and invokes its
    [onDisconnect] slot with the reason; the slot is invoked at most once,
    so an instance that is dead already does nothing. *)
Definition upstream_disconnect (reason : string) (st : State) : State :=
  match inst st with
  | Some i =>
      if dead i then st
      else onDisconnect reason
             (set_inst (Some {| dead := true; client := client i |}) st)
  | None => st
  end.

(* ================================================================= *)
(** ** The event loop *)

(** Calls of the public methods. *)
Inductive call :=
| JoinChannel (channel : string) (key : option string)
| LeaveChannel (channel : string) (reason : option string)
| ChangeNick (newNick : string) (throwOnInvalid : bool)
| SendAction (channel : string) (action : Action)
| Kick (knick channel : string) (reason : option string)
| Whois (wnick : string)
| GetNicks (channel : string)
| GetOperators (channel : string) (opts : opts_arg)
| Disconnect (reason : string)
| Kill (reason : option string).

Definition ret (r : State * promise) : State * result := (fst r, Ret (snd r)).

Definition invoke (c : call) (st : State) : State * result :=
  match c with
  | JoinChannel channel key => ret (joinChannel_ channel key None st)
  | LeaveChannel channel reason => leaveChannel_ channel reason st
  | ChangeNick newNick throwOnInvalid => ret (changeNick newNick throwOnInvalid st)
  | SendAction channel action => ret (sendAction channel action st)
  | Kick knick channel reason => kick knick channel reason st
  | Whois wnick => ret (whois wnick st)
  | GetNicks channel => ret (getNicks channel st)
  | GetOperators channel opts => getOperators channel opts st
  | Disconnect reason => ret (disconnect reason st)
  | Kill reason => ret (kill reason st)
  end.

(** Arguments the upstream client passes to a callback. *)
Inductive cb_args :=
| NoArgs
| WhoisArgs (w : whois_reply)
| NamesArgs (channelName : string) (names : list (string * string)).

Fixpoint remove_nth {A : Type} (n : nat) (l : list A) : list A :=
  match l, n with
  | [], _ => []
  | _ :: r, O => r
  | x :: r, S n' => x :: remove_nth n' r
  end.

(** The [i]-th armed timer fires. *)
Definition fire_timer (i : nat) (st : State) : State :=
  match nth_error (timers st) i with
  | None => st
  | Some (_, t) =>
      let st := set_timers (remove_nth i (timers st)) st in
      match t with
      | TJoin d channel key attemptCount =>
          onJoinTimeout d channel key attemptCount st
      | TNick d _ => onNickTimeout d st
      | TNames d => onNamesTimeout d st
      | TCache channel =>
          (* Invalidate the cache *)
          set_cachedOperatorNicksInfo
            (cache_delete channel (cachedOperatorNicksInfo st)) st
      end
  end.

(** The idle timer fires. *)
Definition fire_idle (st : State) : State :=
  match idleTimeout_ st with
  | Some idleTimeout => onIdleTimeout idleTimeout (set_idleTimeout None st)
  | None => st
  end.

(** The upstream client invokes the [i]-th callback it holds; a callback
    is invoked once. *)
Definition fire_callback (i : nat) (a : cb_args) (st : State) : State :=
  match inst st with
  | None => st
  | Some conn =>
      match nth_error (c_callbacks (client conn)) i with
      | None => st
      | Some cb =>
          let st := map_client
                      (fun c => set_c_callbacks (remove_nth i (c_callbacks c)) c)
                      st in
          match cb, a with
          | CbJoin d channel, NoArgs => onJoined d channel st
          | CbPart d, NoArgs => settle d (Resolved VUndefined) st
          | CbWhois d wnick, WhoisArgs w => onWhois d wnick w st
          | CbNames d, NamesArgs channelName names => onNames d channelName names st
          | _, _ => st
          end
      end
  end.

(** The next scheduled promise callback runs. *)
Definition run_next_job (st : State) : State :=
  match jobs st with
  | [] => st
  | j :: r => run_job j (set_jobs r st)
  end.

(** Everything that can happen to a session. *)
Inductive event :=
| ECall (c : call)
| EJob
| ETimer (i : nat)
| EIdle
| ENick (old n : string)
| EError (err : option irc_error)
| ECallback (i : nat) (a : cb_args)
| EChans (chans : list string)          (* the upstream channel table changes *)
| EConnectStart
| EConnectCreated (c : RawClient)
| EConnectFailed
| EDisconnected (reason : string)
| ETick (dt : Z).                        (* time passes *)

Definition step (ev : event) (st : State) : State :=
  match ev with
  | ECall c => fst (invoke c st)
  | EJob => run_next_job st
  | ETimer i => fire_timer i st
  | EIdle => fire_idle st
  | ENick old n => emit_nick old n st
  | EError err => emit_error err st
  | ECallback i a => fire_callback i a st
  | EChans chans => map_client (set_c_chans chans) st
  | EConnectStart => connect_start st
  | EConnectCreated c => connect_created c st
  | EConnectFailed => connect_failed st
  | EDisconnected reason => upstream_disconnect reason st
  | ETick dt => set_now (now st + Z.max 0 dt) st
  end.

Definition run (evs : list event) (st : State) : State :=
  fold_left (fun s ev => step ev s) evs st.

(** The commands put on the wire so far. *)
Fixpoint wire (l : list effect) : list irc_cmd :=
  match l with
  | [] => []
  | Wire c :: r => c :: wire r
  | _ :: r => wire r
  end.

(** The settled state of a promise. *)
Definition outcome_of (p : promise) (st : State) : option outcome :=
  match p with
  | Settled o => Some o
  | Deferred d =>
      match get_defer d st with
      | Some s => d_state s
      | None => None
      end
  end.

(* ================================================================= *)
(** ** Predicates used to state the properties *)

(** Every character of [s] is in the legal class. *)
Fixpoint all_legal (s : string) : bool :=
  match s with
  | EmptyString => true
  | String c r => is_legal c && all_legal r
  end.

(** [s] matches [^[A-Za-z][A-Za-z0-9\]\[\^\\\{\}\-`_|]*$]. *)
Definition matches_nick_regex (s : string) : bool :=
  match s with
  | EmptyString => false
  | String c r => is_letter c && all_legal r
  end.

(** The length limit [_getValidNick] enforces: none without a raw client,
    the advertised NICKLEN with one, 9 when it advertises none. *)
Definition effective_limit (client : option (option Z)) : option Z :=
  match client with
  | None => None
  | Some None => Some 9
  | Some (Some nicklength) => Some nicklength
  end.

(** The first two transformations of [_getValidNick] alone. *)
Definition without_length_check (nick : string) : string :=
  let n := strip_illegal nick in
  if starts_with_letter n then n else "M" ++ n.

(** [s] begins with one of [# ! & +]: a channel name of the glossary. *)
Definition is_channel_name (s : string) : bool :=
  match s with
  | String c _ => is_channel_prefix c
  | EmptyString => false
  end.

(** [s] contains none of [# ! & +]. *)
Definition no_channel_char (s : string) : Prop :=
  forall c, In c (list_ascii_of_string s) ->
            c <> "#"%char /\ c <> "!"%char /\ c <> "&"%char /\ c <> "+"%char.

(** The session has a connection and it is alive. *)
Definition connected (st : State) : bool :=
  match inst st with
  | Some i => negb (dead i)
  | None => false
  end.

(** The state of a session after [kill]: the raw-client handle is
    cleared and there is no live connection. *)
Definition killed (st : State) : Prop :=
  unsafeClient st = HNull /\ connected st = false.

(** Two states agree on the handle, on the liveness of the connection
    and on what has been sent on the wire. *)
Definition same_link (st st' : State) : Prop :=
  unsafeClient st' = unsafeClient st
  /\ connected st' = connected st
  /\ wire (log st') = wire (log st).

(** Events other than the completion of a connect attempt. *)
Definition not_connect (ev : event) : Prop :=
  match ev with
  | EConnectCreated _ => False
  | _ => True
  end.

(** The lifecycle errors of the client. *)
Definition lifecycle_error (e : error) : Prop :=
  e = Error "No client" \/ e = Error "You are not connected to the network.".

(** The listeners currently registered on the upstream client. *)
Definition nick_listeners (st : State) : list listener :=
  match inst st with
  | Some i => c_nickListeners (client i)
  | None => []
  end.

Definition error_listeners (st : State) : list listener :=
  match inst st with
  | Some i => c_errorListeners (client i)
  | None => []
  end.

(** How many times [l] is registered in [ls]. *)
Definition registrations (l : listener) (ls : list listener) : nat :=
  List.length (filter (listener_eqb l) ls).

(** The armed timers that belong to the call with deferred [d]. *)
Definition timers_of (d : nat) (st : State) : list (Z * timer) :=
  filter (owned_by d) (timers st).

(** No closure of a nick change or of a join refers to [d] yet. *)
Definition unused_id (d : nat) (st : State) : Prop :=
  timers_of d st = []
  /\ registrations (LNickChanged d) (nick_listeners st) = 0%nat
  /\ registrations (LNickFailed d) (error_listeners st) = 0%nat
  /\ forall channel,
      registrations (LJoinFailed d channel) (error_listeners st) = 0%nat.

(** The nick change with promise [d] is in flight: the handle is set, the
    promise is pending, its 10 s timer is armed and its "nick" listener
    is registered (its "error" listener may have been used up). *)
Definition nick_change_pending (d : nat) (validNick : string) (st : State)
  : Prop :=
  getClient st <> None
  /\ isPending d st = true
  /\ timers_of d st = [(NICK_DELAY_TIMER_MS, TNick d validNick)]
  /\ registrations (LNickChanged d) (nick_listeners st) = 1%nat
  /\ (registrations (LNickFailed d) (error_listeners st) <= 1)%nat
  /\ forall channel,
      registrations (LJoinFailed d channel) (error_listeners st) = 0%nat.

(** The nick change with promise [d] is over with outcome [o]: its timer
    is gone and neither of its listeners is registered. *)
Definition nick_change_settled (d : nat) (o : outcome) (st : State) : Prop :=
  outcome_of (Deferred d) st = Some o
  /\ timers_of d st = []
  /\ registrations (LNickChanged d) (nick_listeners st) = 0%nat
  /\ registrations (LNickFailed d) (error_listeners st) = 0%nat.

(** The one-shot "error" listeners of the call with deferred [d]. *)
Definition error_listener_of (d : nat) (l : listener) : bool :=
  match l with
  | LNickFailed d' | LJoinFailed d' _ => Nat.eqb d' d
  | LNickTrack | LErrorReport | LNickChanged _ => false
  end.

(** [st'] differs from [st] only in ways that leave the call with
    deferred [d] alone: the handle stays set, and the deferred, its timers
    and the registrations of its listeners are the same. *)
Definition apart (d : nat) (st st' : State) : Prop :=
  (getClient st <> None -> getClient st' <> None)
  /\ get_defer d st' = get_defer d st
  /\ timers_of d st' = timers_of d st
  /\ registrations (LNickChanged d) (nick_listeners st')
     = registrations (LNickChanged d) (nick_listeners st)
  /\ forall l, error_listener_of d l = true ->
               registrations l (error_listeners st')
               = registrations l (error_listeners st).

(** The number of JOIN commands in an effect log. *)
Fixpoint join_count (l : list effect) : nat :=
  match l with
  | [] => 0
  | Wire (JOIN _) :: r => S (join_count r)
  | _ :: r => join_count r
  end.

(** How many JOINs a pending closure can still cause: a round timer with
    attempt count [a] retries while [a < 5], each retry counting one up; a
    queued call of [_joinChannel] sends one JOIN and arms such a timer. *)
Definition timer_budget (t : Z * timer) : nat :=
  match snd t with
  | TJoin _ _ _ a => Z.to_nat (5 - a)
  | _ => 0
  end.

Definition frame_budget (f : frame) : nat :=
  match f with
  | KJoin _ _ a =>
      S (Z.to_nat (5 - match a with
                       | Some 0 | None => 1
                       | Some a => a
                       end))
  | _ => 0
  end.

Definition chain_budget (k : list frame) : nat := list_sum (map frame_budget k).

Definition job_budget (j : job) : nat := chain_budget (fst (fst j)).

Definition defer_budget (s : deferred) : nat :=
  list_sum (map (fun w : waiter => chain_budget (fst w)) (d_waiters s)).

(** JOINs sent so far plus the JOINs the pending closures can still
    cause. *)
Definition join_potential (st : State) : nat :=
  (join_count (log st)
   + list_sum (map timer_budget (timers st))
   + list_sum (map job_budget (jobs st))
   + list_sum (map defer_budget (defers st)))%nat.

(** Events that do not ask for a join: everything but the public calls
    that reach [_joinChannel]. *)
Definition no_join_requested (ev : event) : Prop :=
  match ev with
  | ECall (JoinChannel _ _) | ECall (SendAction _ _)
  | ECall (GetOperators _ _) => False
  | _ => True
  end.

(** What a callback hands on has no joins queued in it. *)
Definition handed_on (r : frame_result) : nat :=
  match r with
  | FrThen _ pre => chain_budget pre
  | FrUncaught _ => 0
  end.

(** The channel list is well formed: no name twice, and every name passed
    the channel test of [_joinChannel]. *)
Definition chanList_ok (l : list string) : Prop :=
  NoDup l /\ Forall (fun c => test_channel_regex c = true) l.

(** An armed idle timer carries the configured timeout, which is
    positive. *)
Definition idle_ok (st : State) : Prop :=
  forall n, idleTimeout_ st = Some n ->
            n = getIdleTimeout (server st) /\ 0 < n.

(** What every step of the session keeps: the server descriptor, the
    flags that are only ever raised, the outcome of settled promises, and
    the invariants of the channel list and of the idle timer. *)
Definition evolves (st st' : State) : Prop :=
  server st' = server st
  /\ (explicitDisconnect st = true -> explicitDisconnect st' = true)
  /\ (instCreationFailed st = true -> instCreationFailed st' = true)
  /\ (forall d o, outcome_of (Deferred d) st = Some o ->
                  outcome_of (Deferred d) st' = Some o)
  /\ (chanList_ok (chanList st) -> chanList_ok (chanList st'))
  /\ (idle_ok st -> idle_ok st').

(** Events raised by the upstream client or by the passage of time, as
    opposed to calls, timers and promise callbacks of the session. *)
Definition upstream_event (ev : event) : Prop :=
  match ev with
  | ENick _ _ | EError _ | ECallback _ _ | EChans _ | EDisconnected _
  | EConnectStart | EConnectFailed | ETick _ => True
  | _ => False
  end.

(** [prefixes] contains [@] or a prefix the client ranks above it. *)
Definition has_operator_prefix (c : RawClient) (prefixes : string) : bool :=
  existsb (fun ch => Ascii.eqb ch "@"
                     || c_morePowerfulThanAt c (String ch EmptyString))
          (list_ascii_of_string prefixes).

(** What the operator filter can decide about a prefix string without a
    client: it is empty, or its first prefix is [@]. *)
Definition decided_without_client (prefixes : string) : bool :=
  match prefixes with
  | EmptyString => true
  | String c _ => Ascii.eqb c "@"
  end.

(** The expiry time [sendAction] computes for an action: 0 means that
    the action does not expire. *)
Definition expiryTs_of (action : Action) (st : State) : Z :=
  match a_ts action with
  | Some ts =>
      if negb (ts =? 0) && negb (getExpiryTimeSeconds (server st) =? 0)
      then ts + getExpiryTimeSeconds (server st) * 1000
      else 0
  | None => 0
  end.

(** The action is too old to be sent now. *)
Definition expired (action : Action) (st : State) : bool :=
  negb (expiryTs_of action st =? 0) && (now st >? expiryTs_of action st).

(** The command a text action stands for. *)
Definition message_command (channel : string) (action : Action)
  : option irc_cmd :=
  if String.eqb (a_type action) "message"
  then Some (PRIVMSG channel (a_text action))
  else if String.eqb (a_type action) "notice"
  then Some (NOTICE channel (a_text action))
  else if String.eqb (a_type action) "emote"
  then Some (ACTION channel (a_text action))
  else None.

(** What the proofs about a fresh connection read of a session. *)
Definition view (st : State) :=
  (unsafeClient st, inst st, chanList st, timers st, defers st, jobs st,
   server st, join_count (log st)).

(* ================================================================= *)
(** ** Sessions used in examples *)

Definition example_server : IrcServer :=
  {| domain := "irc.example.org";
     getIdleTimeout := 300;
     getExpiryTimeSeconds := 0;
     getUserModes := "";
     shouldSyncMembershipToIrc := fun _ => false;
     isExcludedChannel := fun _ => false |}.

Definition example_client : RawClient :=
  {| c_nick := "trinity";
     c_nicklength := Some 9;
     c_chans := [];
     c_morePowerfulThanAt := fun _ => false;
     c_nickListeners := [];
     c_errorListeners := [];
     c_callbacks := [] |}.

Definition fresh_session : State :=
  BridgedClient example_server "trinity" false 0.

Definition connected_session : State :=
  run [EConnectStart; EConnectCreated example_client] fresh_session.

Definition killed_session : State :=
  run [ECall (Kill None)] connected_session.

(* ================================================================= *)
(** * Properties *)

(** Closed statements about concrete sessions are settled by evaluation. *)
Ltac by_evaluation :=
  cbv zeta;
  repeat match goal with |- _ /\ _ => split end;
  vm_compute; reflexivity.

(** ** Nick validation *)

Example nick_coercion :
  getValidNick None "123bob!" false = Ok "M123bob"
  /\ getValidNick None "123bob!" true
     = Throw (Error "Nick '123bob!' contains illegal characters.").
Proof. by_evaluation. Qed.

Example nick_truncation :
  getValidNick (Some (Some 9)) "alexandermax" false = Ok "alexander"
  /\ getValidNick (Some (Some 9)) "alexander" false = Ok "alexander"
  /\ getValidNick (Some (Some 9)) "alexandermax" true
     = Throw (Error "Nick 'alexandermax' is too long. (Max: 9)").
Proof. by_evaluation. Qed.

Lemma is_letter_legal (c : ascii) : is_letter c = true -> is_legal c = true.
Proof.
  unfold is_letter, is_legal. intros H.
  apply orb_true_iff in H as [H | H]; rewrite H; simpl; auto.
  now rewrite orb_true_r.
Qed.

Lemma strip_all_legal (s : string) : all_legal (strip_illegal s) = true.
Proof.
  induction s as [| c r IH]; simpl; auto.
  destruct (is_legal c) eqn:E; simpl; auto. now rewrite E.
Qed.

Lemma strip_fixed_iff_legal (s : string) :
  strip_illegal s = s <-> all_legal s = true.
Proof.
  split.
  - intros H. rewrite <- H. apply strip_all_legal.
  - induction s as [| c r IH]; simpl; auto.
    intros H. apply andb_true_iff in H as [Hc Hr].
    rewrite Hc. f_equal. auto.
Qed.

Lemma strip_length (s : string) :
  (String.length (strip_illegal s) <= String.length s)%nat.
Proof.
  induction s as [| c r IH]; simpl; auto.
  destruct (is_legal c); simpl; lia.
Qed.

Lemma substring_legal (s : string) (n : nat) :
  all_legal s = true -> all_legal (substring 0 n s) = true.
Proof.
  revert n. induction s as [| c r IH]; intros [| n] H; simpl in *; auto.
  apply andb_true_iff in H as [Hc Hr]. rewrite Hc. simpl. auto.
Qed.

Lemma substring_length (s : string) (n : nat) :
  String.length (substring 0 n s) = Nat.min n (String.length s).
Proof.
  revert n. induction s as [| c r IH]; intros [| n]; simpl; auto.
Qed.

Lemma substring_all (s : string) (n : nat) :
  (String.length s <= n)%nat -> substring 0 n s = s.
Proof.
  revert n. induction s as [| c r IH]; intros [| n] H; simpl in *; auto; try lia.
  f_equal. apply IH. lia.
Qed.

Lemma without_length_check_matches (nick : string) :
  matches_nick_regex (without_length_check nick) = true.
Proof.
  unfold without_length_check.
  pose proof (strip_all_legal nick) as HL.
  destruct (strip_illegal nick) as [| c r] eqn:E; simpl; auto.
  destruct (is_letter c) eqn:Ec; simpl.
  - rewrite Ec. simpl in HL. apply andb_true_iff in HL as [_ HL]. now rewrite HL.
  - exact HL.
Qed.

Lemma truncation_matches (s : string) (limit : Z) :
  1 <= limit -> matches_nick_regex s = true ->
  matches_nick_regex (substr0 s limit) = true.
Proof.
  intros Hl Hm. unfold substr0.
  destruct (Z.to_nat limit) as [| n] eqn:E; [lia |].
  destruct s as [| c r]; simpl in *; auto.
  apply andb_true_iff in Hm as [Hc Hr]. rewrite Hc. simpl.
  now apply substring_legal.
Qed.

(** Without [throwOnInvalid] the validator never throws: it returns the
    coerced nick, cut to the limit in force. *)
Lemma getValidNick_coerce (client : option (option Z)) (nick : string) :
  getValidNick client nick false
  = Ok (match effective_limit client with
        | Some limit =>
            if Z.of_nat (String.length (without_length_check nick)) >? limit
            then substr0 (without_length_check nick) limit
            else without_length_check nick
        | None => without_length_check nick
        end).
Proof.
  unfold getValidNick, without_length_check. simpl.
  destruct (starts_with_letter (strip_illegal nick)); simpl;
    destruct client as [[l |] |]; simpl; auto;
    match goal with |- context [if ?b then _ else _] => destruct b end; auto.
Qed.

(** With [throwOnInvalid] the validator reports the first rule the nick
    breaks and otherwise returns the nick as given. *)
Lemma getValidNick_strict (client : option (option Z)) (nick : string) :
  getValidNick client nick true
  = if negb (String.eqb (strip_illegal nick) nick) then
      Throw (Error ("Nick '" ++ nick ++ "' contains illegal characters."))
    else if negb (starts_with_letter nick) then
      Throw (Error ("Nick '" ++ nick ++ "' must start with a letter."))
    else
      match effective_limit client with
      | Some limit =>
          if Z.of_nat (String.length nick) >? limit then
            Throw (Error ("Nick '" ++ nick ++ "' is too long. (Max: "
                          ++ string_of_Z limit ++ ")"))
          else Ok nick
      | None => Ok nick
      end.
Proof.
  unfold getValidNick. simpl.
  destruct (String.eqb (strip_illegal nick) nick) eqn:E; simpl; auto.
  apply String.eqb_eq in E. rewrite E.
  destruct (starts_with_letter nick); simpl; auto.
  destruct client as [[l |] |]; simpl; auto.
Qed.

Lemma strip_changed_shorter (s : string) :
  strip_illegal s <> s ->
  (String.length (strip_illegal s) < String.length s)%nat.
Proof.
  induction s as [| c r IH]; simpl; [congruence |].
  destruct (is_legal c); simpl; intros H.
  - apply -> Nat.succ_lt_mono. apply IH. congruence.
  - pose proof (strip_length r). lia.
Qed.

Lemma substr0_length (s : string) (limit : Z) :
  0 <= limit ->
  Z.of_nat (String.length (substr0 s limit))
  = Z.min limit (Z.of_nat (String.length s)).
Proof.
  intros H. unfold substr0. rewrite substring_length. lia.
Qed.

Lemma substr0_head (c : ascii) (r : string) (limit : Z) :
  1 <= limit -> exists r', substr0 (String c r) limit = String c r'.
Proof.
  intros H. unfold substr0.
  destruct (Z.to_nat limit) as [| n] eqn:E; [lia |].
  simpl. eauto.
Qed.

(** A coerced nick that begins with the inserted [M] is not the input. *)
Lemma prefixed_differs (nick : string) (limit : option Z) :
  (forall l, limit = Some l -> 1 <= l) ->
  starts_with_letter (strip_illegal nick) = false ->
  match limit with
  | Some l => if Z.of_nat (String.length ("M" ++ strip_illegal nick)) >? l
              then substr0 ("M" ++ strip_illegal nick) l
              else "M" ++ strip_illegal nick
  | None => "M" ++ strip_illegal nick
  end <> nick.
Proof.
  intros Hl Hs Heq.
  assert (exists r, nick = String "M" r) as [r ->].
  { destruct limit as [l |]; simpl in Heq.
    - destruct (_ >? l).
      + destruct (substr0_head "M" (strip_illegal nick) l (Hl l eq_refl))
          as [r' Hr'].
        simpl in Hr'. rewrite Hr' in Heq. eauto.
      + eauto.
    - eauto. }
  simpl in Hs. discriminate.
Qed.

(** C5, counterexample: a client advertising NICKLEN 0 makes the lenient
    validator return the empty nick unchanged while the strict one
    raises. *)
Lemma getValidNick_strict_agreement_fails_at_zero_limit :
  getValidNick (Some (Some 0)) "" false = Ok ""
  /\ getValidNick (Some (Some 0)) "" true
     = Throw (Error "Nick '' must start with a letter.").
Proof. by_evaluation. Qed.

(** C5, amended: when the length limit in force, if any, is at least 1,
    strict validation returns the nick unchanged exactly when lenient
    validation does; and whenever lenient validation would alter the nick,
    strict validation raises an error whose message names the first rule
    broken: illegal characters, no leading letter, or too long. *)
Theorem getValidNick_strict_iff_unchanged
        (client : option (option Z)) (nick : string) :
  (forall limit, effective_limit client = Some limit -> 1 <= limit) ->
  (getValidNick client nick true = Ok nick
   <-> getValidNick client nick false = Ok nick)
  /\ (getValidNick client nick false <> Ok nick ->
      (strip_illegal nick <> nick
       /\ getValidNick client nick true
          = Throw (Error ("Nick '" ++ nick ++ "' contains illegal characters.")))
      \/ (strip_illegal nick = nick /\ starts_with_letter nick = false
          /\ getValidNick client nick true
             = Throw (Error ("Nick '" ++ nick ++ "' must start with a letter.")))
      \/ (strip_illegal nick = nick /\ starts_with_letter nick = true
          /\ exists limit,
              effective_limit client = Some limit
              /\ Z.of_nat (String.length nick) > limit
              /\ getValidNick client nick true
                 = Throw (Error ("Nick '" ++ nick ++ "' is too long. (Max: "
                                 ++ string_of_Z limit ++ ")")))).
Proof.
  intros Hl.
  rewrite getValidNick_strict, getValidNick_coerce.
  unfold without_length_check.
  destruct (String.eqb (strip_illegal nick) nick) eqn:E; simpl.
  - apply String.eqb_eq in E. rewrite E.
    destruct (starts_with_letter nick) eqn:Es; simpl.
    + destruct (effective_limit client) as [l |] eqn:El.
      * specialize (Hl l eq_refl).
        destruct (Z.of_nat (String.length nick) >? l) eqn:Eg.
        -- assert (substr0 nick l <> nick) as Hne.
           { intros Heq. apply (f_equal String.length) in Heq.
             apply (f_equal Z.of_nat) in Heq.
             rewrite substr0_length in Heq by lia. lia. }
           split; [split; intros H; [discriminate | congruence] |].
           intros _. right. right. repeat split; auto.
           exists l. repeat split; auto. lia.
        -- split; [tauto | congruence].
      * split; [tauto | congruence].
    + assert (starts_with_letter (strip_illegal nick) = false) as Es'
          by now rewrite E.
      pose proof (prefixed_differs nick (effective_limit client) Hl Es') as Hne.
      rewrite E in Hne.
      split.
      * split; intros H; [discriminate |].
        exfalso. injection H as H. exact (Hne H).
      * intros _. right. left. auto.
  - apply String.eqb_neq in E.
    split.
    + split; intros H; [discriminate |]. exfalso.
      destruct (starts_with_letter (strip_illegal nick)) eqn:Es.
      * pose proof (strip_changed_shorter nick E) as Hlt.
        assert (forall r, Ok r = Ok nick ->
                          (String.length r <= String.length (strip_illegal nick))%nat
                          -> False) as Hk.
        { intros r Hr Hle. injection Hr as ->. lia. }
        destruct (effective_limit client) as [l |] eqn:El.
        -- destruct (_ >? l).
           ++ apply (Hk _ H). unfold substr0. rewrite substring_length. lia.
           ++ apply (Hk _ H). lia.
        -- apply (Hk _ H). lia.
      * apply (prefixed_differs nick (effective_limit client) Hl Es).
        injection H as H. exact H.
    + intros _. left. auto.
Qed.

(** The amended C5 at the spec's truncation scenario: NICKLEN 9 and a
    twelve-letter nick. *)
Lemma getValidNick_strict_iff_unchanged_witness :
  (getValidNick (Some (Some 9)) "alexandermax" true = Ok "alexandermax"
   <-> getValidNick (Some (Some 9)) "alexandermax" false = Ok "alexandermax")
  /\ getValidNick (Some (Some 9)) "alexandermax" true
     = Throw (Error "Nick 'alexandermax' is too long. (Max: 9)").
Proof.
  destruct (getValidNick_strict_iff_unchanged (Some (Some 9)) "alexandermax")
    as [Hiff Hrule].
  - intros limit H. injection H as <-. lia.
  - split; [exact Hiff |]. reflexivity.
Defined.

(** C4, counterexample: a live client that advertises no NICKLEN still
    gets a length check, against the RFC 1459 default of 9, so the result
    differs from the one computed without a client. *)
Lemma getValidNick_length_checked_without_nicklen :
  getValidNick (Some None) "alexandermax" false = Ok "alexander"
  /\ getValidNick None "alexandermax" false = Ok "alexandermax"
  /\ ~ (forall nick,
           getValidNick (Some None) nick false = getValidNick None nick false).
Proof.
  repeat split. intros H. specialize (H "alexandermax"). discriminate.
Qed.

(** A limit below 1 leaves no room for the leading letter: the lenient
    validator then returns the empty string. *)
Example getValidNick_zero_limit :
  getValidNick (Some (Some 0)) "bob" false = Ok ""
  /\ matches_nick_regex "" = false.
Proof. by_evaluation. Qed.

(** C4, amended: lenient validation always returns a string; when the
    length limit in force, if any, is at least 1, that string matches
    [^[A-Za-z][A-Za-z0-9\]\[\^\\\{\}\-`_|]*$].  With a live client its
    length is at most the advertised NICKLEN, or at most 9 when the client
    advertises none; only without a live client is no length check
    applied. *)
Theorem getValidNick_lenient_valid (client : option (option Z)) (nick : string) :
  (forall limit, effective_limit client = Some limit -> 1 <= limit) ->
  exists r,
    getValidNick client nick false = Ok r
    /\ matches_nick_regex r = true
    /\ match client with
       | Some (Some nicklength) => Z.of_nat (String.length r) <= nicklength
       | Some None => Z.of_nat (String.length r) <= 9
       | None => r = without_length_check nick
       end.
Proof.
  intros Hl. rewrite getValidNick_coerce.
  eexists. split; [reflexivity |].
  pose proof (without_length_check_matches nick) as Hm.
  destruct client as [[l |] |]; simpl in *.
  - specialize (Hl l eq_refl).
    destruct (_ >? l) eqn:E.
    + split; [now apply truncation_matches |].
      rewrite substr0_length by lia. lia.
    + split; [exact Hm | lia].
  - destruct (_ >? 9) eqn:E.
    + split; [now apply truncation_matches |].
      rewrite substr0_length by lia. lia.
    + split; [exact Hm | lia].
  - auto.
Qed.

(** The amended C4 at a client advertising NICKLEN 9. *)
Lemma getValidNick_lenient_valid_witness :
  exists r,
    getValidNick (Some (Some 9)) "123bob!alexander" false = Ok r
    /\ matches_nick_regex r = true
    /\ Z.of_nat (String.length r) <= 9.
Proof.
  apply (getValidNick_lenient_valid (Some (Some 9)) "123bob!alexander").
  intros limit H. injection H as <-. lia.
Defined.

(* ================================================================= *)
(** ** Joining a direct-message target *)

Lemma test_channel_regex_false (s : string) :
  no_channel_char s -> test_channel_regex s = false.
Proof.
  unfold no_channel_char.
  induction s as [| c r IH]; simpl; auto.
  intros H. rewrite IH by (intros c' Hc'; apply H; now right).
  destruct (H c (or_introl eq_refl)) as (H1 & H2 & H3 & H4).
  unfold is_channel_prefix.
  apply Ascii.eqb_neq in H1, H2, H3, H4.
  now rewrite H1, H2, H3, H4.
Qed.

(** The channel-name test comes after the test of the raw client: on a
    session whose raw client is gone (here after [kill]) a join of a
    direct-message target is rejected with "No client" instead of
    resolving with a room. *)
Lemma joinChannel_private_rejected_without_client :
  is_channel_name "morpheus" = false
  /\ invoke (JoinChannel "morpheus" None) killed_session
     = (killed_session, Ret (Settled (Rejected (Error "No client")))).
Proof. by_evaluation. Qed.

(** Where the code agrees with the rule for direct-message targets: a
    call [JoinChannel(channel, key)] made while the raw client is present,
    for a [channel] that contains none of [# ! & +], resolves at once
    with the room descriptor of that channel and leaves the session as it
    was: no JOIN is sent and [chanList] is unchanged. *)
Theorem joinChannel_private_resolves
        (st : State) (channel : string) (key : option string) :
  getClient st <> None ->
  no_channel_char channel ->
  invoke (JoinChannel channel key) st
  = (st, Ret (Settled (Resolved (VRoom channel)))).
Proof.
  intros Hc Hn. simpl. unfold joinChannel_, ret.
  destruct (getClient st) as [c |]; [| congruence].
  destruct (includes channel (c_chans c)); simpl; auto.
  now rewrite test_channel_regex_false.
Qed.

(** The rule on a connected session. *)
Lemma joinChannel_private_resolves_witness :
  invoke (JoinChannel "morpheus" (Some "key")) connected_session
  = (connected_session, Ret (Settled (Resolved (VRoom "morpheus")))).
Proof.
  apply joinChannel_private_resolves.
  - discriminate.
  - intros c H. simpl in H.
    repeat (destruct H as [<- | H]; [repeat split; discriminate |]).
    contradiction.
Defined.

(** C1, where the code departs from the rule: the test it applies,
    [/[#!&+]/], is not anchored.  For every name that does not begin with
    one of [# ! & +] but contains one further on, a [JoinChannel] made
    while the raw client is present (the client not yet in a channel of
    that name, the server not excluding it) does not resolve at once as
    for a direct-message target: it sends a JOIN for the name, records
    the name in [chanList] and returns a pending promise. *)
Theorem joinChannel_inner_channel_char_sends_join
        (st : State) (channel : string) (key : option string)
        (c : RawClient) :
  getClient st = Some c ->
  is_channel_name channel = false ->
  test_channel_regex channel = true ->
  includes channel (c_chans c) = false ->
  isExcludedChannel (server st) channel = false ->
  exists d st',
    invoke (JoinChannel channel key) st = (st', Ret (Deferred d))
    /\ isPending d st' = true
    /\ log st' = push (log st)
                      (Wire (JOIN (channel ++ (if truthy key
                                               then " " ++ or_default key ""
                                               else ""))))
    /\ inChannel channel st' = true.
Proof.
  intros Hc _ Ht Hin Hx.
  cbn [invoke]. unfold joinChannel_, ret. rewrite Hc, Hin, Ht, Hx.
  cbn [negb new_defer fst snd].
  eexists. eexists. split; [reflexivity |].
  unfold addChannel.
  change (chanList (set_defers _ st)) with (chanList st).
  destruct (includes channel (chanList st)) eqn:E.
  - split; [| split; [reflexivity | exact E]].
    unfold isPending, get_defer. cbn. unfold push.
    rewrite nth_error_app2 by lia. now rewrite Nat.sub_diag.
  - split; [| split; [reflexivity |]].
    + unfold isPending, get_defer. cbn. unfold push.
      rewrite nth_error_app2 by lia. now rewrite Nat.sub_diag.
    + unfold inChannel. cbn. unfold push.
      clear. induction (chanList st) as [| y r IH]; simpl.
      * now rewrite String.eqb_refl.
      * rewrite IH. apply orb_true_r.
Qed.

(** C1 at a name with an inner [+], on a connected session: the spec's
    rule would resolve it as a direct-message target. *)
Lemma joinChannel_inner_channel_char_sends_join_witness :
  is_channel_name "neo+trinity" = false
  /\ exists d st',
      invoke (JoinChannel "neo+trinity" None) connected_session
      = (st', Ret (Deferred d))
      /\ isPending d st' = true
      /\ log st' = push (log connected_session) (Wire (JOIN "neo+trinity"))
      /\ inChannel "neo+trinity" st' = true.
Proof.
  split; [reflexivity |].
  assert (getClient connected_session
          = Some (set_c_errorListeners [LErrorReport]
                    (set_c_nickListeners [LNickTrack] example_client))) as Hc
      by (vm_compute; reflexivity).
  exact (joinChannel_inner_channel_char_sends_join
           connected_session "neo+trinity" None _ Hc
           eq_refl eq_refl eq_refl eq_refl).
Defined.

(* ================================================================= *)
(** ** The channel list *)

(** C6, the code at the failing input: on a connected session,
    [JoinChannel("a#b")] passes the unanchored test, is sent as a JOIN
    and is recorded in [chanList], although it does not begin with one
    of [# ! & +]. *)
Lemma chanList_gets_name_without_channel_prefix :
  let st := step (ECall (JoinChannel "a#b" None)) connected_session in
  chanList connected_session = []
  /\ chanList st = ["a#b"]
  /\ is_channel_name "a#b" = false
  /\ wire (log st) = [JOIN "a#b"].
Proof. by_evaluation. Qed.

(** C7, the code at the failing input: a connected session that joined
    ["&ops"] has it in [chanList], yet [LeaveChannel("&ops")] resolves as
    a no-op: the name stays in [chanList] and no PART is sent. *)
Lemma leaveChannel_skips_non_hash_channel :
  let st := step (ECall (JoinChannel "&ops" None)) connected_session in
  is_channel_name "&ops" = true
  /\ connected st = true
  /\ inChannel "&ops" st = true
  /\ invoke (LeaveChannel "&ops" None) st = (st, Ret resolved).
Proof. by_evaluation. Qed.

(* ================================================================= *)
(** ** Operator queries without options *)

(** C10: [getOperators(channel, opts)] with [opts] undefined or null
    throws a TypeError at once; the session is untouched, so no validation
    message, join, names request or network traffic precedes it. *)
Theorem getOperators_missing_opts_throws (st : State) (channel : string) :
  getOperators channel OUndefined st
  = (st, Thrown (TypeError "Cannot read property 'key' of undefined"))
  /\ getOperators channel ONull st
     = (st, Thrown (TypeError "Cannot read property 'key' of null")).
Proof. by_evaluation. Qed.

(** With an [opts] object the validation messages are the ones thrown. *)
Example getOperators_validates_opts :
  snd (getOperators "#zion" (OObject (JInteger 7) JUndefined) connected_session)
  = Thrown (Error "key must be a string")
  /\ snd (getOperators "#zion" (OObject JUndefined (JInteger 0)) connected_session)
     = Thrown (Error "cacheDurationMs must be a positive integer").
Proof. by_evaluation. Qed.

(* ================================================================= *)
(** ** A killed session stays silent *)

Lemma wire_app (l1 l2 : list effect) : wire (l1 ++ l2) = (wire l1 ++ wire l2)%list.
Proof.
  induction l1 as [| e l1 IH]; simpl; auto.
  destruct e; simpl; now rewrite IH.
Qed.

Lemma same_link_refl (st : State) : same_link st st.
Proof. repeat split. Qed.

Lemma same_link_trans (a b c : State) :
  same_link a b -> same_link b c -> same_link a c.
Proof.
  unfold same_link. intros (H1 & H2 & H3) (H4 & H5 & H6).
  repeat split; congruence.
Qed.

(** Proves [same_link st (f st)] for a state update [f] that touches
    neither the handle, nor the liveness flag, nor the wire. *)
Ltac link_cases :=
  repeat match goal with
         | |- context [match ?x with _ => _ end] => destruct x
         end;
  try solve [repeat split].

Lemma link_new_defer (st : State) : same_link st (snd (new_defer st)).
Proof. repeat split. Qed.

Lemma link_settle (d : nat) (o : outcome) (st : State) :
  same_link st (settle d o st).
Proof. unfold settle. link_cases. Qed.

Lemma link_then (p : promise) (k : list frame) (t : option nat) (st : State) :
  same_link st (then_ p k t st).
Proof. unfold then_. link_cases. Qed.

Lemma link_setTimeout (t : timer) (delay : Z) (st : State) :
  same_link st (setTimeout t delay st).
Proof. repeat split. Qed.

Lemma link_clearTimeout (d : nat) (st : State) :
  same_link st (clearTimeout d st).
Proof. repeat split. Qed.

Lemma link_map_client (f : RawClient -> RawClient) (st : State) :
  same_link st (map_client f st).
Proof.
  unfold same_link, map_client, connected. simpl.
  destruct (inst st); simpl; auto.
Qed.

Lemma link_emit (e : effect) (st : State) :
  (forall c, e <> Wire c) -> same_link st (emit e st).
Proof.
  intros H. unfold same_link, emit, push. simpl.
  repeat split. rewrite wire_app. simpl.
  destruct e; simpl; try apply app_nil_r. now destruct (H c).
Qed.

Lemma killed_no_client (st : State) : killed st -> getClient st = None.
Proof.
  unfold killed, getClient. intros [H _]. now rewrite H.
Qed.

Lemma killed_link (st st' : State) :
  killed st -> same_link st st' -> killed st'.
Proof.
  unfold killed, same_link. intros [H1 H2] (H3 & H4 & _). split; congruence.
Qed.

(** Decomposes [same_link a (f (g (... a)))] along the updates applied. *)
Ltac link :=
  repeat first
    [ apply same_link_refl
    | match goal with
      | |- same_link ?a (settle _ _ ?b) =>
          apply (same_link_trans a b); [| apply link_settle]
      | |- same_link ?a (then_ _ _ _ ?b) =>
          apply (same_link_trans a b); [| apply link_then]
      | |- same_link ?a (setTimeout _ _ ?b) =>
          apply (same_link_trans a b); [| apply link_setTimeout]
      | |- same_link ?a (clearTimeout _ ?b) =>
          apply (same_link_trans a b); [| apply link_clearTimeout]
      | |- same_link ?a (map_client _ ?b) =>
          apply (same_link_trans a b); [| apply link_map_client]
      | |- same_link ?a (emit _ ?b) =>
          apply (same_link_trans a b); [| apply link_emit; discriminate]
      | |- same_link ?a (if ?c then _ else _) => destruct c eqn:?
      | |- same_link ?a (match ?c with _ => _ end) => destruct c eqn:?
      | |- same_link ?a (?f _ ?b) =>
          apply (same_link_trans a b); [| solve [repeat split]]
      end ].

Lemma link_removeChannel (channel : string) (st : State) :
  same_link st (removeChannel channel st).
Proof. unfold removeChannel. link. Qed.

Lemma link_addChannel (channel : string) (st : State) :
  same_link st (addChannel channel st).
Proof. unfold addChannel. link. Qed.

Lemma link_keepAlive (st : State) : same_link st (keepAlive st).
Proof. unfold keepAlive. cbv zeta. link. Qed.

Lemma link_onJoined (d : nat) (channel : string) (st : State) :
  same_link st (onJoined d channel st).
Proof. unfold onJoined. link. Qed.

Lemma link_failFn (d : nat) (channel : string) (err : option irc_error)
      (st : State) :
  same_link st (failFn d channel err st).
Proof. unfold failFn. link. Qed.

Lemma link_onNickTimeout (d : nat) (st : State) :
  same_link st (onNickTimeout d st).
Proof. unfold onNickTimeout. cbv zeta. link. Qed.

Lemma link_onWhois (d : nat) (wnick : string) (w : whois_reply) (st : State) :
  same_link st (onWhois d wnick w st).
Proof. unfold onWhois. cbv zeta. link. Qed.

Lemma link_onNames (d : nat) (channelName : string)
      (names : list (string * string)) (st : State) :
  same_link st (onNames d channelName names st).
Proof. unfold onNames. cbv zeta. link. Qed.

Lemma link_errorReport (err : option irc_error) (st : State) :
  same_link st (errorReport err st).
Proof. unfold errorReport. link. Qed.

Lemma link_nickTrack (old n : string) (st : State) :
  same_link st (nickTrack old n st).
Proof. unfold nickTrack. link. Qed.

Lemma link_onDisconnect (reason : string) (st : State) :
  same_link st (onDisconnect reason st).
Proof. unfold onDisconnect. cbv zeta. link. Qed.

Lemma killed_not_alive (st : State) (i : ConnectionInstance) :
  killed st -> inst st = Some i -> dead i = true.
Proof.
  unfold killed, connected. intros [_ H] E. rewrite E in H.
  now destruct (dead i).
Qed.

Lemma link_joinChannel (channel : string) (key : option string)
      (a : option Z) (st : State) :
  killed st -> same_link st (fst (joinChannel_ channel key a st)).
Proof.
  intros K. unfold joinChannel_. rewrite (killed_no_client st K).
  cbv zeta. destruct (isPending connectDefer st); simpl; link.
Qed.

Lemma link_leaveChannel (channel : string) (reason : option string)
      (st : State) :
  killed st -> same_link st (fst (leaveChannel_ channel reason st)).
Proof.
  intros K. unfold leaveChannel_. cbv zeta.
  destruct (inst st) as [i |] eqn:E; simpl; link.
  rewrite (killed_not_alive st i K E). simpl. link.
Qed.

Lemma link_kick (knick channel : string) (reason : option string)
      (st : State) :
  killed st -> same_link st (fst (kick knick channel reason st)).
Proof.
  intros K. unfold kick. cbv zeta.
  destruct (inst st) as [i |] eqn:E; simpl; link.
  rewrite (killed_not_alive st i K E). simpl. link.
Qed.

Lemma link_changeNick (newNick : string) (strict : bool) (st : State) :
  killed st -> same_link st (fst (changeNick newNick strict st)).
Proof.
  intros K. unfold changeNick. rewrite (killed_no_client st K). simpl.
  destruct (getValidNick None newNick strict); simpl; link.
  destruct (String.eqb a (nick st)); simpl; link.
Qed.

Lemma link_whois (wnick : string) (st : State) :
  killed st -> same_link st (fst (whois wnick st)).
Proof.
  intros K. unfold whois. rewrite (killed_no_client st K). simpl. link.
Qed.

Lemma link_getNicks (channel : string) (st : State) :
  killed st -> same_link st (fst (getNicks channel st)).
Proof.
  intros K. unfold getNicks. rewrite (killed_no_client st K). simpl. link.
Qed.

Lemma link_disconnect (reason : string) (st : State) :
  killed st -> same_link st (fst (disconnect reason st)).
Proof.
  intros K. unfold disconnect. cbv zeta.
  change (inst (set_explicitDisconnect true st)) with (inst st).
  destruct (inst st) as [i |] eqn:E; simpl; [| repeat split].
  rewrite (killed_not_alive st i K E). repeat split.
Qed.

Lemma link_kill (reason : option string) (st : State) :
  killed st -> same_link st (fst (kill reason st)).
Proof.
  intros K. unfold kill.
  apply (same_link_trans _ (set_unsafeClient HNull st)).
  - destruct K as [Hu Hc]. repeat split. simpl. now rewrite Hu.
  - apply link_disconnect. destruct K. split; auto.
Qed.

(** Splits [same_link a (fst (let (x, y) := e in body))] at the call [e]. *)
Lemma link_pair_then {A B : Type} (a : State) (e : State * A)
      (body : State -> A -> State * B) :
  same_link a (fst e) ->
  (forall x, same_link (fst e) (fst (body (fst e) x))) ->
  same_link a (fst (let (s, x) := e in body s x)).
Proof.
  destruct e as [s x]. simpl. intros H1 H2.
  eapply same_link_trans; eauto.
Qed.

Lemma link_setTopic (channel topic : string) (st : State) :
  killed st -> same_link st (fst (setTopic channel topic st)).
Proof.
  intros K. unfold setTopic.
  apply link_pair_then; [now apply link_joinChannel |].
  intros p. simpl. link.
Qed.

Lemma link_sendMessage (channel msgType text : string) (expiryTs : Z)
      (st : State) :
  same_link st (fst (sendMessage channel msgType text expiryTs st)).
Proof. unfold sendMessage. simpl. link. Qed.

Lemma link_sendAction (channel : string) (action : Action) (st : State) :
  killed st -> same_link st (fst (sendAction channel action st)).
Proof.
  intros K. unfold sendAction. cbv zeta.
  pose proof (link_keepAlive st) as Hk.
  pose proof (killed_link _ _ K Hk) as K'.
  repeat match goal with
         | |- same_link _ (fst (if ?c then _ else _)) => destruct c
         end;
    try (eapply same_link_trans; [exact Hk |]);
    try apply link_sendMessage; try (now apply link_setTopic).
  apply same_link_refl.
Qed.

Lemma link_getOperators (channel : string) (opts : opts_arg) (st : State) :
  killed st -> same_link st (fst (getOperators channel opts st)).
Proof.
  intros K. unfold getOperators.
  destruct opts as [| | key cacheMs]; try apply same_link_refl.
  destruct key; try apply same_link_refl;
    destruct cacheMs; try apply same_link_refl; cbv zeta;
    repeat match goal with
           | |- same_link _ (fst (match (if ?c then _ else _) with _ => _ end)) =>
               destruct c
           | |- same_link _ (fst (match cache_get ?c ?m with _ => _ end)) =>
               destruct (cache_get c m)
           end;
    try apply same_link_refl;
    (apply link_pair_then; [now apply link_joinChannel | intros p; simpl; link]).
Qed.

Lemma link_invoke (c : call) (st : State) :
  killed st -> same_link st (fst (invoke c st)).
Proof.
  intros K. destruct c; simpl.
  - now apply link_joinChannel.
  - now apply link_leaveChannel.
  - now apply link_changeNick.
  - now apply link_sendAction.
  - now apply link_kick.
  - now apply link_whois.
  - now apply link_getNicks.
  - now apply link_getOperators.
  - now apply link_disconnect.
  - now apply link_kill.
Qed.

Lemma link_sendDispatch (msgType channel text : string) (expiryTs : Z)
      (st : State) :
  killed st ->
  same_link st (fst (sendDispatch msgType channel text expiryTs st)).
Proof.
  intros K. unfold sendDispatch. rewrite (killed_no_client st K). cbv zeta.
  repeat match goal with
         | |- same_link _ (fst (if ?c then _ else _)) => destruct c
         end; apply same_link_refl.
Qed.

Lemma link_computeOperators (channel : string) (cacheMs : option Z)
      (v : value) (st : State) :
  same_link st (fst (computeOperators channel cacheMs v st)).
Proof.
  unfold computeOperators.
  destruct v; try apply same_link_refl.
  destruct (filter_operators _ _ _); try apply same_link_refl.
  destruct cacheMs; simpl; link.
Qed.

Lemma link_exec_frame (f : frame) (o : outcome) (st : State) :
  killed st -> same_link st (fst (exec_frame f o st)).
Proof.
  intros K. unfold exec_frame.
  destruct o as [v | e]; [| apply same_link_refl].
  destruct f.
  - apply link_pair_then; [now apply link_joinChannel |].
    intros; apply same_link_refl.
  - rewrite (killed_no_client st K). apply same_link_refl.
  - now apply link_sendDispatch.
  - apply link_pair_then; [now apply link_getNicks |].
    intros; apply same_link_refl.
  - pose proof (link_leaveChannel channel None st K) as H.
    destruct (leaveChannel_ channel None st) as [st' [p | e]]; exact H.
  - apply same_link_refl.
  - apply link_computeOperators.
Qed.

Lemma link_run_job (j : job) (st : State) :
  killed st -> same_link st (run_job j st).
Proof.
  intros K. destruct j as [[k t] o]. unfold run_job.
  destruct k as [| f k'].
  - destruct t; link.
  - pose proof (link_exec_frame f o st K) as H.
    destruct (exec_frame f o st) as [st' [p pre | e]]; simpl in H.
    + eapply same_link_trans; [exact H | apply link_then].
    + eapply same_link_trans; [exact H | apply link_emit; discriminate].
Qed.

Lemma link_run_next_job (st : State) :
  killed st -> same_link st (run_next_job st).
Proof.
  intros K. unfold run_next_job.
  destruct (jobs st) as [| j r]; [apply same_link_refl |].
  apply (same_link_trans _ (set_jobs r st)); [repeat split |].
  apply link_run_job. destruct K. split; auto.
Qed.

Lemma link_onJoinTimeout (d : nat) (channel : string) (key : option string)
      (a : Z) (st : State) :
  killed st -> same_link st (onJoinTimeout d channel key a st).
Proof.
  intros K. unfold onJoinTimeout. rewrite (killed_no_client st K).
  apply same_link_refl.
Qed.

Lemma link_fire_timer (i : nat) (st : State) :
  killed st -> same_link st (fire_timer i st).
Proof.
  intros K. unfold fire_timer.
  destruct (nth_error (timers st) i) as [[delay t] |]; [| apply same_link_refl].
  cbv zeta.
  assert (same_link st (set_timers (remove_nth i (timers st)) st)) as H
      by repeat split.
  pose proof (killed_link _ _ K H) as K'.
  eapply same_link_trans; [exact H |].
  destruct t.
  - now apply link_onJoinTimeout.
  - apply link_onNickTimeout.
  - unfold onNamesTimeout. link.
  - repeat split.
Qed.

Lemma link_onIdleTimeout (n : Z) (st : State) :
  killed st -> same_link st (onIdleTimeout n st).
Proof.
  intros K. unfold onIdleTimeout.
  destruct (shouldSyncMembershipToIrc _ _); [apply same_link_refl |].
  destruct (isBot st); [apply same_link_refl |].
  now apply link_disconnect.
Qed.

Lemma link_fire_idle (st : State) : killed st -> same_link st (fire_idle st).
Proof.
  intros K. unfold fire_idle.
  destruct (idleTimeout_ st) as [n |]; [| apply same_link_refl].
  apply (same_link_trans _ (set_idleTimeout None st)); [repeat split |].
  apply link_onIdleTimeout. destruct K. split; auto.
Qed.

Lemma link_nickListener (d : nat) (old n : string) (st : State) :
  killed st -> same_link st (fst (nickListener d old n st)).
Proof.
  intros K. unfold nickListener. cbv zeta.
  pose proof (link_clearTimeout d st) as H.
  rewrite (killed_no_client _ (killed_link _ _ K H)). exact H.
Qed.

Lemma link_nickErrListener (d : nat) (err : option irc_error) (st : State) :
  killed st -> same_link st (fst (nickErrListener d err st)).
Proof.
  intros K. unfold nickErrListener. cbv zeta.
  destruct err as [e |]; [| apply same_link_refl].
  destruct (negb (truthy (command e))); [apply same_link_refl |].
  destruct (includes _ nick_failCodes); [| apply same_link_refl].
  pose proof (link_clearTimeout d st) as H.
  rewrite (killed_no_client _ (killed_link _ _ K H)). exact H.
Qed.

Lemma link_run_nick_listener (old n : string) (l : listener) (st : State) :
  killed st -> same_link st (fst (run_nick_listener old n l st)).
Proof.
  intros K. destruct l; simpl; try apply same_link_refl.
  - apply link_nickTrack.
  - now apply link_nickListener.
Qed.

Lemma link_run_error_listener (err : option irc_error) (l : listener)
      (st : State) :
  killed st -> same_link st (fst (run_error_listener err l st)).
Proof.
  intros K. destruct l; simpl; try apply same_link_refl.
  - apply link_errorReport.
  - now apply link_nickErrListener.
  - apply link_failFn.
Qed.

Lemma link_dispatch (run : listener -> State -> handled)
      (unregister : listener -> RawClient -> RawClient) (ls : list listener) :
  (forall l st, killed st -> same_link st (fst (run l st))) ->
  forall st, killed st -> same_link st (dispatch run unregister ls st).
Proof.
  intros Hrun. induction ls as [| l r IH]; intros st K; simpl.
  - apply same_link_refl.
  - set (st1 := if is_once l then map_client (unregister l) st else st).
    assert (same_link st st1) as H1
        by (unfold st1; destruct (is_once l);
            [apply link_map_client | apply same_link_refl]).
    pose proof (killed_link _ _ K H1) as K1.
    pose proof (Hrun l st1 K1) as H2.
    destruct (run l st1) as [st2 [e |]]; simpl in H2.
    + eapply same_link_trans; [exact H1 |].
      eapply same_link_trans; [exact H2 | apply link_emit; discriminate].
    + eapply same_link_trans; [exact H1 |].
      eapply same_link_trans; [exact H2 |].
      apply IH. eapply killed_link; [exact K1 | exact H2].
Qed.

Lemma link_fire_callback (i : nat) (a : cb_args) (st : State) :
  same_link st (fire_callback i a st).
Proof.
  unfold fire_callback.
  destruct (inst st) as [conn |]; [| apply same_link_refl].
  destruct (nth_error _ i) as [cb |]; [| apply same_link_refl].
  cbv zeta.
  eapply same_link_trans; [apply link_map_client |].
  destruct cb, a; try apply same_link_refl.
  - apply link_onJoined.
  - apply link_settle.
  - apply link_onWhois.
  - apply link_onNames.
Qed.

Lemma link_upstream_disconnect (reason : string) (st : State) :
  killed st -> same_link st (upstream_disconnect reason st).
Proof.
  intros K. unfold upstream_disconnect.
  destruct (inst st) as [i |] eqn:E; [| apply same_link_refl].
  rewrite (killed_not_alive st i K E). apply same_link_refl.
Qed.

(** In a killed session no event other than the completion of a connect
    attempt touches the handle, revives the connection or writes to the
    wire. *)
Lemma killed_step (ev : event) (st : State) :
  killed st -> not_connect ev -> same_link st (step ev st).
Proof.
  intros K Hev. destruct ev; simpl in *.
  - now apply link_invoke.
  - now apply link_run_next_job.
  - now apply link_fire_timer.
  - now apply link_fire_idle.
  - unfold emit_nick. destruct (inst st); [| apply same_link_refl].
    apply link_dispatch; auto. intros. now apply link_run_nick_listener.
  - unfold emit_error. destruct (inst st); [| apply same_link_refl].
    apply link_dispatch; auto. intros. now apply link_run_error_listener.
  - apply link_fire_callback.
  - apply link_map_client.
  - unfold connect_start. link.
  - contradiction.
  - repeat split.
  - now apply link_upstream_disconnect.
  - repeat split.
Qed.

Lemma killed_run (evs : list event) (st : State) :
  killed st -> Forall not_connect evs -> same_link st (run evs st).
Proof.
  revert st. induction evs as [| ev evs IH]; intros st K H; simpl.
  - apply same_link_refl.
  - inversion H as [| ? ? Hev Hevs]; subst.
    pose proof (killed_step ev st K Hev) as H1.
    eapply same_link_trans; [exact H1 |].
    apply IH; auto. eapply killed_link; eauto.
Qed.

(** [kill] leaves the session killed, whatever it was before. *)
Lemma kill_killed (reason : option string) (st : State) :
  killed (fst (kill reason st)).
Proof.
  unfold kill, disconnect, inst_disconnect. simpl.
  destruct (inst st) as [i |] eqn:Ei; simpl.
  - destruct (dead i) eqn:E; cbn [fst].
    + unfold killed, connected; simpl. rewrite Ei, E. auto.
    + eapply killed_link; [| apply link_onDisconnect].
      unfold killed, connected; simpl. auto.
  - unfold killed, connected; simpl. rewrite Ei. auto.
Qed.

Lemma killed_leaveChannel (channel : string) (reason : option string)
      (st : State) :
  killed st -> leaveChannel_ channel reason st = (st, Ret resolved).
Proof.
  intros K. unfold leaveChannel_. cbv zeta.
  destruct (inst st) as [i |] eqn:E; auto.
  now rewrite (killed_not_alive st i K E).
Qed.

Lemma killed_kick (knick channel : string) (reason : option string)
      (st : State) :
  killed st -> kick knick channel reason st = (st, Ret resolved).
Proof.
  intros K. unfold kick. cbv zeta.
  destruct (inst st) as [i |] eqn:E; auto.
  now rewrite (killed_not_alive st i K E).
Qed.

Lemma killed_disconnect (reason : string) (st : State) :
  killed st -> snd (disconnect reason st) = resolved.
Proof.
  intros K. unfold disconnect. cbv zeta.
  change (inst (set_explicitDisconnect true st)) with (inst st).
  destruct (inst st) as [i |] eqn:E; auto.
  now rewrite (killed_not_alive st i K E).
Qed.

Lemma killed_joinChannel (channel : string) (key : option string) (st : State) :
  killed st ->
  if isPending connectDefer st then
    exists d, snd (joinChannel_ channel key None st) = Deferred d
              /\ isPending d (fst (joinChannel_ channel key None st)) = true
  else joinChannel_ channel key None st
       = (st, Settled (Rejected (Error "No client"))).
Proof.
  intros K. unfold joinChannel_. rewrite (killed_no_client st K). cbv zeta.
  destruct (isPending connectDefer st) eqn:E; auto.
  exists (List.length (defers st)). split; [reflexivity |].
  unfold isPending, get_defer, connectDefer in *. simpl.
  destruct (defers st) as [| [[o |] ws] r]; simpl in *; try discriminate.
  unfold push. simpl.
  rewrite nth_error_app2 by lia. now rewrite Nat.sub_diag.
Qed.

Lemma killed_changeNick (newNick : string) (strict : bool) (st : State) :
  killed st ->
  exists o,
    changeNick newNick strict st = (st, Settled o)
    /\ match getValidNick None newNick strict with
       | Throw e => o = Rejected e
       | Ok validNick =>
           if String.eqb validNick (nick st)
           then o = Resolved (VString ("Your nick is already '"
                                        ++ validNick ++ "'."))
           else o = Rejected (Error "You are not connected to the network.")
       end.
Proof.
  intros K. unfold changeNick. rewrite (killed_no_client st K). simpl.
  destruct (getValidNick None newNick strict) as [v | e]; [| eauto].
  destruct (String.eqb v (nick st)); eauto.
Qed.

(** After [kill], a strict [ChangeNick] with an invalid nick is rejected
    with the validation error of the nick, which is neither a no-op nor a
    lifecycle error. *)
Lemma changeNick_after_kill_validation_error :
  invoke (ChangeNick "1neo" true) killed_session
  = (killed_session,
     Ret (Settled (Rejected (Error "Nick '1neo' must start with a letter."))))
  /\ ~ lifecycle_error (Error "Nick '1neo' must start with a letter.").
Proof.
  split; [reflexivity |]. intros [H | H]; discriminate.
Qed.

(** After [kill] on a session that never connected, a join is queued on
    the connect-ready signal: it neither resolves nor rejects. *)
Example joinChannel_after_kill_before_connect :
  let st := fst (kill None fresh_session) in
  snd (invoke (JoinChannel "#zion" None) st) = Ret (Deferred 1%nat)
  /\ isPending 1 (fst (invoke (JoinChannel "#zion" None) st)) = true.
Proof. by_evaluation. Qed.

(** After [kill], [whois] and [getNicks] dereference the cleared handle;
    the promise is rejected with the TypeError and nothing is sent. *)
Example whois_after_kill :
  invoke (Whois "neo") killed_session
  = (killed_session, Ret (Settled (Rejected (null_client "whois" killed_session))))
  /\ invoke (GetNicks "#zion") killed_session
     = (killed_session, Ret (Settled (Rejected (null_client "names" killed_session)))).
Proof. by_evaluation. Qed.

(** After [kill], a message is rejected with "No client" once the queued
    callbacks have run. *)
Example sendAction_after_kill :
  let action := {| a_type := "message"; a_text := "hello"; a_ts := None |} in
  let r := invoke (SendAction "#zion" action) killed_session in
  snd r = Ret (Deferred 1%nat)
  /\ outcome_of (Deferred 1) (run [EJob; EJob; EJob] (fst r))
     = Some (Rejected (Error "No client"))
  /\ wire (log (run [EJob; EJob; EJob] (fst r))) = wire (log killed_session).
Proof. by_evaluation. Qed.

(** X24: after any [Kill(reason)], and as long as no connect attempt
    completes afterwards, nothing that happens to the session (calls of
    the public operations, timers, upstream events, queued callbacks)
    sends bytes on the wire, and the session stays killed.  In that state
    LeaveChannel and Kick resolve as no-ops, Disconnect resolves,
    JoinChannel is rejected with "No client" once the connect-ready
    signal has settled (before that it is queued on it), and ChangeNick
    resolves with the "already" message or is rejected with the nick's
    validation error or with "You are not connected to the network.". *)
Theorem killed_session_sends_nothing
        (st0 : State) (reason : option string) (evs : list event) :
  Forall not_connect evs ->
  let killed_state := fst (kill reason st0) in
  let st := run evs killed_state in
  wire (log st) = wire (log killed_state)
  /\ killed st
  /\ (forall channel r, invoke (LeaveChannel channel r) st = (st, Ret resolved))
  /\ (forall knick channel r,
         invoke (Kick knick channel r) st = (st, Ret resolved))
  /\ (forall r, snd (invoke (Disconnect r) st) = Ret resolved)
  /\ (forall channel key,
         isPending connectDefer st = false ->
         invoke (JoinChannel channel key) st
         = (st, Ret (Settled (Rejected (Error "No client")))))
  /\ (forall channel key,
         isPending connectDefer st = true ->
         exists d, snd (invoke (JoinChannel channel key) st) = Ret (Deferred d)
                   /\ isPending d (fst (invoke (JoinChannel channel key) st))
                      = true)
  /\ (forall newNick strict,
         exists o,
           invoke (ChangeNick newNick strict) st = (st, Ret (Settled o))
           /\ (o = Resolved (VString ("Your nick is already '" ++ nick st ++ "'."))
               \/ (exists e, o = Rejected e
                             /\ (getValidNick None newNick strict = Throw e
                                 \/ lifecycle_error e)))).
Proof.
  intros Hevs killed_state st.
  pose proof (kill_killed reason st0) as K0.
  pose proof (killed_run evs killed_state K0 Hevs) as L.
  pose proof (killed_link _ _ K0 L) as K.
  fold st in L, K.
  split; [apply L |]. split; [exact K |].
  split; [intros; simpl; now apply killed_leaveChannel |].
  split; [intros; simpl; now apply killed_kick |].
  split; [intros; simpl; f_equal; now apply killed_disconnect |].
  split.
  { intros channel key Hp. simpl.
    pose proof (killed_joinChannel channel key st K) as H.
    rewrite Hp in H. now rewrite H. }
  split.
  { intros channel key Hp. simpl.
    pose proof (killed_joinChannel channel key st K) as H.
    rewrite Hp in H. destruct H as (d & H1 & H2).
    exists d. now rewrite H1. }
  intros newNick strict. simpl.
  destruct (killed_changeNick newNick strict st K) as (o & H1 & H2).
  exists o. rewrite H1. split; [reflexivity |].
  destruct (getValidNick None newNick strict) as [v | e].
  - destruct (String.eqb v (nick st)) eqn:E.
    + apply String.eqb_eq in E. subst v. now left.
    + right. eexists. split; [eassumption |]. right. now right.
  - right. eauto.
Qed.

(** X24 on the example session killed while connected: a message, the
    callbacks queued for it and a late "nick" event send nothing. *)
Lemma killed_session_sends_nothing_witness :
  let killed_state := fst (kill None connected_session) in
  let st := run [ECall (SendAction "#zion"
                          {| a_type := "message"; a_text := "hello";
                             a_ts := None |});
                 EJob; EJob; ENick "trinity" "neo"] killed_state in
  wire (log st) = wire (log killed_state) /\ killed st.
Proof.
  assert (Forall not_connect
            [ECall (SendAction "#zion"
                      {| a_type := "message"; a_text := "hello";
                         a_ts := None |});
             EJob; EJob; ENick "trinity" "neo"]) as H
      by (repeat constructor).
  destruct (killed_session_sends_nothing connected_session None _ H)
    as (H1 & H2 & _).
  split; [exact H1 | exact H2].
Defined.

(** C9, where the code departs from the claim: after any [Kill(reason)],
    and as long as no connect attempt completes afterwards, [Whois] and
    [GetNicks] dereference the cleared handle: the promise they return
    is rejected with the TypeError of that dereference, which is neither
    a no-op nor a lifecycle error.  (Nothing is sent, and the session is
    left as it was.) *)
Theorem whois_after_kill_rejects_with_type_error
        (st0 : State) (reason : option string) (evs : list event)
        (wnick channel : string) :
  Forall not_connect evs ->
  let st := run evs (fst (kill reason st0)) in
  invoke (Whois wnick) st
  = (st, Ret (Settled (Rejected
                         (TypeError "Cannot read property 'whois' of null"))))
  /\ invoke (GetNicks channel) st
     = (st, Ret (Settled (Rejected
                            (TypeError "Cannot read property 'names' of null"))))
  /\ ~ lifecycle_error (TypeError "Cannot read property 'whois' of null")
  /\ ~ lifecycle_error (TypeError "Cannot read property 'names' of null").
Proof.
  intros Hevs st.
  pose proof (kill_killed reason st0) as K0.
  pose proof (killed_link _ _ K0 (killed_run evs _ K0 Hevs)) as K.
  fold st in K.
  pose proof (killed_no_client st K) as Hc. destruct K as [Hu _].
  split; [| split; [| split]].
  - cbn [invoke]. unfold whois, ret, null_client. now rewrite Hc, Hu.
  - cbn [invoke]. unfold getNicks, ret, null_client. now rewrite Hc, Hu.
  - intros [H | H]; discriminate.
  - intros [H | H]; discriminate.
Qed.

(** C9 at the failing input: [Kill()] on the connected example session,
    then [Whois("neo")]. *)
Lemma whois_after_kill_rejects_with_type_error_witness :
  let st := fst (kill None connected_session) in
  invoke (Whois "neo") st
  = (st, Ret (Settled (Rejected
                         (TypeError "Cannot read property 'whois' of null"))))
  /\ ~ lifecycle_error (TypeError "Cannot read property 'whois' of null").
Proof.
  destruct (whois_after_kill_rejects_with_type_error
              connected_session None [] "neo" "#zion" (Forall_nil _))
    as (H1 & _ & H3 & _).
  split; [exact H1 | exact H3].
Defined.

(* ================================================================= *)
(** ** The idle timer *)

(** [_keepAlive] arms the timer with the configured timeout, when that is
    positive. *)
Lemma keepAlive_arms (st : State) :
  0 < getIdleTimeout (server st) ->
  idleTimeout_ (keepAlive st) = Some (getIdleTimeout (server st)).
Proof.
  intros H. unfold keepAlive. cbv zeta.
  change (server (set_lastActionTs (now st) st)) with (server st).
  destruct (getIdleTimeout (server st) >? 0) eqn:E; [reflexivity | lia].
Qed.

(** The expiry of an idle timer that carries the configured timeout,
    read off [_keepAlive]. *)
Lemma idle_timer_expiry (st : State) :
  idleTimeout_ st = Some (getIdleTimeout (server st)) ->
  let spent := set_idleTimeout None st in
  fire_idle st
  = if shouldSyncMembershipToIrc (server st) "initial" then spent
    else if isBot st then spent
    else fst (disconnect ("Idle timeout reached: "
                          ++ string_of_Z (getIdleTimeout (server st)) ++ "s")
                         spent).
Proof.
  intros H. unfold fire_idle. rewrite H. reflexivity.
Qed.

(** The spec's scenario: timeout 300, not the bot, no mirroring.  The
    call of [disconnect] shows as one QUIT with the reason. *)
Lemma idle_timer_expiry_witness :
  fire_idle connected_session
  = fst (disconnect "Idle timeout reached: 300s"
                    (set_idleTimeout None connected_session))
  /\ wire (log (fire_idle connected_session))
     = [QUIT "Idle timeout reached: 300s"].
Proof.
  split.
  - apply (idle_timer_expiry connected_session). vm_compute. reflexivity.
  - vm_compute. reflexivity.
Defined.

(** Flipping either policy of the scenario suppresses the disconnect. *)
Example idle_timer_bot_or_mirror :
  let mirror := {| domain := "irc.example.org";
                   getIdleTimeout := 300;
                   getExpiryTimeSeconds := 0;
                   getUserModes := "";
                   shouldSyncMembershipToIrc := fun _ => true;
                   isExcludedChannel := fun _ => false |} in
  let bot := run [EConnectStart; EConnectCreated example_client]
                 (BridgedClient example_server "trinity" true 0) in
  let mirrored := run [EConnectStart; EConnectCreated example_client]
                      (BridgedClient mirror "trinity" false 0) in
  wire (log (fire_idle bot)) = []
  /\ connected (fire_idle bot) = true
  /\ wire (log (fire_idle mirrored)) = []
  /\ connected (fire_idle mirrored) = true.
Proof. by_evaluation. Qed.

(* ================================================================= *)
(** ** Changing nick *)

Lemma listener_eqb_eq (a b : listener) : listener_eqb a b = true <-> a = b.
Proof.
  split.
  - destruct a, b; simpl; intros H; try discriminate; auto.
    + apply Nat.eqb_eq in H. now subst.
    + apply Nat.eqb_eq in H. now subst.
    + apply andb_true_iff in H as [H1 H2].
      apply Nat.eqb_eq in H1. apply String.eqb_eq in H2. now subst.
  - intros <-. destruct a; simpl; auto using Nat.eqb_refl.
    now rewrite Nat.eqb_refl, String.eqb_refl.
Qed.

Lemma listener_eqb_refl (a : listener) : listener_eqb a a = true.
Proof. now apply listener_eqb_eq. Qed.

Lemma listener_eqb_error_of (d : nat) (a b : listener) :
  error_listener_of d a = true -> error_listener_of d b = false ->
  listener_eqb a b = false.
Proof.
  intros Ha Hb. destruct (listener_eqb a b) eqn:E; auto.
  apply listener_eqb_eq in E. subst. congruence.
Qed.

Lemma registrations_cons (l x : listener) (ls : list listener) :
  registrations l (x :: ls)
  = ((if listener_eqb l x then 1 else 0) + registrations l ls)%nat.
Proof.
  unfold registrations. simpl. now destruct (listener_eqb l x).
Qed.

Lemma registrations_push (l x : listener) (ls : list listener) :
  registrations l (push ls x)
  = (registrations l ls + if listener_eqb l x then 1 else 0)%nat.
Proof.
  unfold registrations, push. rewrite filter_app, length_app. simpl.
  now destruct (listener_eqb l x).
Qed.

Lemma registrations_zero_existsb (l : listener) (ls : list listener) :
  registrations l ls = 0%nat <-> existsb (listener_eqb l) ls = false.
Proof.
  induction ls as [| x r IH]; simpl; [tauto |].
  rewrite registrations_cons.
  destruct (listener_eqb l x); simpl; [split; [lia | discriminate] | exact IH].
Qed.

(** Removing a listener does not change how often another one is
    registered. *)
Lemma registrations_remove_other (l x : listener) (ls : list listener) :
  listener_eqb l x = false ->
  registrations l (remove_listener x ls) = registrations l ls.
Proof.
  intros H. induction ls as [| y r IH]; simpl; auto.
  destruct (listener_eqb x y && negb (existsb (listener_eqb x) r)) eqn:E.
  - apply andb_true_iff in E as [E _]. apply listener_eqb_eq in E. subst y.
    rewrite registrations_cons, H. reflexivity.
  - rewrite !registrations_cons, IH. reflexivity.
Qed.

(** Removing a listener takes away one of its registrations. *)
Lemma registrations_remove_same (l : listener) (ls : list listener) :
  registrations l (remove_listener l ls) = Nat.pred (registrations l ls).
Proof.
  induction ls as [| y r IH]; simpl; auto.
  destruct (listener_eqb l y) eqn:E; simpl.
  - destruct (existsb (listener_eqb l) r) eqn:Ex; simpl.
    + rewrite !registrations_cons, E, IH.
      assert (registrations l r <> 0%nat)
        by (rewrite registrations_zero_existsb; congruence).
      lia.
    + rewrite registrations_cons, E. simpl. reflexivity.
  - rewrite !registrations_cons, E, IH. reflexivity.
Qed.

Lemma getClient_map_client (f : RawClient -> RawClient) (st : State) :
  getClient (map_client f st) = option_map f (getClient st).
Proof.
  unfold getClient, map_client. simpl.
  destruct (unsafeClient st); auto. now destruct (inst st).
Qed.

Lemma getClient_map_client_some (f : RawClient -> RawClient) (st : State) :
  getClient st <> None -> getClient (map_client f st) <> None.
Proof.
  rewrite getClient_map_client. now destruct (getClient st).
Qed.

Lemma nick_listeners_map_client (f : RawClient -> RawClient) (st : State) :
  nick_listeners (map_client f st)
  = match inst st with
    | Some i => c_nickListeners (f (client i))
    | None => []
    end.
Proof. unfold nick_listeners, map_client. simpl. now destruct (inst st). Qed.

Lemma error_listeners_map_client (f : RawClient -> RawClient) (st : State) :
  error_listeners (map_client f st)
  = match inst st with
    | Some i => c_errorListeners (f (client i))
    | None => []
    end.
Proof. unfold error_listeners, map_client. simpl. now destruct (inst st). Qed.

Lemma update_nth_other {A : Type} (f : A -> A) (l : list A) (i j : nat) :
  i <> j -> nth_error (update_nth i f l) j = nth_error l j.
Proof.
  revert i j. induction l as [| x r IH]; intros [| i] [| j] H; simpl; auto;
    try congruence.
Qed.

Lemma update_nth_same {A : Type} (f : A -> A) (l : list A) (i : nat) (x : A) :
  nth_error l i = Some x -> nth_error (update_nth i f l) i = Some (f x).
Proof.
  revert i. induction l as [| y r IH]; intros [| i] H; simpl in *;
    try discriminate; auto.
  now injection H as ->.
Qed.

Lemma get_defer_settle_other (d d' : nat) (o : outcome) (st : State) :
  d' <> d -> get_defer d (settle d' o st) = get_defer d st.
Proof.
  intros H. unfold settle.
  destruct (get_defer d' st) as [[[o' |] ws] |]; auto.
  unfold get_defer. simpl. now apply update_nth_other.
Qed.

Lemma timers_of_clear_other (d d' : nat) (st : State) :
  d' <> d -> timers_of d (clearTimeout d' st) = timers_of d st.
Proof.
  intros H. unfold timers_of, clearTimeout. simpl.
  induction (timers st) as [| t r IH]; simpl; auto.
  destruct (owned_by d' t) eqn:E1; simpl.
  - destruct (owned_by d t) eqn:E2; auto.
    exfalso. unfold owned_by in *.
    destruct (snd t); try discriminate;
      apply Nat.eqb_eq in E1, E2; congruence.
  - destruct (owned_by d t); simpl; now rewrite IH.
Qed.

Lemma timers_of_clear_same (d : nat) (st : State) :
  timers_of d (clearTimeout d st) = [].
Proof.
  unfold timers_of, clearTimeout. simpl.
  induction (timers st) as [| t r IH]; simpl; auto.
  destruct (owned_by d t) eqn:E; simpl; auto. now rewrite E.
Qed.


Lemma apart_refl (d : nat) (st : State) : apart d st st.
Proof. repeat split; auto. Qed.

Lemma apart_trans (d : nat) (a b c : State) :
  apart d a b -> apart d b c -> apart d a c.
Proof.
  intros (H1 & H2 & H3 & H4 & H5) (H6 & H7 & H8 & H9 & H10).
  repeat split; try congruence; auto.
  intros l Hl. rewrite (H10 l Hl). auto.
Qed.

Lemma apart_settle (d d' : nat) (o : outcome) (st : State) :
  d' <> d -> apart d st (settle d' o st).
Proof.
  intros H. split; [| split; [now apply get_defer_settle_other |]];
    unfold settle; destruct (get_defer d' st) as [[[o' |] ws] |];
    repeat split; auto.
Qed.

Lemma apart_clearTimeout (d d' : nat) (st : State) :
  d' <> d -> apart d st (clearTimeout d' st).
Proof.
  intros H. repeat split; auto. now apply timers_of_clear_other.
Qed.

(** Unregistering a listener of another call. *)
Lemma apart_unregister_nick (d : nat) (x : listener) (st : State) :
  listener_eqb (LNickChanged d) x = false ->
  apart d st (map_client (remove_nick_listener x) st).
Proof.
  intros H. split; [apply getClient_map_client_some |].
  split; [reflexivity |]. split; [reflexivity |].
  rewrite nick_listeners_map_client.
  split.
  - unfold nick_listeners. destruct (inst st) as [i |]; simpl; auto.
    now apply registrations_remove_other.
  - intros l Hl. rewrite error_listeners_map_client.
    unfold error_listeners. now destruct (inst st).
Qed.

Lemma apart_unregister_error (d : nat) (x : listener) (st : State) :
  error_listener_of d x = false ->
  apart d st (map_client (remove_error_listener x) st).
Proof.
  intros H. split; [apply getClient_map_client_some |].
  split; [reflexivity |]. split; [reflexivity |].
  rewrite nick_listeners_map_client.
  split.
  - unfold nick_listeners. now destruct (inst st).
  - intros l Hl. rewrite error_listeners_map_client.
    unfold error_listeners. destruct (inst st) as [i |]; simpl; auto.
    apply registrations_remove_other.
    now apply (listener_eqb_error_of d).
Qed.

Lemma apart_emit (d : nat) (e : effect) (st : State) : apart d st (emit e st).
Proof. repeat split; auto. Qed.

Lemma apart_nickTrack (d : nat) (old n : string) (st : State) :
  apart d st (nickTrack old n st).
Proof.
  unfold nickTrack. destruct (String.eqb old (nick st)); repeat split; auto.
Qed.

Lemma apart_errorReport (d : nat) (err : option irc_error) (st : State) :
  apart d st (errorReport err st).
Proof.
  unfold errorReport.
  destruct err as [e |]; [| apply apart_refl].
  destruct (inst st) as [i |]; [| apply apart_refl].
  destruct (_ || _); [apply apart_refl | apply apart_emit].
Qed.

(** The "nick" listener of another nick change. *)
Lemma apart_nickListener (d d' : nat) (old n : string) (st : State) :
  d' <> d -> getClient st <> None ->
  apart d st (fst (nickListener d' old n st))
  /\ snd (nickListener d' old n st) = None.
Proof.
  intros H Hc. unfold nickListener. cbv zeta.
  pose proof (apart_clearTimeout d d' st H) as H1.
  destruct (getClient (clearTimeout d' st)) eqn:E.
  - simpl. split; auto.
    eapply apart_trans; [exact H1 |].
    eapply apart_trans; [| now apply apart_settle].
    apply apart_unregister_error. simpl. now apply Nat.eqb_neq.
  - exfalso. revert E. now apply H1.
Qed.

(** The "error" listener of another nick change. *)
Lemma apart_nickErrListener (d d' : nat) (err : option irc_error) (st : State) :
  d' <> d -> getClient st <> None ->
  apart d st (fst (nickErrListener d' err st))
  /\ snd (nickErrListener d' err st) = None.
Proof.
  intros H Hc. unfold nickErrListener. cbv zeta.
  destruct err as [e |]; [| split; [apply apart_refl | reflexivity]].
  destruct (negb (truthy (command e))); [split; [apply apart_refl | reflexivity] |].
  destruct (includes _ nick_failCodes); [| split; [apply apart_refl | reflexivity]].
  pose proof (apart_clearTimeout d d' st H) as H1.
  destruct (getClient (clearTimeout d' st)) eqn:E.
  - simpl. split; auto.
    eapply apart_trans; [exact H1 |].
    eapply apart_trans; [| now apply apart_settle].
    apply apart_unregister_nick. simpl. apply Nat.eqb_neq. congruence.
  - exfalso. revert E. now apply H1.
Qed.

(** The failure listener of a join. *)
Lemma apart_failFn (d d' : nat) (channel : string) (err : option irc_error)
      (st : State) :
  d' <> d -> apart d st (failFn d' channel err st).
Proof.
  intros H. unfold failFn.
  destruct err as [[cmd [a |]] |]; try apply apart_refl.
  destruct cmd as [cmd |]; try apply apart_refl.
  destruct (_ && _); try apply apart_refl.
  eapply apart_trans; [| apply apart_emit].
  eapply apart_trans; [| apply apart_emit].
  eapply apart_trans; [| now apply apart_settle].
  apply apart_unregister_error. simpl. now apply Nat.eqb_neq.
Qed.

(** One step of an emission of "nick" for a listener other than the
    "nick" listener of [d]: it is unregistered if one-shot, then runs, and
    does not throw. *)
Lemma apart_nick_step (d : nat) (old n : string) (l : listener) (st : State) :
  listener_eqb (LNickChanged d) l = false -> getClient st <> None ->
  let st1 := if is_once l then map_client (remove_nick_listener l) st else st in
  apart d st (fst (run_nick_listener old n l st1))
  /\ snd (run_nick_listener old n l st1) = None.
Proof.
  intros Hl Hc st1.
  assert (apart d st st1) as H1
      by (unfold st1; destruct (is_once l);
          [now apply apart_unregister_nick | apply apart_refl]).
  assert (getClient st1 <> None) as Hc1 by now apply H1.
  destruct l; simpl in *;
    try (split; [exact H1 | reflexivity]).
  - split; [| reflexivity].
    eapply apart_trans; [exact H1 | apply apart_nickTrack].
  - apply Nat.eqb_neq in Hl.
    assert (d0 <> d) as Hd by congruence.
    destruct (apart_nickListener d d0 old n st1 Hd Hc1) as [H2 H3].
    split; [eapply apart_trans; eauto | exact H3].
Qed.

(** The same for an emission of "error" and a listener that is not an
    "error" listener of [d]. *)
Lemma apart_error_step (d : nat) (err : option irc_error) (l : listener)
      (st : State) :
  error_listener_of d l = false -> getClient st <> None ->
  let st1 := if is_once l then map_client (remove_error_listener l) st else st in
  apart d st (fst (run_error_listener err l st1))
  /\ snd (run_error_listener err l st1) = None.
Proof.
  intros Hl Hc st1.
  assert (apart d st st1) as H1
      by (unfold st1; destruct (is_once l);
          [now apply apart_unregister_error | apply apart_refl]).
  assert (getClient st1 <> None) as Hc1 by now apply H1.
  destruct l; simpl in *;
    try (split; [exact H1 | reflexivity]).
  - split; [| reflexivity].
    eapply apart_trans; [exact H1 | apply apart_errorReport].
  - apply Nat.eqb_neq in Hl.
    destruct (apart_nickErrListener d d0 err st1 Hl Hc1) as [H2 H3].
    split; [eapply apart_trans; eauto | exact H3].
  - apply Nat.eqb_neq in Hl. split; [| reflexivity].
    eapply apart_trans; [exact H1 | now apply apart_failFn].
Qed.

Lemma apart_pending (d : nat) (v : string) (st st' : State) :
  apart d st st' -> nick_change_pending d v st -> nick_change_pending d v st'.
Proof.
  intros (A1 & A2 & A3 & A4 & A5) (P1 & P2 & P3 & P4 & P5 & P6).
  unfold nick_change_pending, isPending in *.
  rewrite A2, A3, A4, (A5 (LNickFailed d)) by (simpl; apply Nat.eqb_refl).
  repeat split; auto.
  intros channel. rewrite A5 by (simpl; apply Nat.eqb_refl). auto.
Qed.

Lemma apart_settled (d : nat) (o : outcome) (st st' : State) :
  apart d st st' ->
  nick_change_settled d o st /\ getClient st <> None ->
  nick_change_settled d o st' /\ getClient st' <> None.
Proof.
  intros (A1 & A2 & A3 & A4 & A5) [(P1 & P2 & P3 & P4) Hc].
  unfold nick_change_settled, outcome_of in *.
  rewrite A2, A3, A4, (A5 (LNickFailed d)) by (simpl; apply Nat.eqb_refl).
  repeat split; auto.
Qed.

(** An emission in which exactly one registered listener is "ours": the
    listeners before it keep [Pre], ours turns [Pre] into [Post], the
    listeners after it keep [Post], and none of them throws. *)
Lemma dispatch_two_phase
      (run : listener -> State -> handled)
      (unregister : listener -> RawClient -> RawClient)
      (ours : listener -> bool) (Pre Post : State -> Prop) (ls : list listener) :
  (forall l st, In l ls -> ours l = false -> Pre st ->
     let st1 := if is_once l then map_client (unregister l) st else st in
     Pre (fst (run l st1)) /\ snd (run l st1) = None) ->
  (forall l st, In l ls -> ours l = false -> Post st ->
     let st1 := if is_once l then map_client (unregister l) st else st in
     Post (fst (run l st1)) /\ snd (run l st1) = None) ->
  (forall l st, In l ls -> ours l = true -> Pre st ->
     let st1 := if is_once l then map_client (unregister l) st else st in
     Post (fst (run l st1)) /\ snd (run l st1) = None) ->
  forall st,
    (List.length (filter ours ls) = 1%nat -> Pre st ->
     Post (dispatch run unregister ls st))
    /\ (List.length (filter ours ls) = 0%nat -> Post st ->
        Post (dispatch run unregister ls st)).
Proof.
  induction ls as [| l r IH]; intros Hpre Hpost Hours st.
  - simpl. split; [discriminate | auto].
  - assert (forall st',
               (List.length (filter ours r) = 1%nat -> Pre st' ->
                Post (dispatch run unregister r st'))
               /\ (List.length (filter ours r) = 0%nat -> Post st' ->
                   Post (dispatch run unregister r st'))) as IH'.
    { apply IH; intros; [apply Hpre | apply Hpost | apply Hours];
        auto; now right. }
    simpl. destruct (ours l) eqn:E; simpl.
    + split; [| discriminate].
      intros Hn HP.
      destruct (Hours l st (or_introl eq_refl) E HP) as [H1 H2].
      destruct (run l _) as [st2 [e |]]; simpl in *; [discriminate |].
      apply (proj2 (IH' st2)); auto; lia.
    + split; intros Hn HP.
      * destruct (Hpre l st (or_introl eq_refl) E HP) as [H1 H2].
        destruct (run l _) as [st2 [e |]]; simpl in *; [discriminate |].
        apply (proj1 (IH' st2)); auto.
      * destruct (Hpost l st (or_introl eq_refl) E HP) as [H1 H2].
        destruct (run l _) as [st2 [e |]]; simpl in *; [discriminate |].
        apply (proj2 (IH' st2)); auto.
Qed.

Lemma outcome_of_settle (d : nat) (o : outcome) (st : State) :
  isPending d st = true -> outcome_of (Deferred d) (settle d o st) = Some o.
Proof.
  unfold isPending, outcome_of, settle. intros H.
  destruct (get_defer d st) as [[[o' |] ws] |] eqn:E; try discriminate.
  unfold get_defer in *. simpl.
  now rewrite (update_nth_same _ _ _ _ E).
Qed.

(** Its own "nick" listener settles a pending nick change. *)
Lemma nickListener_settles (d : nat) (v old n : string) (st : State) :
  nick_change_pending d v st ->
  let st1 := map_client (remove_nick_listener (LNickChanged d)) st in
  (nick_change_settled d
     (Resolved (VString ("Nick changed from '" ++ old ++ "' to '" ++ n ++ "'.")))
     (fst (nickListener d old n st1))
   /\ getClient (fst (nickListener d old n st1)) <> None)
  /\ snd (nickListener d old n st1) = None.
Proof.
  intros (P1 & P2 & P3 & P4 & P5 & P6) st1.
  unfold nickListener. cbv zeta.
  assert (getClient (clearTimeout d st1) <> None) as Hc
      by (apply (getClient_map_client_some _ st); exact P1).
  destruct (getClient (clearTimeout d st1)) eqn:E; [| congruence].
  simpl. split; [| reflexivity].
  set (st2 := map_client (remove_error_listener (LNickFailed d))
                         (clearTimeout d st1)).
  assert (isPending d st2 = true) as Hp by exact P2.
  split; [split; [| split; [| split]] |].
  - now apply outcome_of_settle.
  - transitivity (timers_of d (clearTimeout d st1)).
    + unfold settle. now destruct (get_defer d st2) as [[[o' |] ws] |].
    + apply timers_of_clear_same.
  - transitivity (registrations (LNickChanged d) (nick_listeners st1)).
    + unfold settle, nick_listeners.
      destruct (get_defer d st2) as [[[o' |] ws] |]; simpl;
        destruct (inst st); reflexivity.
    + unfold st1. rewrite nick_listeners_map_client.
      unfold nick_listeners in P4. destruct (inst st); auto. simpl.
      rewrite registrations_remove_same, P4. reflexivity.
  - transitivity (registrations (LNickFailed d) (error_listeners st2)).
    + unfold settle, error_listeners.
      destruct (get_defer d st2) as [[[o' |] ws] |]; reflexivity.
    + unfold st2. rewrite error_listeners_map_client.
      unfold error_listeners in P5. simpl. destruct (inst st); auto. simpl.
      rewrite registrations_remove_same. lia.
  - assert (getClient st2 <> None) as Hc2
        by (apply getClient_map_client_some; congruence).
    unfold settle. now destruct (get_defer d st2) as [[[o' |] ws] |].
Qed.

(** Its own "error" listener settles a pending nick change when the error
    carries one of the failure codes. *)
Lemma nickErrListener_settles (d : nat) (v cmd : string) (e : irc_error)
      (st : State) :
  command e = Some cmd -> includes cmd nick_failCodes = true ->
  nick_change_pending d v st
  /\ registrations (LNickFailed d) (error_listeners st) = 1%nat ->
  let st1 := map_client (remove_error_listener (LNickFailed d)) st in
  (nick_change_settled d (Rejected (Error ("Failed to change nick: " ++ cmd)))
     (fst (nickErrListener d (Some e) st1))
   /\ getClient (fst (nickErrListener d (Some e) st1)) <> None)
  /\ snd (nickErrListener d (Some e) st1) = None.
Proof.
  intros Hcmd Hfail [(P1 & P2 & P3 & P4 & P5 & P6) P7] st1.
  unfold nickErrListener. rewrite Hcmd.
  assert (truthy (Some cmd) = true) as Ht
      by (destruct cmd; [discriminate | reflexivity]).
  rewrite Ht. simpl negb. cbv iota.
  assert (or_default (Some cmd) "" = cmd) as ->
      by (destruct cmd; [discriminate | reflexivity]).
  rewrite Hfail. cbv zeta.
  assert (getClient (clearTimeout d st1) <> None) as Hc
      by (apply (getClient_map_client_some _ st); exact P1).
  destruct (getClient (clearTimeout d st1)) eqn:E; [| congruence].
  simpl. split; [| reflexivity].
  set (st2 := map_client (remove_nick_listener (LNickChanged d))
                         (clearTimeout d st1)).
  assert (isPending d st2 = true) as Hp by exact P2.
  split; [split; [| split; [| split]] |].
  - now apply outcome_of_settle.
  - transitivity (timers_of d (clearTimeout d st1)).
    + unfold settle. now destruct (get_defer d st2) as [[[o' |] ws] |].
    + apply timers_of_clear_same.
  - transitivity (registrations (LNickChanged d) (nick_listeners st2)).
    + unfold settle, nick_listeners.
      destruct (get_defer d st2) as [[[o' |] ws] |]; reflexivity.
    + unfold st2. rewrite nick_listeners_map_client.
      unfold nick_listeners in P4. simpl. destruct (inst st); auto. simpl.
      rewrite registrations_remove_same, P4. reflexivity.
  - transitivity (registrations (LNickFailed d) (error_listeners st1)).
    + unfold settle, error_listeners.
      destruct (get_defer d st2) as [[[o' |] ws] |]; simpl;
        destruct (inst st); reflexivity.
    + unfold st1. rewrite error_listeners_map_client.
      unfold error_listeners in P7. destruct (inst st); auto. simpl.
      rewrite registrations_remove_same, P7. reflexivity.
  - assert (getClient st2 <> None) as Hc2
        by (apply getClient_map_client_some; congruence).
    unfold settle. now destruct (get_defer d st2) as [[[o' |] ws] |].
Qed.

Lemma client_inst (st : State) :
  getClient st <> None -> exists i, inst st = Some i.
Proof.
  unfold getClient. destruct (unsafeClient st); try congruence.
  destruct (inst st); [eauto | simpl; congruence].
Qed.

(** A "nick" event settles a pending nick change with the success
    sentence, whatever else is listening. *)
Lemma emit_nick_settles (d : nat) (v old n : string) (st : State) :
  nick_change_pending d v st ->
  nick_change_settled d
    (Resolved (VString ("Nick changed from '" ++ old ++ "' to '" ++ n ++ "'.")))
    (emit_nick old n st).
Proof.
  intros P.
  destruct (client_inst st) as [i Hi]; [apply P |].
  unfold emit_nick. rewrite Hi.
  pose proof P as (_ & _ & _ & P4 & _).
  unfold nick_listeners in P4. rewrite Hi in P4.
  refine (proj1 (proj1 (dispatch_two_phase
           (run_nick_listener old n) remove_nick_listener
           (listener_eqb (LNickChanged d))
           (nick_change_pending d v)
           (fun s => nick_change_settled d
                       (Resolved (VString ("Nick changed from '" ++ old
                                           ++ "' to '" ++ n ++ "'."))) s
                     /\ getClient s <> None)
           (c_nickListeners (client i)) _ _ _ st) P4 P)).
  - intros l s _ Hl Hs.
    destruct (apart_nick_step d old n l s Hl) as [H1 H2]; [apply Hs |].
    split; [| exact H2]. eapply apart_pending; eauto.
  - intros l s _ Hl Hs.
    destruct (apart_nick_step d old n l s Hl) as [H1 H2]; [apply Hs |].
    split; [| exact H2]. eapply apart_settled; eauto.
  - intros l s _ Hl Hs. apply listener_eqb_eq in Hl. subst l. simpl.
    now apply (nickListener_settles d v).
Qed.

Lemma registrations_zero_not_in (l : listener) (ls : list listener) :
  registrations l ls = 0%nat -> ~ In l ls.
Proof.
  induction ls as [| x r IH]; simpl; auto.
  rewrite registrations_cons. intros H [-> | Hin].
  - rewrite listener_eqb_refl in H. discriminate.
  - apply IH; auto. lia.
Qed.

Lemma error_listeners_of_count (d : nat) (ls : list listener) :
  (forall channel, registrations (LJoinFailed d channel) ls = 0%nat) ->
  List.length (filter (error_listener_of d) ls)
  = registrations (LNickFailed d) ls.
Proof.
  induction ls as [| x r IH]; intros H; simpl; auto.
  assert (forall channel, registrations (LJoinFailed d channel) r = 0%nat) as Hr.
  { intros channel. specialize (H channel).
    rewrite registrations_cons in H. lia. }
  rewrite registrations_cons.
  destruct x as [| | d' | d' | d' channel]; simpl; auto.
  - rewrite (Nat.eqb_sym d'). destruct (Nat.eqb d d'); simpl; auto.
  - destruct (Nat.eqb d' d) eqn:E; simpl; auto.
    apply Nat.eqb_eq in E. subst d'.
    specialize (H channel). rewrite registrations_cons in H.
    simpl in H. rewrite Nat.eqb_refl, String.eqb_refl in H. discriminate.
Qed.

(** An "error" event with a failure code settles a pending nick change
    whose "error" listener is still registered. *)
Lemma emit_error_settles (d : nat) (v cmd : string) (e : irc_error)
      (st : State) :
  command e = Some cmd -> includes cmd nick_failCodes = true ->
  nick_change_pending d v st ->
  registrations (LNickFailed d) (error_listeners st) = 1%nat ->
  nick_change_settled d (Rejected (Error ("Failed to change nick: " ++ cmd)))
                      (emit_error (Some e) st).
Proof.
  intros Hcmd Hfail P P7.
  destruct (client_inst st) as [i Hi]; [apply P |].
  unfold emit_error. rewrite Hi.
  pose proof P as (_ & _ & _ & _ & _ & P6).
  unfold error_listeners in P6, P7. rewrite Hi in P6, P7.
  assert (List.length (filter (error_listener_of d)
                                (c_errorListeners (client i))) = 1%nat) as Hone
      by now rewrite error_listeners_of_count.
  assert (registrations (LNickFailed d) (error_listeners st) = 1%nat) as P7'
      by (unfold error_listeners; now rewrite Hi).
  refine (proj1 (proj1 (dispatch_two_phase
           (run_error_listener (Some e)) remove_error_listener
           (error_listener_of d)
           (fun s => nick_change_pending d v s
                     /\ registrations (LNickFailed d) (error_listeners s) = 1%nat)
           (fun s => nick_change_settled d
                       (Rejected (Error ("Failed to change nick: " ++ cmd))) s
                     /\ getClient s <> None)
           (c_errorListeners (client i)) _ _ _ st) Hone (conj P P7'))).
  - intros l s _ Hl [Hs Hs'].
    destruct (apart_error_step d (Some e) l s Hl) as [H1 H2]; [apply Hs |].
    split; [| exact H2]. split; [eapply apart_pending; eauto |].
    destruct H1 as (_ & _ & _ & _ & A5).
    rewrite A5; auto. simpl. apply Nat.eqb_refl.
  - intros l s _ Hl Hs.
    destruct (apart_error_step d (Some e) l s Hl) as [H1 H2]; [apply Hs |].
    split; [| exact H2]. eapply apart_settled; eauto.
  - intros l s Hin Hl Hs.
    assert (l = LNickFailed d) as ->.
    { destruct l as [| | d' | d' | d' channel]; simpl in Hl; try discriminate.
      - apply Nat.eqb_eq in Hl. now subst.
      - apply Nat.eqb_eq in Hl. subst d'.
        destruct (registrations_zero_not_in _ _ (P6 channel) Hin). }
    simpl. now apply (nickErrListener_settles d v).
Qed.

Lemma filter_remove_nth_single {A : Type} (p : A -> bool) (l : list A)
      (i : nat) (x y : A) :
  filter p l = [x] -> nth_error l i = Some y -> p y = true ->
  filter p (remove_nth i l) = [].
Proof.
  revert i. induction l as [| z r IH]; intros [| i] Hf Hn Hy; simpl in *;
    try discriminate.
  - injection Hn as ->. rewrite Hy in Hf. now injection Hf.
  - destruct (p z) eqn:E.
    + injection Hf as _ Hf. exfalso.
      assert (In y (filter p r)) as Hin
          by (apply filter_In; split; [eapply nth_error_In; eauto | auto]).
      now rewrite Hf in Hin.
    + eauto.
Qed.

(** The 10 s timer settles a pending nick change. *)
Lemma nick_timeout_settles (d : nat) (v : string) (i : nat) (delay : Z)
      (st : State) :
  nick_change_pending d v st ->
  nth_error (timers st) i = Some (delay, TNick d v) ->
  nick_change_settled d
    (Rejected (Error "Timed out waiting for a response to change nick."))
    (fire_timer i st).
Proof.
  intros (P1 & P2 & P3 & P4 & P5 & P6) Hi.
  unfold fire_timer. rewrite Hi. cbv zeta.
  set (st0 := set_timers (remove_nth i (timers st)) st).
  unfold onNickTimeout.
  change (getClient st0) with (getClient st).
  destruct (getClient st) as [c |] eqn:E; [| congruence].
  set (st2 := map_client (remove_error_listener (LNickFailed d))
                (map_client (remove_nick_listener (LNickChanged d)) st0)).
  assert (isPending d st2 = true) as Hp by exact P2.
  split; [| split; [| split]].
  - now apply outcome_of_settle.
  - transitivity (timers_of d st0).
    + unfold settle. now destruct (get_defer d st2) as [[[o' |] ws] |].
    + unfold timers_of, st0. simpl.
      eapply filter_remove_nth_single; eauto. simpl. apply Nat.eqb_refl.
  - transitivity (registrations (LNickChanged d) (nick_listeners st2)).
    + unfold settle. now destruct (get_defer d st2) as [[[o' |] ws] |].
    + unfold st2. rewrite nick_listeners_map_client. simpl.
      unfold nick_listeners in P4. destruct (inst st); auto. simpl.
      rewrite registrations_remove_same, P4. reflexivity.
  - transitivity (registrations (LNickFailed d) (error_listeners st2)).
    + unfold settle. now destruct (get_defer d st2) as [[[o' |] ws] |].
    + unfold st2. rewrite error_listeners_map_client. simpl.
      unfold error_listeners in P5. destruct (inst st); auto. simpl.
      rewrite registrations_remove_same. lia.
Qed.

Lemma includes_In (x : string) (l : list string) :
  includes x l = true <-> In x l.
Proof.
  induction l as [| y r IH]; simpl; [split; [discriminate | tauto] |].
  rewrite orb_true_iff, IH, String.eqb_eq. split; intros [H | H]; auto.
Qed.

(** A settled promise ignores later settlements. *)
Lemma settle_settled (d : nat) (o o' : outcome) (st : State) :
  outcome_of (Deferred d) st = Some o -> settle d o' st = st.
Proof.
  unfold outcome_of, settle.
  destruct (get_defer d st) as [[[o'' |] ws] |]; auto; discriminate.
Qed.

Lemma isPending_new_defer (st : State) :
  isPending (List.length (defers st)) (snd (new_defer st)) = true.
Proof.
  unfold isPending, get_defer, new_defer, push. simpl.
  rewrite nth_error_app2 by lia. now rewrite Nat.sub_diag.
Qed.

(** A call of [changeNick] that issues NICK: what it sets up. *)
Lemma changeNick_issues (st : State) (newNick validNick : string)
      (strict : bool) :
  getClient st <> None ->
  getValidNick (option_map c_nicklength (getClient st)) newNick strict
  = Ok validNick ->
  validNick <> nick st ->
  unused_id (List.length (defers st)) st ->
  let d := List.length (defers st) in
  let st1 := fst (changeNick newNick strict st) in
  snd (changeNick newNick strict st) = Deferred d
  /\ log st1 = push (log st) (Wire (NICK validNick))
  /\ nick_change_pending d validNick st1
  /\ registrations (LNickFailed d) (error_listeners st1) = 1%nat.
Proof.
  intros Hc Hv Hne (U1 & U2 & U3 & U4) d st1.
  unfold st1, changeNick. rewrite Hv.
  apply String.eqb_neq in Hne. rewrite Hne.
  destruct (getClient st) as [c |] eqn:Ec; [| congruence].
  destruct (client_inst st) as [i Hi]; [congruence |].
  simpl. split; [reflexivity |]. split; [reflexivity |].
  subst d.
  unfold nick_change_pending, nick_listeners, error_listeners, timers_of,
    isPending, get_defer in *.
  simpl. rewrite Hi in *. simpl.
  rewrite !registrations_push. simpl. rewrite !Nat.eqb_refl.
  unfold push. rewrite filter_app, U1, U2, U3. simpl.
  unfold owned_by. simpl. rewrite Nat.eqb_refl.
  rewrite nth_error_app2 by lia. rewrite Nat.sub_diag. simpl.
  assert (unsafeClient st = HClient) as Hu
      by (unfold getClient in Ec; destruct (unsafeClient st);
          [discriminate | discriminate | reflexivity]).
  split; [| reflexivity].
  split; [unfold getClient; simpl; rewrite Hu, Hi; discriminate |].
  repeat (split; [reflexivity || lia |]).
  intros channel. specialize (U4 channel).
  unfold registrations in *. rewrite filter_app, length_app, U4.
  reflexivity.
Qed.

(** When the handle has been cleared (here by [kill]) before the 10 s
    timer fires, the timeout rejects the promise but leaves both one-shot
    listeners registered on the client object: the timer body guards
    their removal by the handle. *)
Lemma changeNick_timeout_without_handle_keeps_listeners :
  let st := run [ECall (ChangeNick "neo" false); ECall (Kill None); ETimer 0]
                connected_session in
  outcome_of (Deferred 1) st
  = Some (Rejected (Error "Timed out waiting for a response to change nick."))
  /\ nick_listeners st = [LNickTrack; LNickChanged 1]
  /\ error_listeners st = [LErrorReport; LNickFailed 1].
Proof. by_evaluation. Qed.

(** The "nick" listener does not look at the nicks of the event: a
    rename of some other user resolves the pending change as well. *)
Example changeNick_resolved_by_unrelated_rename :
  let st := run [ECall (ChangeNick "neo" false); ENick "smith" "jones"]
                connected_session in
  outcome_of (Deferred 1) st
  = Some (Resolved (VString "Nick changed from 'smith' to 'jones'.")).
Proof. by_evaluation. Qed.

(** C3, the code at the failing input: the "error" listener of a nick
    change is registered with [once], so the first "error" event of any
    kind uses it up.  On a connected session with [ChangeNick("neo")]
    in flight, an unrelated [err_nosuchnick] is followed by
    [err_nicknameinuse]: the promise is not rejected by the failure code
    but stays pending until the 10 s timeout rejects it. *)
Example changeNick_error_listener_used_up :
  let st := run [ECall (ChangeNick "neo" false);
                 EError (Some {| command := Some "err_nosuchnick";
                                 args := Some ["neo"] |});
                 EError (Some {| command := Some "err_nicknameinuse";
                                 args := Some ["neo"] |})]
                connected_session in
  wire (log st) = [NICK "neo"]
  /\ error_listeners st = [LErrorReport]
  /\ isPending 1 st = true
  /\ outcome_of (Deferred 1) (step (ETimer 0) st)
     = Some (Rejected (Error "Timed out waiting for a response to change nick.")).
Proof. by_evaluation. Qed.

(** A "nick" event that arrives after [kill] clears the timer and then
    fails on the cleared handle: the promise is never settled. *)
Example changeNick_nick_event_after_kill :
  let st := run [ECall (ChangeNick "neo" false); ECall (Kill None);
                 ENick "trinity" "neo"] connected_session in
  isPending 1 st = true
  /\ timers st = []
  /\ In (Uncaught (null_client "removeListener" st)) (log st).
Proof.
  cbv zeta. split; [| split]; try (vm_compute; reflexivity).
  vm_compute. auto 10.
Qed.

(** X25: a call [ChangeNick(newNick, strict)] that issues NICK
    sends it once, arms the 10 s timer and registers its two one-shot
    listeners.  From then on, while the raw-client handle stays set, the
    call is settled by whichever of these happens first: a "nick" event
    for the old-to-new transition resolves it with the success sentence;
    an "error" event whose command is one of the eight failure codes,
    reaching the still registered "error" listener, rejects it; the 10 s
    timeout rejects it.  Each of them clears the timer and leaves neither
    listener registered, and a settled promise ignores any further
    settlement. *)
Theorem changeNick_settles_once
        (st : State) (newNick validNick : string) (strict : bool) :
  getClient st <> None ->
  getValidNick (option_map c_nicklength (getClient st)) newNick strict
  = Ok validNick ->
  validNick <> nick st ->
  unused_id (List.length (defers st)) st ->
  let d := List.length (defers st) in
  let st1 := fst (changeNick newNick strict st) in
  snd (changeNick newNick strict st) = Deferred d
  /\ log st1 = push (log st) (Wire (NICK validNick))
  /\ nick_change_pending d validNick st1
  /\ registrations (LNickFailed d) (error_listeners st1) = 1%nat
  /\ forall st',
      nick_change_pending d validNick st' ->
      nick_change_settled d
        (Resolved (VString ("Nick changed from '" ++ nick st' ++ "' to '"
                            ++ validNick ++ "'.")))
        (emit_nick (nick st') validNick st')
      /\ (forall e cmd,
             command e = Some cmd -> In cmd nick_failCodes ->
             registrations (LNickFailed d) (error_listeners st') = 1%nat ->
             nick_change_settled d
               (Rejected (Error ("Failed to change nick: " ++ cmd)))
               (emit_error (Some e) st'))
      /\ (exists i,
             nth_error (timers st') i
             = Some (NICK_DELAY_TIMER_MS, TNick d validNick))
      /\ (forall i delay,
             nth_error (timers st') i = Some (delay, TNick d validNick) ->
             nick_change_settled d
               (Rejected
                  (Error "Timed out waiting for a response to change nick."))
               (fire_timer i st'))
      /\ (forall st'' o o',
             nick_change_settled d o st'' -> settle d o' st'' = st'').
Proof.
  intros Hc Hv Hne Hu d st1.
  destruct (changeNick_issues st newNick validNick strict Hc Hv Hne Hu)
    as (H1 & H2 & H3 & H4).
  repeat (split; [assumption |]).
  intros st' P. split; [now apply (emit_nick_settles d validNick) |].
  split.
  { intros e cmd Hcmd Hin Hreg.
    apply (emit_error_settles d validNick cmd e st'); auto.
    now apply includes_In. }
  split.
  { destruct P as (_ & _ & P3 & _).
    assert (In (NICK_DELAY_TIMER_MS, TNick d validNick) (timers st')) as Hin.
    { assert (In (NICK_DELAY_TIMER_MS, TNick d validNick) (timers_of d st'))
        as Hin by (rewrite P3; now left).
      unfold timers_of in Hin. now apply filter_In in Hin. }
    destruct (In_nth_error _ _ Hin) as [i Hi]. eauto. }
  split.
  { intros i delay Hi. now apply (nick_timeout_settles d validNick i delay). }
  intros st'' o o' (S1 & _). now apply (settle_settled d o).
Qed.

(** X25 on a connected session changing nick to "neo". *)
Lemma changeNick_settles_once_witness :
  let st1 := fst (changeNick "neo" false connected_session) in
  snd (changeNick "neo" false connected_session) = Deferred 1
  /\ wire (log st1) = [NICK "neo"]
  /\ nick_change_settled 1
       (Resolved (VString "Nick changed from 'trinity' to 'neo'."))
       (emit_nick "trinity" "neo" st1).
Proof.
  assert (getClient connected_session <> None) as Hc
      by (vm_compute; discriminate).
  assert (getValidNick
            (option_map c_nicklength (getClient connected_session)) "neo" false
          = Ok "neo") as Hv by (vm_compute; reflexivity).
  assert ("neo" <> nick connected_session) as Hne
      by (vm_compute; discriminate).
  assert (unused_id (List.length (defers connected_session)) connected_session)
    as Hu by (repeat split; intros; vm_compute; reflexivity).
  destruct (changeNick_settles_once connected_session "neo" "neo" false
                                    Hc Hv Hne Hu)
    as (H1 & H2 & H3 & _ & H5).
  split; [exact H1 |]. split; [vm_compute; reflexivity |].
  exact (proj1 (H5 _ H3)).
Defined.


(* ================================================================= *)
(** ** Join rounds *)

Lemma join_count_app (l1 l2 : list effect) :
  join_count (l1 ++ l2) = (join_count l1 + join_count l2)%nat.
Proof.
  induction l1 as [| e r IH]; simpl; auto.
  destruct e as [[] | | |]; simpl; rewrite IH; reflexivity.
Qed.

Lemma list_sum_update_nth {A : Type} (f : A -> nat) (g : A -> A)
      (l : list A) (i : nat) (x : A) :
  nth_error l i = Some x ->
  (list_sum (map f (update_nth i g l)) + f x
   = list_sum (map f l) + f (g x))%nat.
Proof.
  revert i. induction l as [| y r IH]; intros [| i] H; simpl in *;
    try discriminate.
  - injection H as ->. lia.
  - specialize (IH i H). lia.
Qed.

Lemma list_sum_remove_nth {A : Type} (f : A -> nat) (l : list A) (i : nat)
      (x : A) :
  nth_error l i = Some x ->
  (list_sum (map f (remove_nth i l)) + f x = list_sum (map f l))%nat.
Proof.
  revert i. induction l as [| y r IH]; intros [| i] H; simpl in *;
    try discriminate.
  - injection H as ->. lia.
  - specialize (IH i H). lia.
Qed.

Lemma list_sum_filter_le {A : Type} (f : A -> nat) (p : A -> bool) (l : list A) :
  (list_sum (map f (filter p l)) <= list_sum (map f l))%nat.
Proof.
  induction l as [| y r IH]; simpl; auto.
  destruct (p y); simpl; lia.
Qed.

Lemma chain_budget_app (k1 k2 : list frame) :
  chain_budget (k1 ++ k2) = (chain_budget k1 + chain_budget k2)%nat.
Proof. unfold chain_budget. now rewrite map_app, list_sum_app. Qed.

Lemma potential_emit (e : effect) (st : State) :
  join_potential (emit e st)
  = (join_potential st + join_count [e])%nat.
Proof.
  unfold join_potential, emit, push. simpl log. rewrite join_count_app.
  simpl timers. simpl jobs. simpl defers. lia.
Qed.

Lemma potential_emit_other (e : effect) (st : State) :
  (forall a, e <> Wire (JOIN a)) ->
  join_potential (emit e st) = join_potential st.
Proof.
  intros H. rewrite potential_emit.
  destruct e as [[] | | |]; simpl; try lia. now destruct (H arg).
Qed.

Lemma potential_new_defer (st : State) :
  join_potential
    (set_defers (push (defers st) {| d_state := None; d_waiters := [] |}) st)
  = join_potential st.
Proof.
  unfold join_potential, push. simpl.
  rewrite map_app, list_sum_app. simpl. lia.
Qed.

Lemma potential_settle (d : nat) (o : outcome) (st : State) :
  join_potential (settle d o st) = join_potential st.
Proof.
  unfold settle.
  destruct (get_defer d st) as [[[o' |] ws] |] eqn:E; auto.
  unfold join_potential. simpl.
  pose proof (list_sum_update_nth defer_budget
                (fun _ => {| d_state := Some o; d_waiters := [] |})
                (defers st) d _ E) as H.
  rewrite map_app, list_sum_app, map_map.
  unfold defer_budget at 2 4 in H. simpl in H.
  unfold job_of, job_budget. simpl. lia.
Qed.

Lemma potential_then (p : promise) (k : list frame) (t : option nat)
      (st : State) :
  (join_potential (then_ p k t st) <= join_potential st + chain_budget k)%nat.
Proof.
  assert (join_potential (set_jobs (push (jobs st) (k, t, Resolved VUndefined)) st)
          = (join_potential st + chain_budget k)%nat) as Hjob.
  { unfold join_potential, push. simpl.
    rewrite map_app, list_sum_app. simpl. unfold job_budget at 2. simpl. lia. }
  assert (forall o, join_potential (set_jobs (push (jobs st) (k, t, o)) st)
                    = join_potential (set_jobs
                                        (push (jobs st) (k, t, Resolved VUndefined))
                                        st)) as Hany.
  { intros o. unfold join_potential, push. simpl.
    rewrite !map_app. reflexivity. }
  unfold then_.
  destruct p as [o | d].
  - rewrite Hany, Hjob. lia.
  - destruct (get_defer d st) as [[[o' |] ws] |] eqn:E.
    + rewrite Hany, Hjob. lia.
    + unfold join_potential. simpl.
      pose proof (list_sum_update_nth defer_budget
                    (fun _ => {| d_state := None;
                                 d_waiters := push ws (k, t) |})
                    (defers st) d _ E) as H.
      unfold defer_budget at 2 4 in H. simpl in H.
      unfold push in H. rewrite map_app, list_sum_app in H. simpl in H.
      unfold push. lia.
    + lia.
Qed.

Lemma potential_setTimeout (t : timer) (delay : Z) (st : State) :
  join_potential (setTimeout t delay st)
  = (join_potential st + timer_budget (delay, t))%nat.
Proof.
  unfold join_potential, setTimeout, push. simpl.
  rewrite map_app, list_sum_app. simpl. lia.
Qed.

Lemma potential_clearTimeout (d : nat) (st : State) :
  (join_potential (clearTimeout d st) <= join_potential st)%nat.
Proof.
  unfold join_potential, clearTimeout. simpl.
  pose proof (list_sum_filter_le timer_budget
                (fun t => negb (owned_by d t)) (timers st)).
  lia.
Qed.

Lemma potential_map_client (f : RawClient -> RawClient) (st : State) :
  join_potential (map_client f st) = join_potential st.
Proof. reflexivity. Qed.

Lemma potential_addChannel (channel : string) (st : State) :
  join_potential (addChannel channel st) = join_potential st.
Proof. unfold addChannel. now destruct (includes _ _). Qed.

Lemma potential_removeChannel (channel : string) (st : State) :
  join_potential (removeChannel channel st) = join_potential st.
Proof. unfold removeChannel. now destruct (includes _ _). Qed.

Lemma potential_keepAlive (st : State) :
  join_potential (keepAlive st) = join_potential st.
Proof. unfold keepAlive. cbv zeta. now destruct (_ >? 0). Qed.

(** Rewrites the potential of an updated state into the potential of the
    state before the update plus what the update adds, and closes the goal
    by arithmetic. *)
Ltac potential_bound lemma term :=
  let H := fresh "B" in
  let x := fresh "x" in
  pose proof lemma as H;
  set (x := term) in *; clearbody x.

Ltac potential :=
  repeat first
    [ lia
    | rewrite potential_settle in *
    | rewrite potential_setTimeout in *
    | rewrite potential_emit in *
    | rewrite potential_new_defer in *
    | rewrite potential_keepAlive in *
    | rewrite potential_addChannel in *
    | rewrite potential_removeChannel in *
    | match goal with
      | |- context [join_potential (clearTimeout ?d ?b)] =>
          potential_bound (potential_clearTimeout d b)
                          (join_potential (clearTimeout d b))
      | _ : context [join_potential (clearTimeout ?d ?b)] |- _ =>
          potential_bound (potential_clearTimeout d b)
                          (join_potential (clearTimeout d b))
      | |- context [join_potential (then_ ?p ?k ?t ?b)] =>
          potential_bound (potential_then p k t b)
                          (join_potential (then_ p k t b))
      | _ : context [join_potential (then_ ?p ?k ?t ?b)] |- _ =>
          potential_bound (potential_then p k t b)
                          (join_potential (then_ p k t b))
      | |- context [join_potential (if ?c then _ else _)] => destruct c eqn:?
      | _ : context [join_potential (if ?c then _ else _)] |- _ =>
          destruct c eqn:?
      | |- context [join_potential (match ?c with _ => _ end)] =>
          destruct c eqn:?
      | _ : context [join_potential (match ?c with _ => _ end)] |- _ =>
          destruct c eqn:?
      | |- context [join_potential (?f ?v ?b)] =>
          progress change (join_potential (f v b)) with (join_potential b) in *
      | _ : context [join_potential (?f ?v ?b)] |- _ =>
          progress change (join_potential (f v b)) with (join_potential b) in *
      end
    | progress (unfold chain_budget, timer_budget in *;
                cbn [list_sum fold_right map snd fst join_count frame_budget]
                  in *) ].

Lemma potential_onDisconnect (reason : string) (st : State) :
  join_potential (onDisconnect reason st) = join_potential st.
Proof. unfold onDisconnect. cbv zeta. potential. Qed.

Lemma potential_disconnect (reason : string) (st : State) :
  join_potential (fst (disconnect reason st)) = join_potential st.
Proof.
  unfold disconnect, inst_disconnect, send. cbv zeta.
  change (inst (set_explicitDisconnect true st)) with (inst st).
  destruct (inst st) as [i |]; simpl; auto.
  destruct (dead i); simpl; auto.
  rewrite potential_onDisconnect. potential.
Qed.

Lemma potential_kill (reason : option string) (st : State) :
  join_potential (fst (kill reason st)) = join_potential st.
Proof. unfold kill. now rewrite potential_disconnect. Qed.

Lemma potential_onIdleTimeout (n : Z) (st : State) :
  join_potential (onIdleTimeout n st) = join_potential st.
Proof.
  unfold onIdleTimeout.
  destruct (shouldSyncMembershipToIrc _ _); auto.
  destruct (isBot st); auto. apply potential_disconnect.
Qed.

Lemma potential_onJoined (d : nat) (channel : string) (st : State) :
  (join_potential (onJoined d channel st) <= join_potential st)%nat.
Proof. unfold onJoined. potential. Qed.

Lemma potential_failFn (d : nat) (channel : string) (err : option irc_error)
      (st : State) :
  (join_potential (failFn d channel err st) <= join_potential st)%nat.
Proof. unfold failFn. potential. Qed.

Lemma potential_onNickTimeout (d : nat) (st : State) :
  (join_potential (onNickTimeout d st) <= join_potential st)%nat.
Proof. unfold onNickTimeout. cbv zeta. potential. Qed.

Lemma potential_onWhois (d : nat) (wnick : string) (w : whois_reply)
      (st : State) :
  (join_potential (onWhois d wnick w st) <= join_potential st)%nat.
Proof. unfold onWhois. cbv zeta. potential. Qed.

Lemma potential_onNames (d : nat) (channelName : string)
      (names : list (string * string)) (st : State) :
  (join_potential (onNames d channelName names st) <= join_potential st)%nat.
Proof. unfold onNames. cbv zeta. potential. Qed.

Lemma potential_errorReport (err : option irc_error) (st : State) :
  (join_potential (errorReport err st) <= join_potential st)%nat.
Proof. unfold errorReport. potential. Qed.

Lemma potential_nickTrack (old n : string) (st : State) :
  (join_potential (nickTrack old n st) <= join_potential st)%nat.
Proof. unfold nickTrack. potential. Qed.

Lemma potential_nickListener (d : nat) (old n : string) (st : State) :
  (join_potential (fst (nickListener d old n st)) <= join_potential st)%nat.
Proof.
  unfold nickListener. cbv zeta.
  destruct (getClient _); simpl; potential.
Qed.

Lemma potential_nickErrListener (d : nat) (err : option irc_error)
      (st : State) :
  (join_potential (fst (nickErrListener d err st)) <= join_potential st)%nat.
Proof.
  unfold nickErrListener. cbv zeta.
  destruct err as [e |]; cbn [fst]; [| lia].
  destruct (negb (truthy (command e))); cbn [fst]; [lia |].
  destruct (includes (or_default (command e) "") nick_failCodes);
    cbn [fst]; [| lia].
  destruct (getClient (clearTimeout d st)); cbn [fst]; potential.
Qed.

(** [_joinChannel] adds at most the budget of a queued call of it: one
    JOIN and the retries of the timer it arms. *)
Lemma potential_joinChannel (channel : string) (key : option string)
      (a : option Z) (st : State) :
  (join_potential (fst (joinChannel_ channel key a st))
   <= join_potential st + frame_budget (KJoin channel key a))%nat.
Proof.
  unfold joinChannel_. cbv zeta.
  set (a' := match a with Some 0 | None => 1 | Some a0 => a0 end).
  assert (frame_budget (KJoin channel key a) = S (Z.to_nat (5 - a'))) as ->
      by reflexivity.
  assert (frame_budget (KJoin channel key (Some a')) = S (Z.to_nat (5 - a')))
    as Hq by (unfold a'; destruct a as [[| p | p] |]; reflexivity).
  destruct (getClient st) as [c |].
  - destruct (includes channel (c_chans c)); cbn [fst]; [lia |].
    destruct (negb (test_channel_regex channel)); cbn [fst]; [lia |].
    destruct (isExcludedChannel (server st) channel); cbn [fst]; [lia |].
    unfold new_defer, send. cbn [fst]. potential.
  - destruct (isPending connectDefer st); cbn [fst]; [| lia].
    unfold new_defer. cbn [fst].
    match goal with
    | |- context [join_potential (then_ ?p ?k ?t ?b)] =>
        pose proof (potential_then p k t b) as H
    end.
    unfold chain_budget in H. cbn [map list_sum] in H. rewrite Hq in H.
    rewrite potential_new_defer in H. cbn [list_sum fold_right] in H. lia.
Qed.

(** The round timer with attempt count [a] adds at most its budget. *)
Lemma potential_onJoinTimeout (d : nat) (channel : string)
      (key : option string) (a : Z) (st : State) :
  (join_potential (onJoinTimeout d channel key a st)
   <= join_potential st + Z.to_nat (5 - a))%nat.
Proof.
  unfold onJoinTimeout.
  destruct (getClient st) as [c |]; [| lia].
  destruct (isPending d st && includes channel (chanList st)); [| lia].
  destruct (includes channel (c_chans c)); [rewrite potential_settle; lia |].
  destruct (a >=? 5) eqn:E; [rewrite potential_settle; lia |].
  pose proof (potential_joinChannel channel key (Some (a + 1)) st) as H.
  destruct (joinChannel_ channel key (Some (a + 1)) st) as [st' p].
  cbn [fst] in H.
  pose proof (potential_then p [] (Some d) st') as H'.
  unfold chain_budget in H'. cbn [map list_sum fold_right] in H'.
  assert (a < 5) by lia.
  unfold frame_budget in H.
  destruct (a + 1) as [| q | q] eqn:Ea; lia.
Qed.

Lemma potential_leaveChannel (channel : string) (reason : option string)
      (st : State) :
  (join_potential (fst (leaveChannel_ channel reason st)) <= join_potential st)%nat.
Proof.
  unfold leaveChannel_, new_defer, send. cbv zeta.
  destruct (inst st) as [i |]; cbn [fst]; [| lia].
  destruct (dead i); cbn [fst]; [lia |].
  destruct (negb (starts_with "#" channel)); cbn [fst]; [lia |].
  destruct (negb (inChannel channel st)); cbn [fst]; [lia |].
  destruct (getClient _); cbn [fst]; potential;
    rewrite potential_removeChannel; potential.
Qed.

Lemma potential_kick (knick channel : string) (reason : option string)
      (st : State) :
  (join_potential (fst (kick knick channel reason st)) <= join_potential st)%nat.
Proof.
  unfold kick, send. cbv zeta.
  destruct (inst st) as [i |]; cbn [fst]; [| lia].
  destruct (dead i); cbn [fst]; [lia |].
  destruct (getClient st) as [c |]; cbn [fst]; [| lia].
  destruct (negb (includes channel (c_chans c))); cbn [fst]; [lia |].
  destruct (negb (starts_with "#" channel)); cbn [fst]; potential.
Qed.

Lemma potential_changeNick (newNick : string) (strict : bool) (st : State) :
  (join_potential (fst (changeNick newNick strict st)) <= join_potential st)%nat.
Proof.
  unfold changeNick, new_defer, send.
  destruct (getValidNick _ newNick strict) as [v | e]; cbn [fst]; [| lia].
  destruct (String.eqb v (nick st)); cbn [fst]; [lia |].
  destruct (getClient st); cbn [fst]; potential.
Qed.

Lemma potential_whois (wnick : string) (st : State) :
  (join_potential (fst (whois wnick st)) <= join_potential st)%nat.
Proof.
  unfold whois, new_defer, send.
  destruct (getClient st); cbn [fst]; potential.
Qed.

Lemma potential_getNicks (channel : string) (st : State) :
  (join_potential (fst (getNicks channel st)) <= join_potential st)%nat.
Proof.
  unfold getNicks, new_defer, send.
  destruct (getClient st); cbn [fst]; potential.
Qed.

Lemma potential_sendDispatch (msgType channel text : string) (expiryTs : Z)
      (st : State) :
  (join_potential (fst (sendDispatch msgType channel text expiryTs st))
   <= join_potential st)%nat.
Proof.
  unfold sendDispatch, send. cbv zeta.
  destruct (getClient st);
    repeat match goal with
           | |- context [fst (if ?c then _ else _)] => destruct c
           end; cbn [fst]; potential.
Qed.

Lemma potential_computeOperators (channel : string) (cacheMs : option Z)
      (v : value) (st : State) :
  (join_potential (fst (computeOperators channel cacheMs v st))
   <= join_potential st)%nat.
Proof.
  unfold computeOperators, rejected.
  destruct v; cbn [fst]; try lia.
  destruct (filter_operators _ _ _); cbn [fst]; [| lia].
  destruct cacheMs; cbn [fst]; potential.
Qed.

Lemma potential_exec_frame (f : frame) (o : outcome) (st : State) :
  (join_potential (fst (exec_frame f o st)) + handed_on (snd (exec_frame f o st))
   <= join_potential st + frame_budget f)%nat.
Proof.
  unfold exec_frame, rejected.
  destruct o as [v | e]; [| cbn; lia].
  destruct f; cbn [frame_budget].
  - pose proof (potential_joinChannel channel key attemptCount st) as H.
    destruct (joinChannel_ channel key attemptCount st) as [st' p].
    cbn [fst snd handed_on chain_budget map list_sum fold_right] in *.
    unfold frame_budget in H. lia.
  - unfold send. destruct (getClient st); cbn [fst snd handed_on]; potential.
  - pose proof (potential_sendDispatch msgType channel text expiryTs st) as H.
    assert (handed_on (snd (sendDispatch msgType channel text expiryTs st)) = 0%nat)
      as ->.
    { unfold sendDispatch. cbv zeta.
      destruct (getClient st);
        repeat match goal with
               | |- context [snd (if ?c then _ else _)] => destruct c
               end; reflexivity. }
    lia.
  - pose proof (potential_getNicks channel st) as H.
    destruct (getNicks channel st) as [st' p].
    cbn [fst snd handed_on chain_budget map list_sum fold_right] in *. lia.
  - pose proof (potential_leaveChannel channel None st) as H.
    destruct (leaveChannel_ channel None st) as [st' [p | e]];
      cbn [fst snd handed_on chain_budget map list_sum fold_right frame_budget]
        in *; lia.
  - cbn. lia.
  - pose proof (potential_computeOperators channel cacheDurationMs v st) as H.
    assert (handed_on (snd (computeOperators channel cacheDurationMs v st)) = 0%nat)
      as ->.
    { unfold computeOperators, rejected.
      destruct v; try reflexivity.
      destruct (filter_operators _ _ _); reflexivity. }
    lia.
Qed.

(** Running a scheduled chain adds no more than the chain had queued. *)
Lemma potential_run_job (j : job) (st : State) :
  (join_potential (run_job j st) <= join_potential st + job_budget j)%nat.
Proof.
  destruct j as [[k t] o]. unfold run_job, job_budget. cbn [fst].
  destruct k as [| f k'].
  - destruct t; [rewrite potential_settle |]; lia.
  - pose proof (potential_exec_frame f o st) as H.
    destruct (exec_frame f o st) as [st' [p pre | e]];
      cbn [fst snd handed_on] in H.
    + pose proof (potential_then p (pre ++ k')%list t st') as H'.
      rewrite chain_budget_app in H'.
      change (chain_budget (f :: k'))
        with (frame_budget f + chain_budget k')%nat.
      lia.
    + rewrite potential_emit. cbn [join_count].
      change (chain_budget (f :: k'))
        with (frame_budget f + chain_budget k')%nat.
      lia.
Qed.

Lemma potential_run_next_job (st : State) :
  (join_potential (run_next_job st) <= join_potential st)%nat.
Proof.
  unfold run_next_job.
  destruct (jobs st) as [| j r] eqn:E; [lia |].
  pose proof (potential_run_job j (set_jobs r st)) as H.
  assert (join_potential (set_jobs r st) + job_budget j = join_potential st)%nat.
  { unfold join_potential. simpl. rewrite E. simpl. lia. }
  lia.
Qed.

Lemma potential_fire_timer (i : nat) (st : State) :
  (join_potential (fire_timer i st) <= join_potential st)%nat.
Proof.
  unfold fire_timer.
  destruct (nth_error (timers st) i) as [[delay t] |] eqn:E; [| lia].
  cbv zeta.
  set (st' := set_timers (remove_nth i (timers st)) st).
  assert (join_potential st' + timer_budget (delay, t) = join_potential st)%nat
    as Hrm.
  { unfold join_potential, st'. simpl.
    pose proof (list_sum_remove_nth timer_budget (timers st) i _ E). lia. }
  destruct t.
  - pose proof (potential_onJoinTimeout d channel key attemptCount st').
    unfold timer_budget in Hrm. cbn [snd] in Hrm. lia.
  - pose proof (potential_onNickTimeout d st'). lia.
  - unfold onNamesTimeout. rewrite potential_settle. lia.
  - change (join_potential (set_cachedOperatorNicksInfo _ st'))
      with (join_potential st'). lia.
Qed.

Lemma potential_fire_idle (st : State) :
  (join_potential (fire_idle st) <= join_potential st)%nat.
Proof.
  unfold fire_idle. destruct (idleTimeout_ st); [| lia].
  rewrite potential_onIdleTimeout. apply Nat.le_refl.
Qed.

Lemma potential_dispatch (run : listener -> State -> handled)
      (unregister : listener -> RawClient -> RawClient) (ls : list listener) :
  (forall l st, (join_potential (fst (run l st)) <= join_potential st)%nat) ->
  forall st,
    (join_potential (dispatch run unregister ls st) <= join_potential st)%nat.
Proof.
  intros Hrun. induction ls as [| l r IH]; intros st; simpl; [lia |].
  set (st1 := if is_once l then map_client (unregister l) st else st).
  assert (join_potential st1 = join_potential st) as H1
      by (unfold st1; now destruct (is_once l)).
  pose proof (Hrun l st1) as H2.
  destruct (run l st1) as [st2 [e |]]; cbn [fst] in H2.
  - rewrite potential_emit. cbn [join_count]. lia.
  - specialize (IH st2). lia.
Qed.

Lemma potential_fire_callback (i : nat) (a : cb_args) (st : State) :
  (join_potential (fire_callback i a st) <= join_potential st)%nat.
Proof.
  unfold fire_callback.
  destruct (inst st) as [conn |]; [| lia].
  destruct (nth_error _ i) as [cb |]; [| lia].
  cbv zeta.
  match goal with
  | |- context [map_client ?f st] => set (st' := map_client f st)
  end.
  assert (join_potential st' = join_potential st) as H by reflexivity.
  destruct cb as [d channel | d | d wn | d], a; try lia.
  - pose proof (potential_onJoined d channel st'). lia.
  - rewrite potential_settle. lia.
  - pose proof (potential_onWhois d wn w st'). lia.
  - pose proof (potential_onNames d channelName names st'). lia.
Qed.

Lemma potential_connect_shape (s : State) (f g : RawClient -> RawClient)
      (text modes : string) (b : bool) :
  join_potential
    (map_client f
       (map_client g
          (emit (Metadata text false)
                (if b then send (MODE modes) s else s))))
  = join_potential s.
Proof.
  change (join_potential (emit (Metadata text false)
                               (if b then send (MODE modes) s else s))
          = join_potential s).
  rewrite (potential_emit (Metadata text false)). unfold send.
  destruct b; [rewrite (potential_emit (Wire (MODE modes)) s) |];
    cbn [join_count]; lia.
Qed.

Lemma potential_connect_created (c : RawClient) (st : State) :
  (join_potential (connect_created c st) <= join_potential st)%nat.
Proof.
  unfold connect_created.
  match goal with
  | |- (join_potential
          (map_client ?f (map_client ?g
             (emit (Metadata ?text false)
                   (if ?b then send (MODE ?modes) ?s else ?s)))) <= _)%nat =>
      rewrite (potential_connect_shape s f g text modes b)
  end.
  match goal with
  | |- (join_potential (keepAlive ?s) <= _)%nat =>
      rewrite (potential_keepAlive s)
  end.
  match goal with
  | |- (join_potential (settle ?d ?o ?s) <= _)%nat =>
      rewrite (potential_settle d o s)
  end.
  match goal with
  | |- (join_potential (set_nick ?v (emit ?e ?s)) <= _)%nat =>
      change (join_potential (set_nick v (emit e s)))
        with (join_potential (emit e s));
      rewrite (potential_emit e s)
  end.
  cbn [join_count].
  match goal with
  | |- (join_potential (set_unsafeClient ?v (set_inst ?i st)) + _ <= _)%nat =>
      change (join_potential (set_unsafeClient v (set_inst i st)))
        with (join_potential st)
  end.
  lia.
Qed.

(** No event other than a request for a join raises the potential. *)
Lemma potential_step (ev : event) (st : State) :
  no_join_requested ev ->
  (join_potential (step ev st) <= join_potential st)%nat.
Proof.
  intros Hev. destruct ev; simpl in Hev |- *.
  - destruct c; try contradiction; cbn [invoke ret fst].
    + apply potential_leaveChannel.
    + apply potential_changeNick.
    + apply potential_kick.
    + apply potential_whois.
    + apply potential_getNicks.
    + rewrite potential_disconnect. apply Nat.le_refl.
    + rewrite potential_kill. apply Nat.le_refl.
  - apply potential_run_next_job.
  - apply potential_fire_timer.
  - apply potential_fire_idle.
  - unfold emit_nick. destruct (inst st); [| lia].
    apply potential_dispatch. intros l s.
    destruct l; cbn [run_nick_listener fst]; try lia.
    + apply potential_nickTrack.
    + apply potential_nickListener.
  - unfold emit_error. destruct (inst st); [| lia].
    apply potential_dispatch. intros l s.
    destruct l; cbn [run_error_listener fst]; try lia.
    + apply potential_errorReport.
    + apply potential_nickErrListener.
    + apply potential_failFn.
  - apply potential_fire_callback.
  - apply Nat.le_refl.
  - unfold connect_start. rewrite potential_emit. cbn [join_count]. lia.
  - apply potential_connect_created.
  - apply Nat.le_refl.
  - unfold upstream_disconnect. destruct (inst st) as [i |]; [| lia].
    destruct (dead i); [lia |].
    rewrite potential_onDisconnect. apply Nat.le_refl.
  - apply Nat.le_refl.
Qed.

Lemma potential_run (evs : list event) (st : State) :
  Forall no_join_requested evs ->
  (join_potential (run evs st) <= join_potential st)%nat.
Proof.
  revert st. induction evs as [| ev evs IH]; intros st H.
  - apply Nat.le_refl.
  - inversion H as [| ? ? Hev Hevs]; subst.
    change (run (ev :: evs) st) with (run evs (step ev st)).
    pose proof (potential_step ev st Hev). specialize (IH (step ev st) Hevs).
    lia.
Qed.


(* ================================================================= *)
(** ** What every step keeps *)

Lemma evolves_refl (st : State) : evolves st st.
Proof. unfold evolves. intuition. Qed.

Lemma evolves_trans (a b c : State) :
  evolves a b -> evolves b c -> evolves a c.
Proof.
  intros (A1 & A2 & A3 & A4 & A5 & A6) (B1 & B2 & B3 & B4 & B5 & B6).
  unfold evolves. intuition. congruence.
Qed.

(** A step that leaves the constrained fields alone and keeps the
    settled promises. *)
Lemma evolves_fields (st st' : State) :
  server st' = server st ->
  explicitDisconnect st' = explicitDisconnect st ->
  instCreationFailed st' = instCreationFailed st ->
  chanList st' = chanList st ->
  idleTimeout_ st' = idleTimeout_ st ->
  (forall d o, outcome_of (Deferred d) st = Some o ->
               outcome_of (Deferred d) st' = Some o) ->
  evolves st st'.
Proof.
  intros H1 H2 H3 H4 H5 H6. unfold evolves, idle_ok.
  rewrite H1, H2, H3, H4, H5. intuition.
Qed.

Ltac evolves_field :=
  apply evolves_fields; try reflexivity; try (intros ? ? ?; assumption).

Lemma evolves_emit (e : effect) (st : State) : evolves st (emit e st).
Proof. evolves_field. Qed.

Lemma evolves_map_client (f : RawClient -> RawClient) (st : State) :
  evolves st (map_client f st).
Proof. evolves_field. Qed.

Lemma evolves_setTimeout (t : timer) (delay : Z) (st : State) :
  evolves st (setTimeout t delay st).
Proof. evolves_field. Qed.

Lemma evolves_clearTimeout (d : nat) (st : State) :
  evolves st (clearTimeout d st).
Proof. evolves_field. Qed.

Lemma outcome_of_new_defer (d : nat) (o : outcome) (st : State) :
  outcome_of (Deferred d) st = Some o ->
  outcome_of (Deferred d)
    (set_defers (push (defers st) {| d_state := None; d_waiters := [] |}) st)
  = Some o.
Proof.
  unfold outcome_of, get_defer, push. simpl.
  destruct (nth_error (defers st) d) as [s |] eqn:E; [| discriminate].
  intros H. rewrite nth_error_app1; [now rewrite E |].
  apply nth_error_Some. congruence.
Qed.

Lemma evolves_new_defer (st : State) :
  evolves st
    (set_defers (push (defers st) {| d_state := None; d_waiters := [] |}) st).
Proof. evolves_field. intros d o. apply outcome_of_new_defer. Qed.

Lemma outcome_of_settle_kept (d d' : nat) (o o' : outcome) (st : State) :
  outcome_of (Deferred d) st = Some o ->
  outcome_of (Deferred d) (settle d' o' st) = Some o.
Proof.
  intros H. destruct (Nat.eq_dec d' d) as [-> | Hne].
  - now rewrite (settle_settled d o).
  - unfold outcome_of in *. now rewrite get_defer_settle_other.
Qed.

Lemma evolves_settle (d : nat) (o : outcome) (st : State) :
  evolves st (settle d o st).
Proof.
  apply evolves_fields;
    try (unfold settle; now destruct (get_defer d st) as [[[o' |] ws] |]).
  intros d0 o0. apply outcome_of_settle_kept.
Qed.

Lemma evolves_then (p : promise) (k : list frame) (t : option nat)
      (st : State) :
  evolves st (then_ p k t st).
Proof.
  unfold then_.
  destruct p as [o | d]; [evolves_field |].
  destruct (get_defer d st) as [[[o' |] ws] |] eqn:E;
    [evolves_field | | apply evolves_refl].
  evolves_field.
  intros d0 o0. unfold outcome_of, get_defer in *. simpl.
  destruct (Nat.eq_dec d d0) as [<- | Hne].
  - rewrite E. discriminate.
  - now rewrite update_nth_other.
Qed.

Lemma remove_first_In (x y : string) (l : list string) :
  In y (remove_first x l) -> In y l.
Proof.
  induction l as [| z r IH]; simpl; auto.
  destruct (String.eqb x z); simpl; intuition.
Qed.

Lemma remove_first_ok (x : string) (l : list string) :
  chanList_ok l -> chanList_ok (remove_first x l).
Proof.
  intros [Hn Hf]. induction l as [| z r IH]; simpl; [split; auto |].
  inversion Hn as [| ? ? Hz Hr]; subst.
  inversion Hf as [| ? ? Hz' Hr']; subst.
  destruct (String.eqb x z); [split; auto |].
  destruct (IH Hr Hr') as [IH1 IH2].
  split; constructor; auto.
  intros Hin. apply Hz. eapply remove_first_In; eauto.
Qed.

Lemma evolves_removeChannel (channel : string) (st : State) :
  evolves st (removeChannel channel st).
Proof.
  unfold removeChannel.
  destruct (includes channel (chanList st)); [| apply evolves_refl].
  unfold evolves, idle_ok. simpl. intuition. now apply remove_first_ok.
Qed.

Lemma evolves_addChannel (channel : string) (st : State) :
  test_channel_regex channel = true -> evolves st (addChannel channel st).
Proof.
  intros Ht. unfold addChannel.
  destruct (includes channel (chanList st)) eqn:E; [apply evolves_refl |].
  assert (~ In channel (chanList st)) as Hnot.
  { intros Hin. apply includes_In in Hin. congruence. }
  unfold evolves, idle_ok. simpl. intuition.
  destruct H as [Hn Hf]. unfold push. split.
  - apply NoDup_app; auto.
    + constructor; [simpl; tauto | constructor].
    + intros x Hx [<- | []]. contradiction.
  - apply Forall_app. split; auto.
Qed.

Lemma evolves_keepAlive (st : State) : evolves st (keepAlive st).
Proof.
  unfold keepAlive. cbv zeta.
  change (server (set_lastActionTs (now st) st)) with (server st).
  destruct (getIdleTimeout (server st) >? 0) eqn:E; [| evolves_field].
  unfold evolves, idle_ok. simpl. intuition; try lia.
  - congruence.
  - injection H0 as <-. lia.
Qed.

(** Decomposes [evolves a (f (g (... a)))] along the updates applied. *)
Ltac evolve :=
  repeat first
    [ apply evolves_refl
    | match goal with
      | |- evolves ?a (settle _ _ ?b) =>
          apply (evolves_trans a b); [| apply evolves_settle]
      | |- evolves ?a (then_ _ _ _ ?b) =>
          apply (evolves_trans a b); [| apply evolves_then]
      | |- evolves ?a (setTimeout _ _ ?b) =>
          apply (evolves_trans a b); [| apply evolves_setTimeout]
      | |- evolves ?a (clearTimeout _ ?b) =>
          apply (evolves_trans a b); [| apply evolves_clearTimeout]
      | |- evolves ?a (map_client _ ?b) =>
          apply (evolves_trans a b); [| apply evolves_map_client]
      | |- evolves ?a (emit _ ?b) =>
          apply (evolves_trans a b); [| apply evolves_emit]
      | |- evolves ?a (send _ ?b) =>
          apply (evolves_trans a b); [| apply evolves_emit]
      | |- evolves ?a (removeChannel _ ?b) =>
          apply (evolves_trans a b); [| apply evolves_removeChannel]
      | |- evolves ?a (addChannel _ ?b) =>
          apply (evolves_trans a b); [| apply evolves_addChannel; assumption]
      | |- evolves ?a (keepAlive ?b) =>
          apply (evolves_trans a b); [| apply evolves_keepAlive]
      | |- evolves ?a (set_defers (push (defers ?b) _) ?b) =>
          apply (evolves_trans a b); [| apply evolves_new_defer]
      | |- evolves ?a (if ?c then _ else _) => destruct c eqn:?
      | |- evolves ?a (match ?c with _ => _ end) => destruct c eqn:?
      | |- evolves ?a (?f _ ?b) =>
          apply (evolves_trans a b);
          [| solve [apply evolves_fields; try reflexivity;
                    try (intros ? ? ?; assumption)
                   | unfold evolves, idle_ok; simpl; intuition;
                     discriminate ]]
      end ].

Lemma evolves_onDisconnect (reason : string) (st : State) :
  evolves st (onDisconnect reason st).
Proof. unfold onDisconnect. cbv zeta. evolve. Qed.

Lemma evolves_disconnect (reason : string) (st : State) :
  evolves st (fst (disconnect reason st)).
Proof.
  unfold disconnect, inst_disconnect. cbv zeta.
  change (inst (set_explicitDisconnect true st)) with (inst st).
  destruct (inst st) as [i |]; cbn [fst]; [destruct (dead i); cbn [fst] |];
    try (eapply evolves_trans; [| apply evolves_onDisconnect]);
    evolve.
Qed.

Lemma evolves_kill (reason : option string) (st : State) :
  evolves st (fst (kill reason st)).
Proof.
  unfold kill.
  apply (evolves_trans _ (set_unsafeClient HNull st));
    [evolves_field | apply evolves_disconnect].
Qed.

Lemma evolves_onIdleTimeout (n : Z) (st : State) :
  evolves st (onIdleTimeout n st).
Proof.
  unfold onIdleTimeout.
  destruct (shouldSyncMembershipToIrc _ _); [apply evolves_refl |].
  destruct (isBot st); [apply evolves_refl | apply evolves_disconnect].
Qed.

Lemma evolves_joinChannel (channel : string) (key : option string)
      (a : option Z) (st : State) :
  evolves st (fst (joinChannel_ channel key a st)).
Proof.
  unfold joinChannel_, new_defer. cbv zeta.
  destruct (getClient st) as [c |].
  - destruct (includes channel (c_chans c)); cbn [fst]; [apply evolves_refl |].
    destruct (test_channel_regex channel) eqn:Et; cbn [negb fst];
      [| apply evolves_refl].
    destruct (isExcludedChannel (server st) channel); cbn [fst];
      [apply evolves_refl |].
    evolve.
  - destruct (isPending connectDefer st); cbn [fst]; evolve.
Qed.

Lemma evolves_onJoined (d : nat) (channel : string) (st : State) :
  evolves st (onJoined d channel st).
Proof. unfold onJoined. evolve. Qed.

Lemma evolves_failFn (d : nat) (channel : string) (err : option irc_error)
      (st : State) :
  evolves st (failFn d channel err st).
Proof. unfold failFn. evolve. Qed.

Lemma evolves_pair_then {A B : Type} (a : State) (e : State * A)
      (body : State -> A -> State * B) :
  evolves a (fst e) ->
  (forall s x, evolves s (fst (body s x))) ->
  evolves a (fst (let (s, x) := e in body s x)).
Proof.
  destruct e as [s x]. cbn [fst]. intros H1 H2.
  eapply evolves_trans; eauto.
Qed.

Lemma evolves_onJoinTimeout (d : nat) (channel : string)
      (key : option string) (a : Z) (st : State) :
  evolves st (onJoinTimeout d channel key a st).
Proof.
  unfold onJoinTimeout.
  destruct (getClient st) as [c |]; [| apply evolves_refl].
  destruct (_ && _); [| apply evolves_refl].
  destruct (includes channel (c_chans c)); [apply evolves_settle |].
  destruct (a >=? 5); [apply evolves_settle |].
  pose proof (evolves_joinChannel channel key (Some (a + 1)) st) as H.
  destruct (joinChannel_ channel key (Some (a + 1)) st) as [st' p].
  eapply evolves_trans; [exact H | apply evolves_then].
Qed.

Lemma evolves_leaveChannel (channel : string) (reason : option string)
      (st : State) :
  evolves st (fst (leaveChannel_ channel reason st)).
Proof.
  unfold leaveChannel_, new_defer. cbv zeta.
  destruct (inst st) as [i |]; cbn [fst]; [| apply evolves_refl].
  destruct (dead i); cbn [fst]; [apply evolves_refl |].
  destruct (negb (starts_with "#" channel)); cbn [fst]; [apply evolves_refl |].
  destruct (negb (inChannel channel st)); cbn [fst]; [apply evolves_refl |].
  destruct (getClient _); cbn [fst]; evolve.
Qed.

Lemma evolves_kick (knick channel : string) (reason : option string)
      (st : State) :
  evolves st (fst (kick knick channel reason st)).
Proof.
  unfold kick. cbv zeta.
  destruct (inst st) as [i |]; cbn [fst]; [| apply evolves_refl].
  destruct (dead i); cbn [fst]; [apply evolves_refl |].
  destruct (getClient st) as [c |]; cbn [fst]; [| apply evolves_refl].
  destruct (negb (includes channel (c_chans c))); cbn [fst];
    [apply evolves_refl |].
  destruct (negb (starts_with "#" channel)); cbn [fst]; evolve.
Qed.

Lemma evolves_changeNick (newNick : string) (strict : bool) (st : State) :
  evolves st (fst (changeNick newNick strict st)).
Proof.
  unfold changeNick, new_defer.
  destruct (getValidNick _ newNick strict) as [v | e]; cbn [fst];
    [| apply evolves_refl].
  destruct (String.eqb v (nick st)); cbn [fst]; [apply evolves_refl |].
  destruct (getClient st); cbn [fst]; evolve.
Qed.

Lemma evolves_nickListener (d : nat) (old n : string) (st : State) :
  evolves st (fst (nickListener d old n st)).
Proof.
  unfold nickListener. cbv zeta.
  destruct (getClient (clearTimeout d st)); cbn [fst]; evolve.
Qed.

Lemma evolves_nickErrListener (d : nat) (err : option irc_error)
      (st : State) :
  evolves st (fst (nickErrListener d err st)).
Proof.
  unfold nickErrListener. cbv zeta.
  destruct err as [e |]; cbn [fst]; [| apply evolves_refl].
  destruct (negb (truthy (command e))); cbn [fst]; [apply evolves_refl |].
  destruct (includes (or_default (command e) "") nick_failCodes);
    cbn [fst]; [| apply evolves_refl].
  destruct (getClient (clearTimeout d st)); cbn [fst]; evolve.
Qed.

Lemma evolves_onNickTimeout (d : nat) (st : State) :
  evolves st (onNickTimeout d st).
Proof. unfold onNickTimeout. cbv zeta. evolve. Qed.

Lemma evolves_whois (wnick : string) (st : State) :
  evolves st (fst (whois wnick st)).
Proof.
  unfold whois, new_defer. destruct (getClient st); cbn [fst]; evolve.
Qed.

Lemma evolves_onWhois (d : nat) (wnick : string) (w : whois_reply)
      (st : State) :
  evolves st (onWhois d wnick w st).
Proof.
  unfold onWhois. cbv zeta.
  destruct (negb (truthy (w_user w))); apply evolves_settle.
Qed.

Lemma evolves_getNicks (channel : string) (st : State) :
  evolves st (fst (getNicks channel st)).
Proof.
  unfold getNicks, new_defer. destruct (getClient st); cbn [fst]; evolve.
Qed.

Lemma evolves_onNames (d : nat) (channelName : string)
      (names : list (string * string)) (st : State) :
  evolves st (onNames d channelName names st).
Proof. unfold onNames. cbv zeta. evolve. Qed.

Lemma evolves_setTopic (channel topic : string) (st : State) :
  evolves st (fst (setTopic channel topic st)).
Proof.
  unfold setTopic.
  apply evolves_pair_then; [apply evolves_joinChannel |].
  intros s p. unfold new_defer. cbn [fst]. evolve.
Qed.

Lemma evolves_sendMessage (channel msgType text : string) (expiryTs : Z)
      (st : State) :
  evolves st (fst (sendMessage channel msgType text expiryTs st)).
Proof. unfold sendMessage, new_defer. cbn [fst]. evolve. Qed.

Lemma evolves_sendAction (channel : string) (action : Action) (st : State) :
  evolves st (fst (sendAction channel action st)).
Proof.
  unfold sendAction. cbv zeta.
  pose proof (evolves_keepAlive st) as Hk.
  repeat match goal with
         | |- evolves _ (fst (if ?c then _ else _)) => destruct c
         end;
    (eapply evolves_trans; [exact Hk |]);
    try apply evolves_sendMessage; try apply evolves_setTopic.
  apply evolves_refl.
Qed.

Lemma evolves_getOperators (channel : string) (opts : opts_arg) (st : State) :
  evolves st (fst (getOperators channel opts st)).
Proof.
  unfold getOperators.
  destruct opts as [| | key cacheMs]; try apply evolves_refl.
  destruct key; try apply evolves_refl;
    destruct cacheMs; try apply evolves_refl; cbv zeta;
    repeat match goal with
           | |- evolves _ (fst (match (if ?c then _ else _) with _ => _ end)) =>
               destruct c
           | |- evolves _ (fst (match cache_get ?c ?m with _ => _ end)) =>
               destruct (cache_get c m)
           end;
    try apply evolves_refl;
    (apply evolves_pair_then;
     [apply evolves_joinChannel
     | intros s' p'; unfold new_defer; cbn [fst]; evolve]).
Qed.

Lemma evolves_invoke (c : call) (st : State) : evolves st (fst (invoke c st)).
Proof.
  destruct c; cbn [invoke ret fst].
  - apply evolves_joinChannel.
  - apply evolves_leaveChannel.
  - apply evolves_changeNick.
  - apply evolves_sendAction.
  - apply evolves_kick.
  - apply evolves_whois.
  - apply evolves_getNicks.
  - apply evolves_getOperators.
  - apply evolves_disconnect.
  - apply evolves_kill.
Qed.

Lemma evolves_sendDispatch (msgType channel text : string) (expiryTs : Z)
      (st : State) :
  evolves st (fst (sendDispatch msgType channel text expiryTs st)).
Proof.
  unfold sendDispatch. cbv zeta.
  destruct (getClient st);
    repeat match goal with
           | |- evolves _ (fst (if ?c then _ else _)) => destruct c
           end; cbn [fst]; evolve.
Qed.

Lemma evolves_computeOperators (channel : string) (cacheMs : option Z)
      (v : value) (st : State) :
  evolves st (fst (computeOperators channel cacheMs v st)).
Proof.
  unfold computeOperators, rejected.
  destruct v; cbn [fst]; try apply evolves_refl.
  destruct (filter_operators _ _ _); cbn [fst]; [| apply evolves_refl].
  destruct cacheMs; cbn [fst]; evolve.
Qed.

Lemma evolves_exec_frame (f : frame) (o : outcome) (st : State) :
  evolves st (fst (exec_frame f o st)).
Proof.
  unfold exec_frame, rejected.
  destruct o as [v | e]; [| apply evolves_refl].
  destruct f.
  - apply evolves_pair_then; [apply evolves_joinChannel |].
    intros; apply evolves_refl.
  - destruct (getClient st); cbn [fst]; evolve.
  - apply evolves_sendDispatch.
  - apply evolves_pair_then; [apply evolves_getNicks |].
    intros; apply evolves_refl.
  - pose proof (evolves_leaveChannel channel None st) as H.
    destruct (leaveChannel_ channel None st) as [st' [p | e]]; exact H.
  - apply evolves_refl.
  - apply evolves_computeOperators.
Qed.

Lemma evolves_run_job (j : job) (st : State) : evolves st (run_job j st).
Proof.
  destruct j as [[k t] o]. unfold run_job.
  destruct k as [| f k'].
  - destruct t; evolve.
  - pose proof (evolves_exec_frame f o st) as H.
    destruct (exec_frame f o st) as [st' [p pre | e]]; cbn [fst] in H.
    + eapply evolves_trans; [exact H | apply evolves_then].
    + eapply evolves_trans; [exact H | apply evolves_emit].
Qed.

Lemma evolves_run_next_job (st : State) : evolves st (run_next_job st).
Proof.
  unfold run_next_job.
  destruct (jobs st) as [| j r]; [apply evolves_refl |].
  apply (evolves_trans _ (set_jobs r st)); [evolves_field |].
  apply evolves_run_job.
Qed.

Lemma evolves_fire_timer (i : nat) (st : State) : evolves st (fire_timer i st).
Proof.
  unfold fire_timer.
  destruct (nth_error (timers st) i) as [[delay t] |]; [| apply evolves_refl].
  cbv zeta.
  apply (evolves_trans _ (set_timers (remove_nth i (timers st)) st));
    [evolves_field |].
  destruct t.
  - apply evolves_onJoinTimeout.
  - apply evolves_onNickTimeout.
  - apply evolves_settle.
  - evolves_field.
Qed.

Lemma evolves_fire_idle (st : State) : evolves st (fire_idle st).
Proof.
  unfold fire_idle.
  destruct (idleTimeout_ st) as [n |]; [| apply evolves_refl].
  apply (evolves_trans _ (set_idleTimeout None st));
    [| apply evolves_onIdleTimeout].
  unfold evolves, idle_ok. simpl. intuition; discriminate.
Qed.

Lemma evolves_dispatch (run : listener -> State -> handled)
      (unregister : listener -> RawClient -> RawClient) (ls : list listener) :
  (forall l st, evolves st (fst (run l st))) ->
  forall st, evolves st (dispatch run unregister ls st).
Proof.
  intros Hrun. induction ls as [| l r IH]; intros st; simpl.
  - apply evolves_refl.
  - set (st1 := if is_once l then map_client (unregister l) st else st).
    assert (evolves st st1) as H1
        by (unfold st1; destruct (is_once l);
            [apply evolves_map_client | apply evolves_refl]).
    pose proof (Hrun l st1) as H2.
    destruct (run l st1) as [st2 [e |]]; cbn [fst] in H2.
    + eapply evolves_trans; [exact H1 |].
      eapply evolves_trans; [exact H2 | apply evolves_emit].
    + eapply evolves_trans; [exact H1 |].
      eapply evolves_trans; [exact H2 | apply IH].
Qed.

Lemma evolves_fire_callback (i : nat) (a : cb_args) (st : State) :
  evolves st (fire_callback i a st).
Proof.
  unfold fire_callback.
  destruct (inst st) as [conn |]; [| apply evolves_refl].
  destruct (nth_error _ i) as [cb |]; [| apply evolves_refl].
  cbv zeta.
  eapply evolves_trans; [apply evolves_map_client |].
  destruct cb as [d channel | d | d wn | d], a; try apply evolves_refl.
  - apply evolves_onJoined.
  - apply evolves_settle.
  - apply evolves_onWhois.
  - apply evolves_onNames.
Qed.

Lemma evolves_connect_created (c : RawClient) (st : State) :
  evolves st (connect_created c st).
Proof.
  unfold connect_created.
  match goal with
  | |- evolves _ (map_client ?f (map_client ?g (emit ?e ?s))) =>
      apply (evolves_trans _ s);
      [| apply (evolves_trans _ (emit e s)); [apply evolves_emit |];
         apply (evolves_trans _ (map_client g (emit e s)));
         apply evolves_map_client]
  end.
  match goal with
  | |- evolves _ (if ?b then send ?m ?s else ?s) =>
      apply (evolves_trans _ s); [| destruct b; [apply evolves_emit
                                                | apply evolves_refl]]
  end.
  match goal with
  | |- evolves _ (keepAlive ?s) =>
      apply (evolves_trans _ s); [| apply evolves_keepAlive]
  end.
  match goal with
  | |- evolves _ (settle ?d ?o ?s) =>
      apply (evolves_trans _ s); [| apply evolves_settle]
  end.
  evolves_field.
Qed.

(** Every event keeps what [evolves] lists. *)
Lemma evolves_step (ev : event) (st : State) : evolves st (step ev st).
Proof.
  destruct ev; cbn [step].
  - apply evolves_invoke.
  - apply evolves_run_next_job.
  - apply evolves_fire_timer.
  - apply evolves_fire_idle.
  - unfold emit_nick. destruct (inst st); [| apply evolves_refl].
    apply evolves_dispatch. intros l s.
    destruct l; cbn [run_nick_listener fst]; try apply evolves_refl.
    + unfold nickTrack. destruct (String.eqb old (nick s)); evolve.
    + apply evolves_nickListener.
  - unfold emit_error. destruct (inst st); [| apply evolves_refl].
    apply evolves_dispatch. intros l s.
    destruct l; cbn [run_error_listener fst]; try apply evolves_refl.
    + unfold errorReport. evolve.
    + apply evolves_nickErrListener.
    + apply evolves_failFn.
  - apply evolves_fire_callback.
  - apply evolves_map_client.
  - apply evolves_emit.
  - apply evolves_connect_created.
  - unfold connect_failed, evolves, idle_ok. simpl. intuition.
  - unfold upstream_disconnect.
    destruct (inst st) as [i |]; [| apply evolves_refl].
    destruct (dead i); [apply evolves_refl |].
    eapply evolves_trans; [| apply evolves_onDisconnect]. evolves_field.
  - evolves_field.
Qed.

Lemma evolves_run (evs : list event) (st : State) : evolves st (run evs st).
Proof.
  revert st. induction evs as [| ev evs IH]; intros st.
  - apply evolves_refl.
  - change (run (ev :: evs) st) with (run evs (step ev st)).
    eapply evolves_trans; [apply evolves_step | apply IH].
Qed.

(* ================================================================= *)
(** ** Invariants of every reachable session *)

Lemma initial_evolves_ok (srv : IrcServer) (desiredNick : string)
      (bot : bool) (t : Z) :
  chanList_ok (chanList (BridgedClient srv desiredNick bot t))
  /\ idle_ok (BridgedClient srv desiredNick bot t).
Proof.
  split.
  - split; constructor.
  - intros n H. discriminate.
Qed.

(** X1: in every state a session can reach from its construction,
    [chanList] holds no name twice and every name in it contains one of
    [# ! & +], the test [_joinChannel] applies before [_addChannel]. *)
Theorem chanList_stays_well_formed
        (srv : IrcServer) (desiredNick : string) (bot : bool) (t : Z)
        (evs : list event) :
  chanList_ok (chanList (run evs (BridgedClient srv desiredNick bot t))).
Proof.
  destruct (evolves_run evs (BridgedClient srv desiredNick bot t))
    as (_ & _ & _ & _ & H & _).
  apply H. apply initial_evolves_ok.
Qed.

(** X2: once [disconnect] or [kill] has been called, [explicitDisconnect]
    is true and nothing that happens later resets it. *)
Theorem explicitDisconnect_is_final
        (st : State) (reason : string) (kreason : option string)
        (evs : list event) :
  explicitDisconnect (run evs (fst (disconnect reason st))) = true
  /\ explicitDisconnect (run evs (fst (kill kreason st))) = true.
Proof.
  assert (forall r s, explicitDisconnect (fst (disconnect r s)) = true) as Hd.
  { intros r s. unfold disconnect, inst_disconnect. cbv zeta.
    change (inst (set_explicitDisconnect true s)) with (inst s).
    destruct (inst s) as [i |]; [destruct (dead i) |]; try reflexivity.
    unfold onDisconnect. cbv zeta. cbn [fst].
    destruct (String.eqb r "banned"); reflexivity. }
  split.
  - destruct (evolves_run evs (fst (disconnect reason st)))
      as (_ & H & _). apply H, Hd.
  - destruct (evolves_run evs (fst (kill kreason st))) as (_ & H & _).
    apply H. unfold kill. apply Hd.
Qed.

(** X4: in every state a session can reach from its construction, an
    armed idle timer carries the idle timeout the server is configured
    with, and that timeout is positive. *)
Theorem idle_timer_carries_configured_timeout
        (srv : IrcServer) (desiredNick : string) (bot : bool) (t : Z)
        (evs : list event) (n : Z) :
  idleTimeout_ (run evs (BridgedClient srv desiredNick bot t)) = Some n ->
  n = getIdleTimeout srv /\ 0 < n.
Proof.
  destruct (evolves_run evs (BridgedClient srv desiredNick bot t))
    as (Hs & _ & _ & _ & _ & H).
  intros Hn. destruct (H (proj2 (initial_evolves_ok _ _ _ _)) n Hn) as [H1 H2].
  rewrite Hs in H1. auto.
Qed.

(** X4 on the example session after it connected. *)
Lemma idle_timer_carries_configured_timeout_witness :
  idleTimeout_ connected_session = Some 300
  /\ 300 = getIdleTimeout example_server /\ 0 < 300.
Proof.
  assert (idleTimeout_ connected_session = Some 300) as H
      by (vm_compute; reflexivity).
  split; [exact H |].
  exact (idle_timer_carries_configured_timeout
           example_server "trinity" false 0
           [EConnectStart; EConnectCreated example_client] 300 H).
Defined.

(* ================================================================= *)
(** ** Join rounds *)

(** X5: when nothing that could still send a JOIN is in flight, one call
    of [_joinChannel] causes at most five JOIN commands, whatever timers,
    callbacks, upstream events and other calls (those that do not
    themselves ask for a join) follow it. *)
Theorem joinChannel_sends_at_most_five_joins
        (st : State) (channel : string) (key : option string)
        (evs : list event) :
  join_potential st = join_count (log st) ->
  Forall no_join_requested evs ->
  (join_count (log (run evs (fst (joinChannel_ channel key None st))))
   <= join_count (log st) + 5)%nat.
Proof.
  intros H0 Hevs.
  pose proof (potential_run evs (fst (joinChannel_ channel key None st)) Hevs)
    as H1.
  pose proof (potential_joinChannel channel key None st) as H2.
  change (frame_budget (KJoin channel key None)) with 5%nat in H2.
  unfold join_potential in H1 at 1. lia.
Qed.

(** X5 on the example session: six expiries of the round timer after a
    join give five JOINs, the bound. *)
Lemma joinChannel_sends_at_most_five_joins_witness :
  join_count
    (log (run [ETimer 0; ETimer 0; ETimer 0; ETimer 0; ETimer 0; ETimer 0]
              (fst (joinChannel_ "#zion" None None connected_session))))
  = 5%nat
  /\ (join_count
        (log (run [ETimer 0; ETimer 0; ETimer 0; ETimer 0; ETimer 0; ETimer 0]
                  (fst (joinChannel_ "#zion" None None connected_session))))
      <= join_count (log connected_session) + 5)%nat.
Proof.
  split; [vm_compute; reflexivity |].
  apply joinChannel_sends_at_most_five_joins.
  - vm_compute; reflexivity.
  - repeat constructor.
Defined.

(* ================================================================= *)
(** ** Upstream events *)

Lemma link_nickListener_any (d : nat) (old n : string) (st : State) :
  same_link st (fst (nickListener d old n st)).
Proof.
  unfold nickListener. cbv zeta.
  destruct (getClient (clearTimeout d st)); cbn [fst]; link.
Qed.

Lemma link_nickErrListener_any (d : nat) (err : option irc_error)
      (st : State) :
  same_link st (fst (nickErrListener d err st)).
Proof.
  unfold nickErrListener. cbv zeta.
  destruct err as [e |]; [| apply same_link_refl].
  destruct (negb (truthy (command e))); [apply same_link_refl |].
  destruct (includes _ nick_failCodes); [| apply same_link_refl].
  destruct (getClient (clearTimeout d st)); cbn [fst]; link.
Qed.

Lemma link_dispatch_any (run : listener -> State -> handled)
      (unregister : listener -> RawClient -> RawClient) (ls : list listener) :
  (forall l st, same_link st (fst (run l st))) ->
  forall st, same_link st (dispatch run unregister ls st).
Proof.
  intros Hrun. induction ls as [| l r IH]; intros st; simpl.
  - apply same_link_refl.
  - set (st1 := if is_once l then map_client (unregister l) st else st).
    assert (same_link st st1) as H1
        by (unfold st1; destruct (is_once l);
            [apply link_map_client | apply same_link_refl]).
    pose proof (Hrun l st1) as H2.
    destruct (run l st1) as [st2 [e |]]; simpl in H2.
    + eapply same_link_trans; [exact H1 |].
      eapply same_link_trans; [exact H2 |].
      apply link_emit; discriminate.
    + eapply same_link_trans; [exact H1 |].
      eapply same_link_trans; [exact H2 | apply IH].
Qed.

(** X6: what the IRC side does to the session (a nick or error event, a
    command callback, a change of the client's channel set, a disconnect,
    the start or failure of a connect attempt, the passing of time) never
    puts a command on the wire and never touches the raw-client handle. *)
Theorem upstream_events_send_nothing (ev : event) (st : State) :
  upstream_event ev ->
  wire (log (step ev st)) = wire (log st)
  /\ unsafeClient (step ev st) = unsafeClient st.
Proof.
  intros Hev.
  assert (forall a b, same_link a b ->
                      wire (log b) = wire (log a)
                      /\ unsafeClient b = unsafeClient a) as L
      by (intros a b (H1 & _ & H3); auto).
  destruct ev; simpl in Hev; try contradiction; cbn [step].
  - apply (L st). unfold emit_nick. destruct (inst st); [| apply same_link_refl].
    apply link_dispatch_any. intros l s.
    destruct l; simpl; try apply same_link_refl.
    + apply link_nickTrack.
    + apply link_nickListener_any.
  - apply (L st). unfold emit_error. destruct (inst st); [| apply same_link_refl].
    apply link_dispatch_any. intros l s.
    destruct l; simpl; try apply same_link_refl.
    + apply link_errorReport.
    + apply link_nickErrListener_any.
    + apply link_failFn.
  - exact (L _ _ (link_fire_callback i a st)).
  - exact (L _ _ (link_map_client (set_c_chans chans) st)).
  - apply (L st). unfold connect_start. link.
  - apply (L st). repeat split.
  - unfold upstream_disconnect. destruct (inst st) as [i |]; [| auto].
    destruct (dead i); [auto |].
    apply (L (set_inst (Some {| dead := true; client := client i |}) st)).
    apply link_onDisconnect.
  - apply (L st). repeat split.
Qed.

(** X6 on a nick change in flight: the server's [nick] event settles the
    call and sends nothing. *)
Lemma upstream_events_send_nothing_witness :
  let st := run [ECall (ChangeNick "neo" false)] connected_session in
  wire (log (step (ENick "trinity" "neo") st)) = wire (log st)
  /\ unsafeClient (step (ENick "trinity" "neo") st) = unsafeClient st.
Proof.
  cbv zeta. apply upstream_events_send_nothing. exact I.
Defined.

(* ================================================================= *)
(** ** More on nick validation *)

Lemma matches_iff_fixed_letter (s : string) :
  matches_nick_regex s = true
  <-> strip_illegal s = s /\ starts_with_letter s = true.
Proof.
  rewrite strip_fixed_iff_legal.
  destruct s as [| c r]; simpl.
  - split; [discriminate | intros [_ H]; discriminate].
  - rewrite !andb_true_iff. split.
    + intros [Hc Hr]. repeat split; auto. now apply is_letter_legal.
    + intros [[_ Hr] Hc]. auto.
Qed.

Lemma without_length_check_fixed (s : string) :
  matches_nick_regex s = true -> without_length_check s = s.
Proof.
  intros H. apply matches_iff_fixed_letter in H as [H1 H2].
  unfold without_length_check. rewrite H1, H2. reflexivity.
Qed.

Lemma substr0_empty (s : string) (limit : Z) :
  limit <= 0 -> substr0 s limit = "".
Proof.
  intros H. unfold substr0.
  replace (Z.to_nat limit) with 0%nat by lia. now destruct s.
Qed.

(** Whatever the validator returns consists of legal characters and, when
    a limit of at least 0 is in force, is no longer than the limit. *)
Lemma getValidNick_result (client : option (option Z)) (nick : string)
      (strict : bool) (r : string) :
  getValidNick client nick strict = Ok r ->
  all_legal r = true
  /\ (forall limit, effective_limit client = Some limit -> 0 <= limit ->
                    Z.of_nat (String.length r) <= limit).
Proof.
  destruct strict.
  - rewrite getValidNick_strict.
    destruct (String.eqb (strip_illegal nick) nick) eqn:E; simpl;
      [| discriminate].
    apply String.eqb_eq, strip_fixed_iff_legal in E.
    destruct (starts_with_letter nick); simpl; [| discriminate].
    destruct (effective_limit client) as [l |].
    + destruct (_ >? l) eqn:Eg; [discriminate |].
      intros H. injection H as <-. split; auto.
      intros limit Hl _. injection Hl as <-. lia.
    + intros H. injection H as <-. split; auto. discriminate.
  - rewrite getValidNick_coerce.
    pose proof (without_length_check_matches nick) as Hm.
    apply matches_iff_fixed_letter in Hm as [Hm _].
    apply strip_fixed_iff_legal in Hm.
    destruct (effective_limit client) as [l |].
    + destruct (_ >? l) eqn:Eg; intros H; injection H as <-.
      * split; [now apply substring_legal |].
        intros limit Hl H0. injection Hl as <-.
        rewrite substr0_length by lia. lia.
      * split; auto. intros limit Hl _. injection Hl as <-. lia.
    + intros H. injection H as <-. split; auto. discriminate.
Qed.

(** X7: strict validation accepts exactly the nicks that match the nick
    pattern and respect the length limit in force, and never returns
    anything but the nick it was given. *)
Theorem getValidNick_strict_accepts_exactly_valid
        (client : option (option Z)) (nick : string) :
  (getValidNick client nick true = Ok nick
   <-> matches_nick_regex nick = true
       /\ match effective_limit client with
          | Some limit => Z.of_nat (String.length nick) <= limit
          | None => True
          end)
  /\ (forall r, getValidNick client nick true = Ok r -> r = nick).
Proof.
  rewrite getValidNick_strict, matches_iff_fixed_letter.
  destruct (String.eqb (strip_illegal nick) nick) eqn:E; simpl.
  - apply String.eqb_eq in E.
    destruct (starts_with_letter nick); simpl.
    + destruct (effective_limit client) as [l |].
      * destruct (_ >? l) eqn:Eg.
        -- split; [| discriminate].
           split; [discriminate | intros [_ H]; lia].
        -- split; [| congruence].
           split; [intros _; repeat split; auto; lia | auto].
      * split; [tauto | congruence].
    + split; [| discriminate].
      split; [discriminate | intros [[_ H] _]; discriminate].
  - apply String.eqb_neq in E.
    split; [| discriminate].
    split; [discriminate | intros [[H _] _]; contradiction].
Qed.

(** X8: lenient validation is idempotent: validating its own result
    again, against the same client, returns that result unchanged. *)
Theorem getValidNick_lenient_idempotent
        (client : option (option Z)) (nick r : string) :
  getValidNick client nick false = Ok r ->
  getValidNick client r false = Ok r.
Proof.
  rewrite !getValidNick_coerce.
  pose proof (without_length_check_matches nick) as Hm.
  pose proof (without_length_check_fixed _ Hm) as Hf.
  set (w := without_length_check nick) in *.
  destruct (effective_limit client) as [l |].
  - destruct (Z.of_nat (String.length w) >? l) eqn:Eg;
      intros H; injection H as <-.
    + destruct (Z_le_gt_dec l 0) as [Hl | Hl].
      * rewrite (substr0_empty w l Hl).
        change (without_length_check "") with "M".
        replace (Z.of_nat (String.length "M") >? l) with true
          by (symmetry; apply Z.gtb_lt; simpl; lia).
        now rewrite substr0_empty.
      * rewrite (without_length_check_fixed (substr0 w l))
          by (apply truncation_matches; [lia | exact Hm]).
        replace (Z.of_nat (String.length (substr0 w l)) >? l) with false;
          [reflexivity |].
        symmetry. rewrite Z.gtb_ltb. apply Z.ltb_ge.
        rewrite substr0_length by lia. lia.
    + rewrite Hf, Eg. reflexivity.
  - intros H. injection H as <-. now rewrite Hf.
Qed.

(** X8 at a client advertising NICKLEN 9. *)
Lemma getValidNick_lenient_idempotent_witness :
  getValidNick (Some (Some 9)) "123bob!alexander" false = Ok "M123bobal"
  /\ getValidNick (Some (Some 9)) "M123bobal" false = Ok "M123bobal".
Proof.
  assert (getValidNick (Some (Some 9)) "123bob!alexander" false
          = Ok "M123bobal") as H by reflexivity.
  split; [exact H |].
  exact (getValidNick_lenient_idempotent _ _ _ H).
Defined.

(** X9: the nick a session is constructed with matches the nick pattern,
    whatever nick was desired, and passes strict validation as long as no
    client imposes a length limit. *)
Theorem constructor_nick_is_valid
        (srv : IrcServer) (desiredNick : string) (bot : bool) (t : Z) :
  matches_nick_regex (nick (BridgedClient srv desiredNick bot t)) = true
  /\ getValidNick None (nick (BridgedClient srv desiredNick bot t)) true
     = Ok (nick (BridgedClient srv desiredNick bot t)).
Proof.
  assert (nick (BridgedClient srv desiredNick bot t)
          = without_length_check desiredNick) as ->.
  { unfold BridgedClient. cbn [nick]. now rewrite getValidNick_coerce. }
  pose proof (without_length_check_matches desiredNick) as Hm.
  split; [exact Hm |].
  rewrite getValidNick_strict.
  apply matches_iff_fixed_letter in Hm as [H1 H2].
  rewrite H1, String.eqb_refl, H2. reflexivity.
Qed.

(** X10: [changeNick] either leaves the session as it was and returns a
    settled promise, or sends exactly one command, [NICK v], and returns
    a pending promise; then [v] is the validated nick, differs from the
    current nick, holds legal characters only and respects a length limit
    of at least 0. *)
Theorem changeNick_sends_one_valid_nick
        (st : State) (newNick : string) (strict : bool) :
  (fst (changeNick newNick strict st) = st
   /\ exists o, snd (changeNick newNick strict st) = Settled o)
  \/ (exists v d,
         getValidNick (option_map c_nicklength (getClient st)) newNick strict
         = Ok v
         /\ v <> nick st
         /\ all_legal v = true
         /\ (forall limit,
                effective_limit (option_map c_nicklength (getClient st))
                = Some limit ->
                0 <= limit -> Z.of_nat (String.length v) <= limit)
         /\ log (fst (changeNick newNick strict st))
            = push (log st) (Wire (NICK v))
         /\ snd (changeNick newNick strict st) = Deferred d
         /\ isPending d (fst (changeNick newNick strict st)) = true).
Proof.
  unfold changeNick.
  destruct (getValidNick _ newNick strict) as [v | e] eqn:Ev;
    [| left; split; [reflexivity | eexists; reflexivity]].
  destruct (String.eqb v (nick st)) eqn:En; [left; split; [reflexivity | eexists; reflexivity] |].
  destruct (getClient st) as [c |] eqn:Ec; [| left; split; [reflexivity | eexists; reflexivity]].
  right. exists v, (List.length (defers st)).
  apply String.eqb_neq in En.
  destruct (getValidNick_result _ _ _ _ Ev) as [Hlegal Hlen].
  repeat split; auto.
  unfold isPending, get_defer, send, emit, map_client, setTimeout, new_defer.
  cbn. unfold push. rewrite nth_error_app2 by lia.
  now rewrite Nat.sub_diag.
Qed.


(* ================================================================= *)
(** ** Operators *)

Lemma is_operator_with_client (c : RawClient) (prefixes : string) :
  is_operator (Some c) prefixes = Ok (has_operator_prefix c prefixes).
Proof.
  unfold has_operator_prefix.
  induction prefixes as [| ch r IH]; simpl; auto.
  destruct (Ascii.eqb ch "@"); simpl; auto.
  destruct (c_morePowerfulThanAt c _); simpl; auto.
Qed.

Lemma is_operator_without_client (prefixes : string) :
  is_operator None prefixes
  = if decided_without_client prefixes then Ok (starts_with "@" prefixes)
    else Throw (Error "Missing client").
Proof.
  destruct prefixes as [| ch r]; [reflexivity |].
  cbn [is_operator decided_without_client starts_with].
  rewrite (Ascii.eqb_sym "@" ch).
  destruct (Ascii.eqb ch "@"); reflexivity.
Qed.

(** X11: with a client at hand the operator filter of [getOperators]
    never throws and keeps exactly the nicks whose prefix string holds
    [@] or a prefix the client ranks above it, in their order; without a
    client it throws "Missing client" as soon as some nick has a prefix
    string that does not begin with [@], and otherwise keeps the nicks
    whose prefix string begins with [@]. *)
Theorem operator_filter_keeps_operators
        (names : list (string * string)) (nicks : list string) :
  (forall c,
      filter_operators (Some c) names nicks
      = Ok (filter (fun n => has_operator_prefix c (names_get n names)) nicks))
  /\ filter_operators None names nicks
     = if forallb (fun n => decided_without_client (names_get n names)) nicks
       then Ok (filter (fun n => starts_with "@" (names_get n names)) nicks)
       else Throw (Error "Missing client").
Proof.
  split.
  - intros c. induction nicks as [| n r IH]; simpl; auto.
    rewrite is_operator_with_client, IH. reflexivity.
  - induction nicks as [| n r IH]; simpl; auto.
    rewrite is_operator_without_client, IH.
    destruct (decided_without_client (names_get n names)); simpl; auto.
    destruct (forallb _ r); reflexivity.
Qed.

Lemma own_get_delete (channel : string) (m : list (string * NicksInfo)) :
  own_get channel (own_delete channel m) = None.
Proof.
  induction m as [| [k v] r IH]; simpl; auto.
  destruct (String.eqb channel k) eqn:E; simpl; auto. now rewrite E.
Qed.

Lemma own_get_delete_other (channel other : string)
      (m : list (string * NicksInfo)) :
  other <> channel ->
  own_get other (own_delete channel m) = own_get other m.
Proof.
  intros H. induction m as [| [k v] r IH]; simpl; auto.
  destruct (String.eqb channel k) eqn:E; simpl.
  - apply String.eqb_eq in E. subst k.
    apply String.eqb_neq in H. now rewrite H.
  - now rewrite IH.
Qed.

Lemma cache_get_set (channel : string) (info : NicksInfo) (c : Cache) :
  channel <> "__proto__" ->
  cache_get channel (cache_set channel info c) = Some (VNicks info).
Proof.
  intros H. apply String.eqb_neq in H. unfold cache_get, cache_set.
  rewrite H. cbn. now rewrite String.eqb_refl.
Qed.

Lemma cache_get_set_other (channel other : string) (info : NicksInfo)
      (c : Cache) :
  channel <> "__proto__" -> other <> channel ->
  cache_get other (cache_set channel info c) = cache_get other c.
Proof.
  intros H Ho. apply String.eqb_neq in H. unfold cache_get, cache_set.
  rewrite H. cbn.
  destruct (String.eqb other "__proto__"); [reflexivity |].
  pose proof Ho as Ho'. apply String.eqb_neq in Ho'. rewrite Ho'.
  now rewrite own_get_delete_other.
Qed.

Lemma cache_get_delete (channel : string) (c : Cache) :
  channel <> "__proto__" ->
  cache_get channel (cache_delete channel c) = cache_inherited channel c.
Proof.
  intros H. apply String.eqb_neq in H. unfold cache_get, cache_delete.
  rewrite H. cbn. now rewrite own_get_delete.
Qed.

(** The prototype chain of a cache is the same before and after a
    property other than [__proto__] is set and deleted again. *)
Lemma cache_inherited_set (channel other : string) (info : NicksInfo)
      (c : Cache) :
  channel <> "__proto__" ->
  cache_inherited other (cache_set channel info c) = cache_inherited other c.
Proof.
  intros H. apply String.eqb_neq in H. unfold cache_inherited, cache_set.
  now rewrite H.
Qed.

(** X12: the operator cache, a plain object, for a channel other than
    [__proto__].  Once the last step of [getOperators] ran with a cache
    duration, a later [getOperators] for that channel that passes a
    cache duration is answered from the cache: it resolves at once with
    the stored info and leaves the session untouched.  What the cache
    gives for any other name is not affected.  When the timer armed with
    the entry fires the entry is gone, and a lookup finds what the cache
    inherits for that name: nothing, unless the name is a member of
    [Object.prototype] or a property of an info object installed as the
    prototype of the cache. *)
Theorem operators_cache_round_trip
        (st : State) (channel : string) (ms ms' : Z) (info : NicksInfo)
        (ops : list string) (key : jsval) :
  filter_operators (getClient st) (ni_names info) (ni_nicks info) = Ok ops ->
  0 < ms' ->
  key = JUndefined \/ (exists s, key = JString s) ->
  channel <> "__proto__" ->
  let st1 := fst (computeOperators channel (Some ms) (VNicks info) st) in
  let fired := fire_timer (List.length (timers st)) st1 in
  getOperators channel (OObject key (JInteger ms')) st1
  = (st1, Ret (Settled (Resolved (VNicks (with_operators info ops)))))
  /\ (forall other, other <> channel ->
                    cache_get other (cachedOperatorNicksInfo st1)
                    = cache_get other (cachedOperatorNicksInfo st))
  /\ nth_error (timers st1) (List.length (timers st)) = Some (ms, TCache channel)
  /\ cache_get channel (cachedOperatorNicksInfo fired)
     = cache_inherited channel (cachedOperatorNicksInfo st)
  /\ (prototype (cachedOperatorNicksInfo st) = None ->
      includes channel object_prototype_keys = false ->
      cache_get channel (cachedOperatorNicksInfo fired) = None).
Proof.
  intros Hops Hms Hkey Hch st1 fired.
  assert (st1 = setTimeout (TCache channel) ms
                  (set_cachedOperatorNicksInfo
                     (cache_set channel (with_operators info ops)
                                (cachedOperatorNicksInfo st)) st)) as E.
  { unfold st1, computeOperators. rewrite Hops. reflexivity. }
  assert (nth_error (timers st1) (List.length (timers st))
          = Some (ms, TCache channel)) as Ht.
  { rewrite E. cbn. unfold push. rewrite nth_error_app2 by lia.
    now rewrite Nat.sub_diag. }
  assert (cache_get channel (cachedOperatorNicksInfo fired)
          = cache_inherited channel (cachedOperatorNicksInfo st)) as Hf.
  { unfold fired, fire_timer. rewrite Ht. rewrite E.
    cbn [cachedOperatorNicksInfo set_cachedOperatorNicksInfo set_timers
         setTimeout].
    rewrite cache_get_delete by exact Hch.
    now apply cache_inherited_set. }
  split; [| split; [| split; [| split]]].
  - assert (cache_get channel (cachedOperatorNicksInfo st1)
            = Some (VNicks (with_operators info ops))) as Hc
        by (rewrite E; now apply cache_get_set).
    unfold getOperators.
    replace (ms' >? 0) with true by (symmetry; apply Z.gtb_lt; lia).
    destruct Hkey as [-> | [s ->]]; cbv zeta; rewrite Hc; reflexivity.
  - intros other Ho. rewrite E. now apply cache_get_set_other.
  - exact Ht.
  - exact Hf.
  - intros Hp Hi. rewrite Hf. unfold cache_inherited. now rewrite Hp, Hi.
Qed.

(** X12 on the example session: the channel's names list one operator. *)
Lemma operators_cache_round_trip_witness :
  let info := {| ni_channel := "#zion";
                 ni_names := [("neo", "@"); ("smith", "")];
                 ni_operatorNicks := None |} in
  let st1 := fst (computeOperators "#zion" (Some 60000) (VNicks info)
                                   connected_session) in
  let fired := fire_timer (List.length (timers connected_session)) st1 in
  getOperators "#zion" (OObject JUndefined (JInteger 1000)) st1
  = (st1, Ret (Settled (Resolved (VNicks (with_operators info ["neo"])))))
  /\ (forall other, other <> "#zion" ->
                    cache_get other (cachedOperatorNicksInfo st1)
                    = cache_get other
                        (cachedOperatorNicksInfo connected_session))
  /\ nth_error (timers st1) (List.length (timers connected_session))
     = Some (60000, TCache "#zion")
  /\ cache_get "#zion" (cachedOperatorNicksInfo fired)
     = cache_inherited "#zion" (cachedOperatorNicksInfo connected_session)
  /\ (prototype (cachedOperatorNicksInfo connected_session) = None ->
      includes "#zion" object_prototype_keys = false ->
      cache_get "#zion" (cachedOperatorNicksInfo fired) = None).
Proof.
  cbv zeta.
  apply (operators_cache_round_trip connected_session "#zion" 60000 1000).
  - vm_compute; reflexivity.
  - lia.
  - now left.
  - discriminate.
Defined.



(* ================================================================= *)
(** ** Requests and their answers *)

Lemma getClient_some (st : State) (c : RawClient) :
  getClient st = Some c ->
  unsafeClient st = HClient /\ exists i, inst st = Some i /\ client i = c.
Proof.
  unfold getClient. destruct (unsafeClient st); try discriminate.
  destruct (inst st) as [i |]; [| discriminate].
  simpl. intros H. injection H as H. eauto.
Qed.

Lemma nth_error_push {A : Type} (l : list A) (x : A) :
  nth_error (push l x) (List.length l) = Some x.
Proof.
  unfold push. rewrite nth_error_app2 by lia. now rewrite Nat.sub_diag.
Qed.


Lemma remove_nth_push {A : Type} (l : list A) (x : A) :
  remove_nth (List.length l) (push l x) = l.
Proof.
  unfold push. induction l as [| y r IH]; simpl; auto. now rewrite IH.
Qed.

Lemma isPending_settle (d : nat) (o : outcome) (st : State) :
  isPending d (settle d o st) = false.
Proof.
  unfold isPending, settle.
  destruct (get_defer d st) as [[[o' |] ws] |] eqn:E; rewrite ?E; auto.
  unfold get_defer in *. simpl.
  now rewrite (update_nth_same _ _ _ _ E).
Qed.

(** X13: [getNicks] sends one NAMES command and returns a pending
    promise; the answer and the 5 s timeout race for it.  When the names
    callback comes first the promise resolves with the channel name and
    names of the answer and the timeout is disarmed; when the timeout
    comes first the promise rejects with a timeout error. *)
Theorem getNicks_answer_or_timeout
        (st : State) (channel : string) (c : RawClient)
        (channelName : string) (names : list (string * string)) :
  getClient st = Some c ->
  let st1 := fst (getNicks channel st) in
  let p := snd (getNicks channel st) in
  let answered :=
    fire_callback (List.length (c_callbacks c))
                  (NamesArgs channelName names) st1 in
  log st1 = push (log st) (Wire (NAMES channel))
  /\ p = Deferred (List.length (defers st))
  /\ outcome_of p st1 = None
  /\ outcome_of p answered
     = Some (Resolved (VNicks {| ni_channel := channelName;
                                 ni_names := names;
                                 ni_operatorNicks := None |}))
  /\ timers_of (List.length (defers st)) answered = []
  /\ outcome_of p (fire_timer (List.length (timers st)) st1)
     = Some (Rejected TimeoutError).
Proof.
  intros Hc. destruct (getClient_some st c Hc) as (Hu & i & Hi & <-).
  unfold getNicks. rewrite Hc. cbv zeta. cbn [fst snd new_defer].
  set (d := List.length (defers st)).
  set (s0 := set_defers _ st).
  assert (isPending d s0 = true) as Hp by apply isPending_new_defer.
  split; [reflexivity |]. split; [reflexivity |].
  split.
  { change (outcome_of (Deferred d) s0 = None).
    unfold isPending in Hp. unfold outcome_of.
    destruct (get_defer d s0) as [[[o |] ws] |]; try discriminate; auto. }
  split; [| split].
  - unfold fire_callback. cbn. rewrite Hi. cbn.
    rewrite nth_error_push. cbn. unfold onNames.
    apply outcome_of_settle. exact Hp.
  - unfold fire_callback. cbn. rewrite Hi. cbn.
    rewrite nth_error_push. cbn. unfold onNames, timers_of, clearTimeout.
    cbn. induction (timers _) as [| t r IH]; simpl; auto.
    destruct (owned_by d t) eqn:E; simpl; auto. now rewrite E.
  - unfold fire_timer. cbn -[push]. rewrite nth_error_push. cbn -[push].
    unfold onNamesTimeout. apply outcome_of_settle. exact Hp.
Qed.

(** X13 on the example session. *)
Lemma getNicks_answer_or_timeout_witness :
  let st1 := fst (getNicks "#zion" connected_session) in
  let p := snd (getNicks "#zion" connected_session) in
  let answered := fire_callback 0 (NamesArgs "#zion" [("neo", "@")]) st1 in
  log st1 = push (log connected_session) (Wire (NAMES "#zion"))
  /\ p = Deferred (List.length (defers connected_session))
  /\ outcome_of p st1 = None
  /\ outcome_of p answered
     = Some (Resolved (VNicks {| ni_channel := "#zion";
                                 ni_names := [("neo", "@")];
                                 ni_operatorNicks := None |}))
  /\ timers_of (List.length (defers connected_session)) answered = []
  /\ outcome_of p (fire_timer (List.length (timers connected_session)) st1)
     = Some (Rejected TimeoutError).
Proof.
  cbv zeta.
  apply (getNicks_answer_or_timeout
           connected_session "#zion"
           (set_c_errorListeners [LErrorReport]
              (set_c_nickListeners [LNickTrack] example_client))).
  vm_compute; reflexivity.
Defined.

(** X14: [whois] sends one WHOIS command and returns a pending promise;
    when the answer arrives the promise rejects with "Cannot find nick on
    whois." if the answer names no user, and otherwise resolves with a
    message for the nick asked about that begins with the user and host
    of the answer. *)
Theorem whois_answer
        (st : State) (wnick : string) (c : RawClient) (w : whois_reply) :
  getClient st = Some c ->
  let st1 := fst (whois wnick st) in
  let p := snd (whois wnick st) in
  let answered :=
    fire_callback (List.length (c_callbacks c)) (WhoisArgs w) st1 in
  log st1 = push (log st) (Wire (WHOIS wnick))
  /\ outcome_of p st1 = None
  /\ (truthy (w_user w) = false ->
      outcome_of p answered
      = Some (Rejected (Error "Cannot find nick on whois.")))
  /\ (truthy (w_user w) = true ->
      exists rest,
        outcome_of p answered
        = Some (Resolved
                  (VWhois wnick
                          ("Whois info for '" ++ wnick ++ "': "
                           ++ or_default (w_user w) "" ++ "@" ++ w_host w
                           ++ rest)))).
Proof.
  intros Hc. destruct (getClient_some st c Hc) as (Hu & i & Hi & <-).
  unfold whois. rewrite Hc. cbv zeta. cbn [fst snd new_defer].
  set (d := List.length (defers st)).
  set (s0 := set_defers _ st).
  assert (isPending d s0 = true) as Hp by apply isPending_new_defer.
  split; [reflexivity |].
  split.
  { change (outcome_of (Deferred d) s0 = None).
    unfold isPending in Hp. unfold outcome_of.
    destruct (get_defer d s0) as [[[o |] ws] |]; try discriminate; auto. }
  assert (fire_callback (List.length (c_callbacks (client i))) (WhoisArgs w)
            (map_client (add_callback (CbWhois d wnick))
                        (send (WHOIS wnick) s0))
          = onWhois d wnick w
              (map_client
                 (fun c => set_c_callbacks
                             (remove_nth (List.length (c_callbacks (client i)))
                                         (c_callbacks c)) c)
                 (map_client (add_callback (CbWhois d wnick))
                             (send (WHOIS wnick) s0)))) as ->.
  { unfold fire_callback. cbn -[push onWhois]. rewrite Hi. cbn -[push onWhois].
    rewrite nth_error_push. reflexivity. }
  unfold onWhois. split; intros Hw; rewrite Hw; cbn [negb].
  - apply outcome_of_settle. exact Hp.
  - eexists. cbv zeta. rewrite outcome_of_settle by exact Hp.
    reflexivity.
Qed.

(** X14 on the example session, for an answer that names no user. *)
Lemma whois_answer_witness :
  let w := {| w_user := None; w_host := ""; w_realname := "";
              w_channels := []; w_idle := None |} in
  let st1 := fst (whois "smith" connected_session) in
  let p := snd (whois "smith" connected_session) in
  log st1 = push (log connected_session) (Wire (WHOIS "smith"))
  /\ outcome_of p st1 = None
  /\ outcome_of p (fire_callback 0 (WhoisArgs w) st1)
     = Some (Rejected (Error "Cannot find nick on whois.")).
Proof.
  cbv zeta.
  destruct (whois_answer
              connected_session "smith"
              (set_c_errorListeners [LErrorReport]
                 (set_c_nickListeners [LNickTrack] example_client))
              {| w_user := None; w_host := ""; w_realname := "";
                 w_channels := []; w_idle := None |})
    as (H1 & H2 & H3 & _).
  - vm_compute; reflexivity.
  - split; [exact H1 | split; [exact H2 | apply H3; reflexivity]].
Defined.

(* ================================================================= *)
(** ** The round timer of a join *)

Lemma getClient_disconnect (reason : string) (st : State) :
  getClient st = None -> getClient (fst (disconnect reason st)) = None.
Proof.
  intros H.
  assert (forall r s, getClient (onDisconnect r s) = getClient s) as Ho.
  { intros r s. unfold onDisconnect, getClient. cbv zeta.
    destruct (String.eqb r "banned"); reflexivity. }
  unfold disconnect, inst_disconnect. cbv zeta.
  change (inst (set_explicitDisconnect true st)) with (inst st).
  destruct (inst st) as [i |] eqn:Ei; [destruct (dead i) |]; cbn [fst];
    rewrite ?Ho; try exact H.
  unfold getClient in *. cbn.
  destruct (unsafeClient st); try reflexivity.
  rewrite Ei in H. discriminate.
Qed.

(** X15: the round timer of a join does nothing once the JOIN callback
    has run, and nothing after [kill]: no retry, no settlement, no
    command. *)
Theorem join_timer_void_after_callback_or_kill
        (d : nat) (channel : string) (key : option string) (a : Z)
        (reason : option string) (st : State) :
  onJoinTimeout d channel key a (onJoined d channel st)
  = onJoined d channel st
  /\ onJoinTimeout d channel key a (fst (kill reason st))
     = fst (kill reason st).
Proof.
  split.
  - unfold onJoinTimeout, onJoined.
    rewrite isPending_settle.
    now destruct (getClient _).
  - unfold onJoinTimeout, kill.
    rewrite getClient_disconnect; [reflexivity |].
    unfold getClient. reflexivity.
Qed.

(* ================================================================= *)
(** ** Leaving *)

Lemma includes_remove_first (x : string) (l : list string) :
  NoDup l -> includes x (remove_first x l) = false.
Proof.
  intros Hn. induction l as [| y r IH]; simpl; auto.
  inversion Hn as [| ? ? Hy Hr]; subst.
  destruct (String.eqb x y) eqn:E.
  - apply String.eqb_eq in E. subst y.
    destruct (includes x r) eqn:Ei; auto.
    apply includes_In in Ei. contradiction.
  - simpl. rewrite E. auto.
Qed.

Lemma leaveChannel_twice (st : State) (channel : string)
      (reason reason' : option string) :
  NoDup (chanList st) ->
  leaveChannel_ channel reason' (fst (leaveChannel_ channel reason st))
  = (fst (leaveChannel_ channel reason st), Ret resolved)
  /\ (wire (log (fst (leaveChannel_ channel reason st))) = wire (log st)
      \/ wire (log (fst (leaveChannel_ channel reason st)))
         = (wire (log st) ++ [PART channel (or_default reason "User left")])%list).
Proof.
  intros Hn. unfold leaveChannel_ at 2 3 4 5. cbv zeta.
  destruct (inst st) as [i |] eqn:Ei.
  2:{ cbn [fst]. split; [| now left]. unfold leaveChannel_. now rewrite Ei. }
  destruct (dead i) eqn:Ed.
  { cbn [fst]. split; [| now left]. unfold leaveChannel_. now rewrite Ei, Ed. }
  destruct (starts_with "#" channel) eqn:Es; cbn [negb].
  2:{ cbn [fst]. split; [| now left].
      unfold leaveChannel_. now rewrite Ei, Ed, Es. }
  destruct (inChannel channel st) eqn:Ec; cbn [negb].
  2:{ cbn [fst]. split; [| now left].
      unfold leaveChannel_. now rewrite Ei, Ed, Es, Ec. }
  cbn [new_defer fst snd].
  set (s0 := set_defers _ st).
  assert (removeChannel channel s0
          = set_chanList (remove_first channel (chanList st)) s0) as ->.
  { unfold removeChannel. change (chanList s0) with (chanList st).
    unfold inChannel in Ec. now rewrite Ec. }
  set (s1 := set_chanList _ s0).
  assert (inChannel channel s1 = false) as Hout
      by (apply includes_remove_first; exact Hn).
  assert (forall s i', inst s = Some i' -> dead i' = false ->
                       inChannel channel s = false ->
                       leaveChannel_ channel reason' s = (s, Ret resolved))
    as Hnoop.
  { intros s i' H1 H2 H3. unfold leaveChannel_. now rewrite H1, H2, Es, H3. }
  destruct (getClient s1) as [c |] eqn:Eg; cbn [fst].
  - split.
    + eapply Hnoop; [cbn; rewrite Ei; reflexivity | exact Ed | exact Hout].
    + right. cbn. unfold push. rewrite wire_app. reflexivity.
  - split; [| now left]. apply (Hnoop s1 i); [exact Ei | exact Ed | exact Hout].
Qed.

(** X16: in every state a session can reach from its construction,
    leaving a channel twice is the same as leaving it once: the second
    [_leaveChannel] resolves at once and leaves the session as the first
    one made it, and the first one sends either nothing or one PART for
    the channel, with reason "User left" when none is given. *)
Theorem leaveChannel_idempotent
        (srv : IrcServer) (desiredNick : string) (bot : bool) (t : Z)
        (evs : list event) (channel : string)
        (reason reason' : option string) :
  let st := run evs (BridgedClient srv desiredNick bot t) in
  let st1 := fst (leaveChannel_ channel reason st) in
  leaveChannel_ channel reason' st1 = (st1, Ret resolved)
  /\ (wire (log st1) = wire (log st)
      \/ wire (log st1)
         = (wire (log st) ++ [PART channel (or_default reason "User left")])%list).
Proof.
  cbv zeta. apply leaveChannel_twice.
  destruct (evolves_run evs (BridgedClient srv desiredNick bot t))
    as (_ & _ & _ & _ & H & _).
  apply H. apply initial_evolves_ok.
Qed.

(* ================================================================= *)
(** ** Sending *)

Lemma joinChannel_already_joined (st : State) (channel : string)
      (key : option string) (a : option Z) (c : RawClient) :
  getClient st = Some c -> includes channel (c_chans c) = true ->
  joinChannel_ channel key a st = (st, Settled (Resolved (VRoom channel))).
Proof. intros H1 H2. unfold joinChannel_. now rewrite H1, H2. Qed.

Lemma sendDispatch_sends (st : State) (channel : string) (action : Action)
      (msgType : string) (e : Z) (c : RawClient) (cmd : irc_cmd) :
  getClient st = Some c ->
  message_command channel action = Some cmd ->
  msgType = (if String.eqb (a_type action) "emote" then "action"
             else a_type action) ->
  sendDispatch msgType channel (a_text action) e st
  = (if negb (e =? 0) && (now st >? e) then st else send cmd st,
     FrThen resolved []).
Proof.
  intros Hc Hm ->. unfold sendDispatch, message_command in *. rewrite Hc.
  destruct (negb (e =? 0) && (now st >? e)); [reflexivity |].
  destruct (String.eqb (a_type action) "message") eqn:E1.
  { apply String.eqb_eq in E1. rewrite E1 in *. injection Hm as <-.
    reflexivity. }
  destruct (String.eqb (a_type action) "notice") eqn:E2.
  { apply String.eqb_eq in E2. rewrite E2 in *. injection Hm as <-.
    reflexivity. }
  destruct (String.eqb (a_type action) "emote") eqn:E3; [| discriminate].
  injection Hm as <-. reflexivity.
Qed.


Lemma keepAlive_keeps (st : State) :
  inst (keepAlive st) = inst st
  /\ unsafeClient (keepAlive st) = unsafeClient st
  /\ defers (keepAlive st) = defers st
  /\ jobs (keepAlive st) = jobs st
  /\ log (keepAlive st) = log st
  /\ now (keepAlive st) = now st
  /\ server (keepAlive st) = server st
  /\ chanList (keepAlive st) = chanList st
  /\ timers (keepAlive st) = timers st.
Proof.
  unfold keepAlive. cbv zeta. cbn.
  destruct (getIdleTimeout (server st) >? 0); cbn; repeat split; reflexivity.
Qed.

Lemma sendMessage_delivers (s : State) (channel msgType text : string)
      (e : Z) (c : RawClient) (v : value) (cmd : irc_cmd) :
  getClient s = Some c ->
  includes channel (c_chans c) = true ->
  outcome_of (Deferred connectDefer) s = Some (Resolved v) ->
  jobs s = [] ->
  (forall s', getClient s' = Some c ->
              sendDispatch msgType channel text e s'
              = (if negb (e =? 0) && (now s' >? e) then s' else send cmd s',
                 FrThen resolved [])) ->
  let st1 := fst (sendMessage channel msgType text e s) in
  let p := snd (sendMessage channel msgType text e s) in
  let st4 := run [EJob; EJob; EJob] st1 in
  outcome_of p st1 = None
  /\ log st1 = log s
  /\ log st4 = (if negb (e =? 0) && (now s >? e) then log s
                else push (log s) (Wire cmd))
  /\ outcome_of p st4 = Some (Resolved VUndefined)
  /\ jobs st4 = [].
Proof.
  intros Hc Hin Hconn Hj Hsd.
  unfold sendMessage. cbn [new_defer fst snd]. cbv zeta.
  set (d := List.length (defers s)).
  set (s0 := set_defers _ s).
  set (K := [KJoin channel None None; KSendDispatch msgType channel text e]).
  assert (isPending d s0 = true) as Hp by apply isPending_new_defer.
  assert (then_ (Deferred connectDefer) K (Some d) s0
          = set_jobs [(K, Some d, Resolved v)] s0) as ->.
  { unfold then_, outcome_of, get_defer, connectDefer in *.
    change (defers s0) with (push (defers s) {| d_state := None; d_waiters := [] |}).
    destruct (defers s) as [| [ds ws] rest]; [discriminate |].
    cbn in Hconn |- *. subst ds. change (jobs s0) with (jobs s). now rewrite Hj. }
  set (s1 := set_jobs _ s0).
  assert (getClient s1 = Some c) as Hc1 by exact Hc.
  assert (run [EJob; EJob; EJob] s1
          = settle d (Resolved VUndefined)
              (set_jobs []
                 (if negb (e =? 0) && (now s >? e) then s1 else send cmd s1)))
    as ->.
  { unfold run. cbn [fold_left step].
    assert (run_next_job s1
            = set_jobs [([KSendDispatch msgType channel text e], Some d,
                         Resolved (VRoom channel))] s1) as ->.
    { unfold run_next_job. cbn [jobs s1 set_jobs]. unfold run_job, exec_frame.
      cbn [K].
      rewrite (joinChannel_already_joined _ channel None None c); auto. }
    set (s2 := set_jobs _ s1).
    assert (run_next_job s2
            = set_jobs [([], Some d, Resolved VUndefined)]
                (if negb (e =? 0) && (now s >? e) then s1 else send cmd s1))
      as ->.
    { unfold run_next_job. cbn [jobs s2 set_jobs]. unfold run_job, exec_frame.
      rewrite Hsd by exact Hc.
      change (now (set_jobs [] s2)) with (now s).
      destruct (negb (e =? 0) && (now s >? e)); reflexivity. }
    unfold run_next_job. cbn [jobs set_jobs]. unfold run_job.
    destruct (negb (e =? 0) && (now s >? e)); reflexivity. }
  assert (isPending d (set_jobs []
                         (if negb (e =? 0) && (now s >? e)
                          then s1 else send cmd s1)) = true) as Hp'
      by (destruct (negb (e =? 0) && (now s >? e)); exact Hp).
  split; [| split; [reflexivity | split; [| split]]].
  - change (outcome_of (Deferred d) s0 = None).
    unfold isPending in Hp. unfold outcome_of.
    destruct (get_defer d s0) as [[[o |] ws] |]; try discriminate; auto.
  - unfold settle. unfold isPending in Hp'.
    destruct (get_defer d _) as [[[o |] ws] |]; try discriminate.
    destruct (negb (e =? 0) && (now s >? e)); reflexivity.
  - apply outcome_of_settle. exact Hp'.
  - unfold settle. unfold isPending in Hp'.
    destruct (get_defer d _) as [[[o |] ws] |] eqn:E; try discriminate.
    assert (ws = []) as ->.
    { assert (get_defer d
                (set_jobs []
                   (if negb (e =? 0) && (now s >? e) then s1 else send cmd s1))
              = Some {| d_state := None; d_waiters := [] |}) as E'
          by (destruct (negb (e =? 0) && (now s >? e));
              apply (nth_error_push (defers s))).
      rewrite E' in E. now injection E as <-. }
    reflexivity.
Qed.

(** X17: a text action sent to a channel the client is in, on a
    connected session with no promise callback waiting to run: once the
    three callbacks [_sendMessage] chains have run, the returned promise
    is resolved and exactly one command has gone out (PRIVMSG for a
    message, NOTICE for a notice, ACTION for an emote) unless the action
    has expired, in which case it is dropped and nothing goes out. *)
Theorem sendAction_delivers_or_drops
        (st : State) (channel : string) (action : Action)
        (c : RawClient) (v : value) (cmd : irc_cmd) :
  getClient st = Some c ->
  includes channel (c_chans c) = true ->
  outcome_of (Deferred connectDefer) st = Some (Resolved v) ->
  jobs st = [] ->
  message_command channel action = Some cmd ->
  let st1 := fst (sendAction channel action st) in
  let p := snd (sendAction channel action st) in
  let st4 := run [EJob; EJob; EJob] st1 in
  outcome_of p st1 = None
  /\ log st1 = log st
  /\ log st4 = (if expired action st then log st
                else push (log st) (Wire cmd))
  /\ outcome_of p st4 = Some (Resolved VUndefined)
  /\ jobs st4 = [].
Proof.
  intros Hc Hin Hconn Hj Hm.
  destruct (keepAlive_keeps st)
    as (Ki & Ku & Kd & Kj & Kl & Kn & Ks & _).
  assert (getClient (keepAlive st) = Some c) as Hc'
      by (unfold getClient in *; now rewrite Ki, Ku).
  assert (outcome_of (Deferred connectDefer) (keepAlive st)
          = Some (Resolved v)) as Hconn'
      by (unfold outcome_of, get_defer in *; now rewrite Kd).
  assert (jobs (keepAlive st) = []) as Hj' by now rewrite Kj.
  assert (forall msgType,
             msgType = (if String.eqb (a_type action) "emote" then "action"
                        else a_type action) ->
             let r := sendMessage channel msgType (a_text action)
                                  (expiryTs_of action st) (keepAlive st) in
             outcome_of (snd r) (fst r) = None
             /\ log (fst r) = log st
             /\ log (run [EJob; EJob; EJob] (fst r))
                = (if expired action st then log st
                   else push (log st) (Wire cmd))
             /\ outcome_of (snd r) (run [EJob; EJob; EJob] (fst r))
                = Some (Resolved VUndefined)
             /\ jobs (run [EJob; EJob; EJob] (fst r)) = []) as Hgo.
  { intros msgType Hty. cbv zeta.
    pose proof (sendMessage_delivers
                  (keepAlive st) channel msgType (a_text action)
                  (expiryTs_of action st) c v cmd Hc' Hin Hconn' Hj') as H.
    cbv zeta in H. rewrite Kl, Kn in H. apply H.
    intros s' Hs'.
    now apply (sendDispatch_sends s' channel action msgType _ c cmd). }
  unfold sendAction. cbv zeta.
  change (match a_ts action with
          | Some ts =>
              if negb (ts =? 0)
                 && negb (getExpiryTimeSeconds (server (keepAlive st)) =? 0)
              then ts + getExpiryTimeSeconds (server (keepAlive st)) * 1000
              else 0
          | None => 0
          end) with (expiryTs_of action (keepAlive st)).
  assert (expiryTs_of action (keepAlive st) = expiryTs_of action st) as ->
      by (unfold expiryTs_of; now rewrite Ks).
  unfold message_command in Hm.
  destruct (String.eqb (a_type action) "message") eqn:E1.
  { apply Hgo. apply String.eqb_eq in E1. now rewrite E1. }
  destruct (String.eqb (a_type action) "notice") eqn:E2.
  { apply Hgo. apply String.eqb_eq in E2. now rewrite E2. }
  destruct (String.eqb (a_type action) "emote") eqn:E3; [| discriminate].
  apply Hgo. reflexivity.
Qed.

(** X17 on the example session, joined to a channel. *)
Lemma sendAction_delivers_or_drops_witness :
  let st := run [EChans ["#zion"]] connected_session in
  let action := {| a_type := "emote"; a_text := "waves"; a_ts := None |} in
  let st1 := fst (sendAction "#zion" action st) in
  let p := snd (sendAction "#zion" action st) in
  let st4 := run [EJob; EJob; EJob] st1 in
  outcome_of p st1 = None
  /\ log st1 = log st
  /\ log st4 = (if expired action st then log st
                else push (log st) (Wire (ACTION "#zion" "waves")))
  /\ outcome_of p st4 = Some (Resolved VUndefined)
  /\ jobs st4 = [].
Proof.
  assert (getClient (run [EChans ["#zion"]] connected_session)
          = Some (set_c_chans ["#zion"]
                    (set_c_errorListeners [LErrorReport]
                       (set_c_nickListeners [LNickTrack] example_client))))
    as H1 by (vm_compute; reflexivity).
  assert (outcome_of (Deferred connectDefer)
                     (run [EChans ["#zion"]] connected_session)
          = Some (Resolved VUndefined)) as H2 by (vm_compute; reflexivity).
  assert (jobs (run [EChans ["#zion"]] connected_session) = []) as H3
      by (vm_compute; reflexivity).
  exact (sendAction_delivers_or_drops
           (run [EChans ["#zion"]] connected_session) "#zion"
           {| a_type := "emote"; a_text := "waves"; a_ts := None |}
           _ VUndefined (ACTION "#zion" "waves")
           H1 eq_refl H2 H3 eq_refl).
Defined.


Lemma view_connect_shape (s : State) (f g : RawClient -> RawClient)
      (text modes : string) (b : bool) :
  view (map_client f
          (map_client g
             (emit (Metadata text false)
                   (if b then send (MODE modes) s else s))))
  = view (map_client (fun c => f (g c)) s).
Proof.
  unfold view, map_client, emit, send.
  destruct b; cbn -[push]; destruct (inst s); cbn -[push]; unfold push;
    rewrite ?join_count_app; cbn; rewrite ?Nat.add_0_r; reflexivity.
Qed.

Lemma view_keepAlive (f : RawClient -> RawClient) (s : State) :
  view (map_client f (keepAlive s)) = view (map_client f s).
Proof.
  unfold keepAlive. cbv zeta.
  destruct (getIdleTimeout _ >? 0); reflexivity.
Qed.

Lemma view_settle_connected (f : RawClient -> RawClient) (d : nat)
      (o : outcome) (i : ConnectionInstance) (v : string) (e : bridge_event)
      (st : State) :
  view (map_client f
          (settle d o
             (set_nick v (emit (Emit e)
                               (set_unsafeClient HClient
                                                 (set_inst (Some i) st))))))
  = (HClient, Some {| dead := dead i; client := f (client i) |}, chanList st,
     timers st, defers (settle d o st), jobs (settle d o st), server st,
     join_count (log st)).
Proof.
  unfold settle, get_defer. cbn [defers set_nick emit set_log set_unsafeClient
                                 set_inst].
  destruct (nth_error (defers st) d) as [[[o' |] ws] |];
    unfold view, map_client, emit; cbn -[push]; unfold push;
    rewrite ?join_count_app; cbn; rewrite ?Nat.add_0_r; reflexivity.
Qed.

(** What a completed connect leaves of the session it found. *)
Lemma view_connect_created (c : RawClient) (st : State) :
  view (connect_created c st)
  = (HClient,
     Some {| dead := false;
             client := add_error_listener LErrorReport
                         (add_nick_listener LNickTrack c) |},
     chanList st, timers st,
     defers (settle connectDefer (Resolved VUndefined) st),
     jobs (settle connectDefer (Resolved VUndefined) st),
     server st, join_count (log st)).
Proof.
  unfold connect_created.
  match goal with
  | |- view (map_client ?f (map_client ?g
               (emit (Metadata ?text false)
                     (if ?b then send (MODE ?modes) ?s else ?s))) ) = _ =>
      rewrite (view_connect_shape s f g text modes b)
  end.
  match goal with
  | |- view (map_client ?f (keepAlive ?s)) = _ =>
      rewrite (view_keepAlive f s)
  end.
  match goal with
  | |- view (map_client ?f (settle ?d ?o (set_nick ?v (emit (Emit ?e)
               (set_unsafeClient HClient (set_inst (Some ?i) st)))))) = _ =>
      rewrite (view_settle_connected f d o i v e st)
  end.
  reflexivity.
Qed.

Lemma joinChannel_issues (st : State) (channel : string)
      (key : option string) (a : Z) (c : RawClient) :
  a <> 0 ->
  getClient st = Some c ->
  includes channel (c_chans c) = false ->
  test_channel_regex channel = true ->
  isExcludedChannel (server st) channel = false ->
  joinChannel_ channel key (Some a) st
  = (map_client (add_callback (CbJoin (List.length (defers st)) channel))
       (send (JOIN (channel ++ (if truthy key then " " ++ or_default key ""
                                else "")))
          (setTimeout (TJoin (List.length (defers st)) channel key a)
                      JOIN_TIMEOUT_MS
             (map_client
                (add_error_listener (LJoinFailed (List.length (defers st))
                                                 channel))
                (addChannel channel (snd (new_defer st)))))),
     Deferred (List.length (defers st))).
Proof.
  intros Ha Hc Hin Ht Hx. unfold joinChannel_.
  rewrite Hc, Hin, Ht, Hx. cbn [negb].
  destruct a; [contradiction | reflexivity | reflexivity].
Qed.

Lemma fire_callback_join (st : State) (i : ConnectionInstance) (n d : nat)
      (channel : string) :
  inst st = Some i ->
  nth_error (c_callbacks (client i)) n = Some (CbJoin d channel) ->
  fire_callback n NoArgs st
  = onJoined d channel
      (map_client (fun c => set_c_callbacks (remove_nth n (c_callbacks c)) c)
                  st).
Proof.
  intros H1 H2. unfold fire_callback. rewrite H1, H2. reflexivity.
Qed.

(** X18: a join asked for before the session has connected waits for the
    connection.  Nothing is sent when it is asked for; once the
    connection is there and the waiting callback has run, one JOIN for
    the channel (with the key, if any) has gone out and the channel is
    tracked; the promise handed out at the start is still pending then
    and resolves with the room once the JOIN callback and the callback
    chained to it have run. *)
Theorem join_before_connect_is_issued_after
        (srv : IrcServer) (desiredNick : string) (bot : bool) (t : Z)
        (channel : string) (key : option string) (c : RawClient) :
  test_channel_regex channel = true ->
  isExcludedChannel srv channel = false ->
  includes channel (c_chans c) = false ->
  let s0 := BridgedClient srv desiredNick bot t in
  let s1 := fst (joinChannel_ channel key None s0) in
  let p := snd (joinChannel_ channel key None s0) in
  let s2 := connect_created c s1 in
  let s3 := run_next_job s2 in
  let s4 := run [ECallback (List.length (c_callbacks c)) NoArgs; EJob] s3 in
  log s1 = []
  /\ outcome_of p s2 = None
  /\ join_count (log s2) = 0%nat
  /\ log s3 = push (log s2)
                   (Wire (JOIN (channel ++ (if truthy key
                                            then " " ++ or_default key ""
                                            else ""))))
  /\ chanList s3 = [channel]
  /\ outcome_of p s3 = None
  /\ outcome_of p s4 = Some (Resolved (VRoom channel)).
Proof.
  intros Ht Hx Hin. cbv zeta.
  set (s0 := BridgedClient srv desiredNick bot t).
  assert (joinChannel_ channel key None s0
          = (set_defers [{| d_state := None;
                            d_waiters := [([KJoin channel key (Some 1)], Some 1%nat)] |};
                         {| d_state := None; d_waiters := [] |}] s0,
             Deferred 1)) as -> by reflexivity.
  cbn [fst snd].
  set (s1 := set_defers _ s0).
  split; [reflexivity |].
  pose proof (view_connect_created c s1) as Hv.
  destruct (connect_created c s1) as
      [srv2 bot2 nick2 inst2 uc2 chans2 la2 ed2 icf2 dr2 idle2 timers2
            defers2 jobs2 cache2 now2 log2].
  unfold view in Hv. cbn in Hv.
  injection Hv as Huc Hinst Hchans Htimers Hdefers Hjobs Hsrv Hlog.
  subst uc2 inst2 chans2 timers2 defers2 jobs2 srv2.
  set (c' := add_error_listener LErrorReport (add_nick_listener LNickTrack c)).
  set (s2 := {| server := srv |}).
  split; [reflexivity |]. split; [exact Hlog |].
  assert (run_next_job s2
          = then_ (snd (joinChannel_ channel key (Some 1) (set_jobs [] s2)))
                  [] (Some 1%nat)
                  (fst (joinChannel_ channel key (Some 1) (set_jobs [] s2))))
    as ->.
  { change (run_next_job s2)
      with (run_job ([KJoin channel key (Some 1)], Some 1%nat,
                     Resolved VUndefined) (set_jobs [] s2)).
    unfold run_job, exec_frame.
    destruct (joinChannel_ channel key (Some 1) _); reflexivity. }
  rewrite (joinChannel_issues (set_jobs [] s2) channel key 1 c');
    [| discriminate | reflexivity | exact Hin | exact Ht | exact Hx].
  cbn [fst snd].
  set (s3 := then_ _ _ _ _).
  split; [reflexivity |]. split; [reflexivity |]. split; [reflexivity |].
  unfold run. cbn [fold_left step].
  assert (inst s3
          = Some {| dead := false;
                    client := add_callback (CbJoin 2 channel)
                                (add_error_listener (LJoinFailed 2 channel) c')
                 |}) as Hi3 by reflexivity.
  rewrite (fire_callback_join s3 _ _ 2 channel Hi3)
    by apply (nth_error_push (c_callbacks c)).
  vm_compute. reflexivity.
Qed.

(** X18 on the example server and client. *)
Lemma join_before_connect_is_issued_after_witness :
  let s0 := BridgedClient example_server "trinity" false 0 in
  let s1 := fst (joinChannel_ "#zion" None None s0) in
  let p := snd (joinChannel_ "#zion" None None s0) in
  let s2 := connect_created example_client s1 in
  let s3 := run_next_job s2 in
  let s4 := run [ECallback (List.length (c_callbacks example_client)) NoArgs;
                 EJob] s3 in
  log s1 = []
  /\ outcome_of p s2 = None
  /\ join_count (log s2) = 0%nat
  /\ log s3 = push (log s2) (Wire (JOIN "#zion"))
  /\ chanList s3 = ["#zion"]
  /\ outcome_of p s3 = None
  /\ outcome_of p s4 = Some (Resolved (VRoom "#zion")).
Proof.
  exact (join_before_connect_is_issued_after
           example_server "trinity" false 0 "#zion" None example_client
           eq_refl eq_refl eq_refl).
Defined.

(* ================================================================= *)
(** ** A failed connect *)

(** X19: once a connect attempt has failed the session reports itself
    dead, and keeps doing so whatever happens later, a later successful
    connect included: nothing resets [instCreationFailed]. *)
Theorem isDead_after_failed_connect (st : State) (evs : list event) :
  isDead (run evs (connect_failed st)) = true.
Proof.
  destruct (evolves_run evs (connect_failed st)) as (_ & _ & H & _).
  unfold isDead. rewrite H; reflexivity.
Qed.

(* ================================================================= *)
(** ** Topics and activity *)

Ltac idle_fields :=
  repeat match goal with
         | |- context [match ?x with _ => _ end] => destruct x
         end;
  split; reflexivity.

Lemma idle_fields_then (p : promise) (k : list frame) (t : option nat)
      (st : State) :
  lastActionTs (then_ p k t st) = lastActionTs st
  /\ idleTimeout_ (then_ p k t st) = idleTimeout_ st.
Proof. unfold then_. idle_fields. Qed.

Lemma idle_fields_joinChannel (channel : string) (key : option string)
      (a : option Z) (st : State) :
  lastActionTs (fst (joinChannel_ channel key a st)) = lastActionTs st
  /\ idleTimeout_ (fst (joinChannel_ channel key a st)) = idleTimeout_ st.
Proof.
  unfold joinChannel_. cbv zeta.
  destruct (getClient st) as [c |].
  - destruct (includes channel (c_chans c)); [split; reflexivity |].
    destruct (negb (test_channel_regex channel)); [split; reflexivity |].
    destruct (isExcludedChannel (server st) channel); [split; reflexivity |].
    cbn [new_defer fst snd]. unfold addChannel. cbn.
    destruct (includes channel (chanList st)); split; reflexivity.
  - destruct (isPending connectDefer st); [| split; reflexivity].
    cbn [new_defer fst snd].
    apply (idle_fields_then _ _ _ (set_defers _ st)).
Qed.

(** X20: every [sendAction], whatever the action and whether or not it
    can be sent, stamps the time of the call as the last activity and,
    when the server has a positive idle timeout, arms the idle timer
    with it. *)
Theorem sendAction_records_activity
        (st : State) (channel : string) (action : Action) :
  lastActionTs (fst (sendAction channel action st)) = now st
  /\ (0 < getIdleTimeout (server st) ->
      idleTimeout_ (fst (sendAction channel action st))
      = Some (getIdleTimeout (server st))).
Proof.
  assert (lastActionTs (keepAlive st) = now st
          /\ (0 < getIdleTimeout (server st) ->
              idleTimeout_ (keepAlive st) = Some (getIdleTimeout (server st))))
    as [Ha Hb].
  { unfold keepAlive. cbv zeta. cbn.
    destruct (getIdleTimeout (server st) >? 0) eqn:E; cbn; split; auto;
      intros H; apply Z.gtb_lt in H; congruence. }
  assert (forall r : State * promise,
             lastActionTs (fst r) = lastActionTs (keepAlive st)
             /\ idleTimeout_ (fst r) = idleTimeout_ (keepAlive st) ->
             lastActionTs (fst r) = now st
             /\ (0 < getIdleTimeout (server st) ->
                 idleTimeout_ (fst r) = Some (getIdleTimeout (server st))))
    as Hk.
  { intros r [H1 H2]. rewrite H1, H2. auto. }
  assert (forall msgType text e,
             lastActionTs (fst (sendMessage channel msgType text e (keepAlive st)))
             = lastActionTs (keepAlive st)
             /\ idleTimeout_ (fst (sendMessage channel msgType text e
                                               (keepAlive st)))
                = idleTimeout_ (keepAlive st)) as Hm.
  { intros. unfold sendMessage. cbn [new_defer fst snd].
    apply (idle_fields_then _ _ _ (set_defers _ (keepAlive st))). }
  unfold sendAction. cbv zeta.
  destruct (String.eqb (a_type action) "message"); [apply Hk, Hm |].
  destruct (String.eqb (a_type action) "notice"); [apply Hk, Hm |].
  destruct (String.eqb (a_type action) "emote"); [apply Hk, Hm |].
  destruct (String.eqb (a_type action) "topic"); [| apply Hk; auto].
  apply Hk. unfold setTopic.
  pose proof (idle_fields_joinChannel channel None None (keepAlive st)) as Hj.
  destruct (joinChannel_ channel None None (keepAlive st)) as [s p].
  cbn [new_defer fst snd] in *.
  destruct (idle_fields_then p [KSetTopic channel (a_text action)]
              (Some (List.length (defers s)))
              (set_defers (push (defers s)
                                {| d_state := None; d_waiters := [] |}) s))
    as [H1 H2].
  rewrite H1, H2. exact Hj.
Qed.

(** X20 on the example session, for an action of unknown type. *)
Lemma sendAction_records_activity_witness :
  let st := run [ETick 5000] connected_session in
  let action := {| a_type := "dance"; a_text := ""; a_ts := None |} in
  lastActionTs (fst (sendAction "#zion" action st)) = now st
  /\ idleTimeout_ (fst (sendAction "#zion" action st))
     = Some (getIdleTimeout (server st)).
Proof.
  cbv zeta.
  destruct (sendAction_records_activity
              (run [ETick 5000] connected_session) "#zion"
              {| a_type := "dance"; a_text := ""; a_ts := None |})
    as [H1 H2].
  split; [exact H1 |]. apply H2. vm_compute; reflexivity.
Defined.

(** X21: a topic action for a channel the client is in needs no
    connection promise: once the two callbacks [_setTopic] chains have
    run, one TOPIC command has gone out and the returned promise is
    resolved. *)
Theorem setTopic_sends_topic
        (st : State) (channel topic : string) (c : RawClient) :
  getClient st = Some c ->
  includes channel (c_chans c) = true ->
  jobs st = [] ->
  let st1 := fst (setTopic channel topic st) in
  let p := snd (setTopic channel topic st) in
  let st3 := run [EJob; EJob] st1 in
  outcome_of p st1 = None
  /\ log st1 = log st
  /\ log st3 = push (log st) (Wire (TOPIC channel topic))
  /\ outcome_of p st3 = Some (Resolved VUndefined)
  /\ jobs st3 = [].
Proof.
  intros Hc Hin Hj.
  unfold setTopic.
  rewrite (joinChannel_already_joined st channel None None c Hc Hin).
  cbn [new_defer fst snd]. cbv zeta.
  set (d := List.length (defers st)).
  set (s0 := set_defers _ st).
  set (K := [KSetTopic channel topic]).
  assert (isPending d s0 = true) as Hp by apply isPending_new_defer.
  assert (then_ (Settled (Resolved (VRoom channel))) K (Some d) s0
          = set_jobs [(K, Some d, Resolved (VRoom channel))] s0) as ->.
  { unfold then_. change (jobs s0) with (jobs st). now rewrite Hj. }
  set (s1 := set_jobs _ s0).
  assert (run [EJob; EJob] s1
          = settle d (Resolved VUndefined)
              (set_jobs [] (send (TOPIC channel topic) s1))) as ->.
  { unfold run. cbn [fold_left step].
    assert (run_next_job s1
            = set_jobs [([], Some d, Resolved VUndefined)]
                       (send (TOPIC channel topic) s1)) as ->.
    { unfold run_next_job. cbn [jobs s1 set_jobs]. unfold run_job, exec_frame.
      cbn [K].
      change (getClient (set_jobs [] s1)) with (getClient st).
      rewrite Hc. reflexivity. }
    reflexivity. }
  assert (get_defer d (set_jobs [] (send (TOPIC channel topic) s1))
          = Some {| d_state := None; d_waiters := [] |}) as E
      by apply (nth_error_push (defers st)).
  split; [| split; [reflexivity | split; [| split]]].
  - change (outcome_of (Deferred d) s0 = None).
    unfold isPending in Hp. unfold outcome_of.
    destruct (get_defer d s0) as [[[o |] ws] |]; try discriminate; auto.
  - unfold settle. rewrite E. reflexivity.
  - apply outcome_of_settle. exact Hp.
  - unfold settle. rewrite E. reflexivity.
Qed.

(** X21 on the example session, joined to a channel. *)
Lemma setTopic_sends_topic_witness :
  let st := run [EChans ["#zion"]] connected_session in
  let st1 := fst (setTopic "#zion" "Wake up" st) in
  let p := snd (setTopic "#zion" "Wake up" st) in
  let st3 := run [EJob; EJob] st1 in
  outcome_of p st1 = None
  /\ log st1 = log st
  /\ log st3 = push (log st) (Wire (TOPIC "#zion" "Wake up"))
  /\ outcome_of p st3 = Some (Resolved VUndefined)
  /\ jobs st3 = [].
Proof.
  assert (getClient (run [EChans ["#zion"]] connected_session)
          = Some (set_c_chans ["#zion"]
                    (set_c_errorListeners [LErrorReport]
                       (set_c_nickListeners [LNickTrack] example_client))))
    as H1 by (vm_compute; reflexivity).
  assert (jobs (run [EChans ["#zion"]] connected_session) = []) as H3
      by (vm_compute; reflexivity).
  exact (setTopic_sends_topic
           (run [EChans ["#zion"]] connected_session) "#zion" "Wake up"
           _ H1 eq_refl H3).
Defined.

(* ================================================================= *)
(** ** Losing the connection *)

(** X22: the [onDisconnect] slot disarms the idle timer, so an idle
    expiry after the connection was lost does nothing; it records the
    reason, and it marks the disconnect as explicit exactly when the
    reason is "banned" or it was explicit before. *)
Theorem onDisconnect_disarms_idle_timer (reason : string) (st : State) :
  fire_idle (onDisconnect reason st) = onDisconnect reason st
  /\ disconnectReason (onDisconnect reason st) = Some reason
  /\ explicitDisconnect (onDisconnect reason st)
     = (explicitDisconnect st || String.eqb reason "banned")%bool
  /\ wire (log (onDisconnect reason st)) = wire (log st).
Proof.
  unfold onDisconnect, fire_idle. cbv zeta.
  destruct (String.eqb reason "banned"); cbn -[append];
    unfold push; rewrite !wire_app; cbn -[append];
    rewrite ?app_nil_r, ?orb_true_r, ?orb_false_r; repeat split.
Qed.


(* ================================================================= *)
(** ** The round timer of a join: its policy *)






(* ================================================================= *)
(** ** The idle timer: its policy in reachable states *)

Lemma idle_disconnect_spent (reason : string) (st : State) :
  idleTimeout_ st = None -> idleTimeout_ (fst (disconnect reason st)) = None.
Proof.
  intros H. unfold disconnect, inst_disconnect. cbv zeta.
  change (inst (set_explicitDisconnect true st)) with (inst st).
  destruct (inst st) as [i |]; [destruct (dead i) |]; cbn [fst];
    try exact H.
  unfold onDisconnect. reflexivity.
Qed.

(** C8: in every state a session can reach from its construction, when
    the armed idle timer expires nothing happens if the server mirrors
    membership for phase "initial"; else nothing happens if the session
    is the bot; otherwise [disconnect] is called with the reason
    "Idle timeout reached: Ns", N being the idle timeout the server is
    configured with.  ("Nothing" leaves the session as it was but for
    the timer, which is spent.)  In each case the timer is spent
    afterwards, so the expiry, and with it the call of [disconnect],
    happens once per arming. *)
Theorem idle_timer_expiry_policy
        (srv : IrcServer) (desiredNick : string) (bot : bool) (t : Z)
        (evs : list event) (n : Z) :
  let st := run evs (BridgedClient srv desiredNick bot t) in
  idleTimeout_ st = Some n ->
  let spent := set_idleTimeout None st in
  let fired := fire_idle st in
  (shouldSyncMembershipToIrc srv "initial" = true -> fired = spent)
  /\ (shouldSyncMembershipToIrc srv "initial" = false ->
      isBot st = true -> fired = spent)
  /\ (shouldSyncMembershipToIrc srv "initial" = false ->
      isBot st = false ->
      fired = fst (disconnect ("Idle timeout reached: "
                               ++ string_of_Z (getIdleTimeout srv) ++ "s")
                              spent))
  /\ idleTimeout_ fired = None
  /\ fire_idle fired = fired.
Proof.
  intros st Hn spent fired.
  destruct (evolves_run evs (BridgedClient srv desiredNick bot t))
    as (Hs & _ & _ & _ & _ & Hi).
  fold st in Hs, Hi.
  destruct (Hi (proj2 (initial_evolves_ok _ _ _ _)) n Hn) as [-> _].
  change (server (BridgedClient srv desiredNick bot t)) with srv in Hs.
  assert (fired
          = if shouldSyncMembershipToIrc srv "initial" then spent
            else if isBot st then spent
            else fst (disconnect
                        ("Idle timeout reached: "
                         ++ string_of_Z (getIdleTimeout srv) ++ "s") spent))
    as E.
  { unfold fired, fire_idle. rewrite Hn. unfold onIdleTimeout.
    change (server (set_idleTimeout None st)) with (server st).
    change (isBot (set_idleTimeout None st)) with (isBot st).
    rewrite Hs. reflexivity. }
  assert (idleTimeout_ fired = None) as Hspent.
  { rewrite E. destruct (shouldSyncMembershipToIrc srv "initial");
      [reflexivity |].
    destruct (isBot st); [reflexivity |].
    now apply idle_disconnect_spent. }
  split; [intros H; rewrite E, H; reflexivity |].
  split; [intros H Hb; rewrite E, H, Hb; reflexivity |].
  split; [intros H Hb; rewrite E, H, Hb; reflexivity |].
  split; [exact Hspent |].
  unfold fire_idle. now rewrite Hspent.
Qed.

(** C8 on the spec's scenario: timeout 300, not the bot, no mirroring.
    The call of [disconnect] shows as one QUIT with the reason, and a
    second expiry changes nothing. *)
Lemma idle_timer_expiry_policy_witness :
  let st := run [EConnectStart; EConnectCreated example_client]
                (BridgedClient example_server "trinity" false 0) in
  fire_idle st
  = fst (disconnect "Idle timeout reached: 300s" (set_idleTimeout None st))
  /\ wire (log (fire_idle st)) = [QUIT "Idle timeout reached: 300s"]
  /\ fire_idle (fire_idle st) = fire_idle st.
Proof.
  assert (idleTimeout_
            (run [EConnectStart; EConnectCreated example_client]
                 (BridgedClient example_server "trinity" false 0))
          = Some 300) as Hn by (vm_compute; reflexivity).
  destruct (idle_timer_expiry_policy
              example_server "trinity" false 0
              [EConnectStart; EConnectCreated example_client] 300 Hn)
    as (_ & _ & H3 & _ & H5).
  cbv zeta. split; [apply H3; reflexivity |].
  split; [vm_compute; reflexivity | exact H5].
Defined.
